(** * moosetools test harness: a shallow embedding and its properties

    The development follows the Python sources:
    - [TestCase]        testharness/base/TestCase.py  (Result states,
                        [executeObject], [execute])
    - [Redirect], [RedirectScope]
                        testharness/base/TestCase.py  (class RedirectOutput)
    - [TestCaseReport]  testharness/base/TestCase.py  ([report] and the lines printed)
    - [Runner]          moosetest/base/Runner.py      (expected-file checks)
    - [Parser]          factory/Parser.py             (duplicate check, block parsing,
                        [extractParams])
    - [QueueManager], [QueueOps]
                        moosetest/schedulers/QueueManager.py

    Python dictionaries and sets are stdpp finite maps and sets, the values of
    a JSON file an inductive type; methods that mutate [self] pass the object
    state explicitly, and an exception is a value returned. *)

From Stdlib Require Import ZArith Ascii String List Bool Lia.
From stdpp Require Import base option list gmap sets strings pretty.

Local Open Scope string_scope.
Local Open Scope list_scope.

Set Warnings "-clear-no-such-hyp,-register-all".

(** Settle a decidable proposition by evaluating its decision procedure. *)
Ltac decide_by_compute := apply (bool_decide_unpack _); vm_compute; exact I.

(** ** A state monad for methods that mutate their object *)

Module StateM.
Definition M (S A : Type) : Type := S -> A * S.
Definition ret {S A} (a : A) : M S A := fun s => (a, s).
Definition bind {S A B} (m : M S A) (k : A -> M S B) : M S B :=
  fun s => let (a, s') := m s in k a s'.
Definition get {S} : M S S := fun s => (s, s).
Definition modify {S} (f : S -> S) : M S unit := fun s => (tt, f s).
Definition run {S A} (m : M S A) (s : S) : A * S := m s.
End StateM.

#[global] Instance statem_ret {S} : MRet (StateM.M S) := @StateM.ret S.
#[global] Instance statem_bind {S} : MBind (StateM.M S) :=
  fun A B k m => StateM.bind m k.

(** ** The Python string and path operations the sources use *)

Module PyStr.

(** [os.path.isabs] (posix): the path starts with a slash. *)
Definition isabs (p : string) : bool :=
  match p with
  | String "/" _ => true
  | _ => false
  end.

Fixpoint endswith_slash (p : string) : bool :=
  match p with
  | "" => false
  | String c "" => Ascii.eqb c "/"
  | String _ rest => endswith_slash rest
  end.

(** [os.path.join(a, b)] (posix). *)
Definition path_join (a b : string) : string :=
  if isabs b then b
  else if String.eqb a "" || endswith_slash a then a +:+ b
  else a +:+ "/" +:+ b.

(** [s.startswith(pre)], with the rest of [s] when it does. *)
Fixpoint strip_prefix (pre s : string) : option string :=
  match pre, s with
  | "", _ => Some s
  | String a pre', String b s' =>
      if Ascii.eqb a b then strip_prefix pre' s' else None
  | String _ _, "" => None
  end.

Definition startswith (pre s : string) : bool :=
  match strip_prefix pre s with Some _ => true | None => false end.

(** [sub in s] *)
Fixpoint contains (sub s : string) : bool :=
  startswith sub s ||
  match s with
  | "" => false
  | String _ s' => contains sub s'
  end.

(** [s.replace(old, new)] for a non-empty [old]: all occurrences that do
    not overlap, from the left.  [skip] counts the characters of a matched
    occurrence still to be passed over. *)
Fixpoint replace_go (old new s : string) (skip : nat) : string :=
  match s with
  | "" => ""
  | String c s' =>
      match skip with
      | S k => replace_go old new s' k
      | O =>
          if startswith old s
          then new +:+ replace_go old new s' (String.length old - 1)
          else String c (replace_go old new s' 0)
      end
  end.

Definition replace (old new s : string) : string := replace_go old new s 0.

(** [c.upper()] on an ASCII character. *)
Definition upper_ascii (c : ascii) : ascii :=
  let n := nat_of_ascii c in
  if (97 <=? n)%nat && (n <=? 122)%nat then ascii_of_nat (n - 32) else c.

Fixpoint upper (s : string) : string :=
  match s with
  | "" => ""
  | String c s' => String (upper_ascii c) (upper s')
  end.

(** The double-quote character, and [s] between double quotes. *)
Definition dquote : ascii := ascii_of_nat 34.
Definition quoted (s : string) : string := String dquote (s +:+ String dquote "").

(** The text of [s] before its first slash. *)
Fixpoint first_component (s : string) : string :=
  match s with
  | "" => ""
  | String c s' => if Ascii.eqb c "/" then "" else String c (first_component s')
  end.

(** The newline character. *)
Definition newline : ascii := ascii_of_nat 10.

(** [re.match('".*"', s)]: a double quote first, then a second one with no
    newline before it (the dot matches any character but a newline). *)
Fixpoint quote_before_newline (s : string) : bool :=
  match s with
  | "" => false
  | String c s' =>
      if Ascii.eqb c dquote then true
      else if Ascii.eqb c newline then false
      else quote_before_newline s'
  end.

Definition re_match_quoted (s : string) : bool :=
  match s with
  | "" => false
  | String c s' => Ascii.eqb c dquote && quote_before_newline s'
  end.

Fixpoint has_newline (s : string) : bool :=
  match s with
  | "" => false
  | String c s' => Ascii.eqb c newline || has_newline s'
  end.

(** [s[:-1]] and [s[1:-1]] *)
Fixpoint drop_last (s : string) : string :=
  match s with
  | "" => ""
  | String c "" => ""
  | String c s' => String c (drop_last s')
  end.

Definition slice_1_m1 (s : string) : string :=
  match s with
  | "" => ""
  | String _ s' => drop_last s'
  end.

(** The characters that [\s] matches, among the ASCII ones. *)
Definition is_space (c : ascii) : bool :=
  let n := nat_of_ascii c in
  ((9 <=? n)%nat && (n <=? 13)%nat) || ((28 <=? n)%nat && (n <=? 32)%nat).

(** [re.split('\s+', s)]: [cur] is the piece being read, reversed, and
    [in_space] tells that the last character was a separator. *)
Fixpoint re_split_go (s : string) (cur : string) (in_space : bool) : list string :=
  match s with
  | "" => [String.rev cur]
  | String c s' =>
      if is_space c
      then if in_space then re_split_go s' cur true
           else String.rev cur :: re_split_go s' "" true
      else re_split_go s' (String c cur) false
  end.

Definition re_split_spaces (s : string) : list string := re_split_go s "" false.

(** [sep.join(l)] *)
Definition join (sep : string) (l : list string) : string := String.concat sep l.

End PyStr.

(** ** TestCase.py: progress and result states, [TestCase.executeObject] and [TestCase.execute] *)

Module TestCase.

(** [class Progress(State)]: (value, exitcode, display, color). *)
Inductive Progress := WAITING | RUNNING | FINISHED | CLOSED.

(** [class Result(State)]. *)
Inductive Result := SKIP | PASS | ERROR | EXCEPTION | FATAL.

#[global] Instance Result_eq_dec : EqDecision Result.
Proof. solve_decision. Defined.

Definition value (r : Result) : Z :=
  match r with
  | SKIP => 11 | PASS => 12 | ERROR => 13 | EXCEPTION => 14 | FATAL => 15
  end.

Definition exitcode (r : Result) : Z :=
  match r with
  | SKIP | PASS => 0
  | ERROR | EXCEPTION | FATAL => 1
  end.

Definition display (r : Result) : string :=
  match r with
  | SKIP => "SKIP" | PASS => "OK" | ERROR => "ERROR"
  | EXCEPTION => "EXCEPTION" | FATAL => "FATAL"
  end.

(** The severity order the documentation speaks of:
    PASS < SKIP < ERROR ~ EXCEPTION < FATAL. *)
Definition severity (r : Result) : nat :=
  match r with
  | PASS => 0 | SKIP => 1 | ERROR => 2 | EXCEPTION => 2 | FATAL => 3
  end.

Definition worst_severity (rs : list Result) : nat :=
  foldr (fun r acc => Nat.max (severity r) acc) 0%nat rs.

(** What [executeObject] and [execute] let escape. *)
Inductive Exn :=
| AttributeError (attr : string)  (* the object has no such attribute *)
| IndexError (what : string)      (* [logger.handlers[0]] *)
| TypeError (what : string).

Section Execute.
(** The objects a TestCase drives (its Runner and its Differs) and the
    Controller; their classes are not part of these sources. *)
Context {Obj Controller : Type}.
Variable name : Obj -> string.

(** What a stage call receives: nothing for the Runner, the Runner's
    [returncode] and output for a Differ ([*args] of [executeObject]). *)
Definition StageArgs : Type := option (option Z * string).

(** What [self._controller.reset(); self._controller.execute(obj)] does
    under the redirect, as [executeObject] observes it: whether an
    Exception is raised, the text captured ([c_run_out.stdout]), and what
    [self._controller.status()], [obj.status()] and
    [self._controller.isRunnable()] answer afterwards. *)
Record ControllerRun := mkControllerRun {
  controller_raises : bool;
  controller_stdout : string;
  controller_status : bool;
  object_status : bool;
  isRunnable : bool
}.

(** What [obj.reset()] and [obj.execute], called with [*args], do under the
    redirect:
    whether an Exception is raised, the text captured ([run_out.stdout]),
    what [obj.status()] answers afterwards, and the value returned. *)
Record ObjectRun := mkObjectRun {
  object_raises : bool;
  run_stdout : string;
  run_status : bool;
  run_returncode : option Z
}.

Variable controller_execute : Controller -> Obj -> ControllerRun.
Variable object_execute : Obj -> StageArgs -> ObjectRun.

(** The five messages that [executeObject] logs, each with the name of the
    object and the text captured before, and the text that logging one of
    them leaves in the redirect ([err_out.stdout]). *)
Inductive Logged :=
| ControllerException (obj out : string)
| ControllerError (obj out : string)
| ObjectErrorByController (obj out : string)
| ObjectException (obj out : string)
| ObjectError (obj out : string).

Variable err_out : Controller -> Logged -> string.

(** The root logger has a handler: [RedirectOutput.__enter__] and
    [__exit__] read [logger.handlers[0]]. *)
Variable has_handler : bool.

(** The part of [self] that [execute] touches, with the log of the stage
    calls made and of the lines printed.  [_controller] is [None] while
    the attribute has not been assigned. *)
Record Self := mkSelf {
  _runner : Obj;
  _differs : option (list Obj);
  _controller : option Controller;
  progress : Progress;
  calls : list (Obj * StageArgs);
  printed : list string
}.

(** [__init__]: the Runner, the 'differs' parameter ([None] when it was
    not given) and the progress; the line that would assign
    [self._controller] is commented out. *)
Definition init (runner : Obj) (differs : option (list Obj)) : Self :=
  mkSelf runner differs None WAITING [] [].

(** An assignment [self._controller = controller], which these sources do
    not make. *)
Definition with_controller (controller : Controller) (self : Self) : Self :=
  mkSelf (_runner self) (_differs self) (Some controller) (progress self)
         (calls self) (printed self).

(** The body of [executeObject] once [self._controller] is found and the
    redirects can be entered: [(state, out, returncode)]. *)
Definition stage (controller : Controller) (obj : Obj) (args : StageArgs)
  : Result * string * option Z :=
  let c_run := controller_execute controller obj in
  let c_run_out := controller_stdout c_run in
  if controller_raises c_run
  then (FATAL, err_out controller (ControllerException (name obj) c_run_out), None)
  else if controller_status c_run
  then (FATAL, err_out controller (ControllerError (name obj) c_run_out), None)
  else if object_status c_run
  then (FATAL, err_out controller (ObjectErrorByController (name obj) c_run_out), None)
  else if negb (isRunnable c_run)
  then (SKIP, c_run_out, None)
  else
    let run := object_execute obj args in
    if object_raises run
    then (EXCEPTION, err_out controller (ObjectException (name obj) (run_stdout run)), None)
    else if run_status run
    then (ERROR, err_out controller (ObjectError (name obj) (run_stdout run)),
          run_returncode run)
    else (PASS, run_stdout run, run_returncode run).

(** [executeObject], called with [obj] and [*args].  Without a handler the first [with] raises
    IndexError inside [try], and so does the [with] of the handler of
    [except Exception]; without [self._controller] the attribute lookup
    raises AttributeError inside [try], and again in that handler. *)
Definition executeObject (self : Self) (obj : Obj) (args : StageArgs)
  : Exn + Result * string * option Z :=
  if negb has_handler then inl (IndexError "list index out of range")
  else
    match _controller self with
    | None => inl (AttributeError "_controller")
    | Some controller => inr (stage controller obj args)
    end.

Definition Results : Type := gmap string (Result * string).

Import StateM.

Definition setProgress (p : Progress) : M Self unit :=
  modify (fun s => mkSelf (_runner s) (_differs s) (_controller s) p (calls s) (printed s)).

Definition print (line : string) : M Self unit :=
  modify (fun s => mkSelf (_runner s) (_differs s) (_controller s) (progress s) (calls s)
                          (printed s ++ [line])).

(** A call of [self.executeObject], logged. *)
Definition call (obj : Obj) (args : StageArgs)
  : M Self (Exn + Result * string * option Z) :=
  modify (fun s => mkSelf (_runner s) (_differs s) (_controller s) (progress s)
                          (calls s ++ [(obj, args)]) (printed s)) ;;
  self ← get ;
  mret (executeObject self obj args).

(** [for obj in self._differs: ...] over a list. *)
Fixpoint differ_loop (differs : list Obj) (returncode : option Z)
    (out : string) (state : Result) (results : Results)
  : M Self (Exn + Result * Results) :=
  match differs with
  | [] => mret (inr (state, results))
  | obj :: rest =>
      r ← call obj (Some (returncode, out)) ;
      match r with
      | inl e => mret (inl e)
      | inr (d_state, d_out, _) =>
          let results := <[name obj := (d_state, d_out)]> results in
          let state :=
            if bool_decide (d_state <> SKIP) && (0 <? exitcode d_state)%Z
            then d_state else state in
          differ_loop rest returncode out state results
      end
  end.

(** [execute]: what is returned, or the exception that escapes. *)
Definition execute : M Self (Exn + Result * Results) :=
  setProgress RUNNING ;;
  print "here" ;;
  self ← get ;
  r ← call (_runner self) None ;
  match r with
  | inl e => mret (inl e)
  | inr (state, out, returncode) =>
      let results : Results := <[name (_runner self) := (state, out)]> ∅ in
      if bool_decide (state = SKIP) || (0 <? exitcode state)%Z
      then mret (inr (state, results))
      else
        match _differs self with
        | None => mret (inl (TypeError "'NoneType' object is not iterable"))
        | Some differs => differ_loop differs returncode out state results
        end
  end.

(** The state a stage yields. *)
Definition stage_state (controller : Controller) (obj : Obj) (args : StageArgs) : Result :=
  (stage controller obj args).1.1.

(** The Runner stopped the TestCase: SKIP or exit-code bit 1. *)
Definition runner_stops (state : Result) : bool :=
  bool_decide (state = SKIP) || (0 <? exitcode state)%Z.

(** The state of the last element with exit-code bit 1, [dflt] when
    there is none. *)
Fixpoint last_failing (dflt : Result) (rs : list Result) : Result :=
  match rs with
  | [] => dflt
  | r :: rest => last_failing (if (0 <? exitcode r)%Z then r else dflt) rest
  end.

Definition max_exitcode (rs : list Result) : Z :=
  foldr (fun r acc => Z.max (exitcode r) acc) 0%Z rs.
End Execute.

Arguments mkSelf {Obj Controller}.
Arguments Logged : clear implicits.

(** A concrete process: objects are named by strings, there is one
    Controller, and the root logger has a handler.  The Controller logs an
    error on itself for the objects of [on_controller], finds those of
    [unrunnable] not runnable, and an object of [on_object] logs an error
    while it executes; nothing raises and nothing is written. *)
Record Table := mkTable {
  on_controller : list string;
  unrunnable : list string;
  on_object : list string
}.

Definition table_controller (t : Table) (_ : unit) (obj : string) : ControllerRun :=
  mkControllerRun false "" (bool_decide (obj ∈ on_controller t)) false
                  (negb (bool_decide (obj ∈ unrunnable t))).

Definition table_object (t : Table) (obj : string) (_ : StageArgs) : ObjectRun :=
  mkObjectRun false "" (bool_decide (obj ∈ on_object t)) (Some 0%Z).

Definition table_err_out (_ : unit) (_ : Logged) : string := "".

Definition table_stage (t : Table) : string -> StageArgs -> Result * string * option Z :=
  stage id (table_controller t) (table_object t) table_err_out tt.

(** [execute] on the TestCase of [runner] and [differs], once a Controller
    has been assigned: the final Result, when one is returned, and the
    objects executed. *)
Definition run_table (t : Table) (runner : string) (differs : list string)
  : option Result * list string :=
  let '(r, s) :=
    StateM.run (execute id (table_controller t) (table_object t) table_err_out true)
               (with_controller tt (init runner (Some differs))) in
  (match r with inr (state, _) => Some state | inl _ => None end, map fst (calls s)).

End TestCase.

(** ** TestCase.py: class RedirectOutput *)

Module Redirect.

(** [threading.current_thread().ident] *)
Definition ThreadId : Type := Z.

Inductive Stream := Stdout | Stderr.

#[global] Instance Stream_eq_dec : EqDecision Stream.
Proof. solve_decision. Defined.

Inductive Exn := AttributeError (attr : string).

(** A [RedirectOutput] object after [__init__]: two
    [collections.defaultdict(io.StringIO)] keyed by thread ident, and the
    two original streams, each with the text written to it so far. *)
Record RedirectOutput := mkRedirect {
  _stdout : gmap ThreadId string;
  _stderr : gmap ThreadId string;
  _sys_stdout : string;
  _sys_stderr : string
}.

Definition init : RedirectOutput := mkRedirect ∅ ∅ "" "".

(** Attribute lookup on the object, for the buffers: the attributes that
    [__init__] assigns, by name. *)
Definition getattr (self : RedirectOutput) (attr : string)
  : Exn + gmap ThreadId string :=
  if String.eqb attr "_stdout" then inr (_stdout self)
  else if String.eqb attr "_stderr" then inr (_stderr self)
  else inl (AttributeError attr).

(** [d[key]] on a defaultdict of StringIO: the buffer, empty when new. *)
Definition getvalue (d : gmap ThreadId string) (t : ThreadId) : string :=
  default "" (d !! t).

(** [d[key].write(message)] *)
Definition buffer_write (d : gmap ThreadId string) (t : ThreadId)
    (message : string) : gmap ThreadId string :=
  <[t := getvalue d t +:+ message]> d.

Section Scope.
(** [threading.main_thread().ident] *)
Variable main : ThreadId.

Definition is_main (t : ThreadId) : bool := bool_decide (main = t).

(** [SysRedirect.write], for the object installed as [sys.stdout] or
    [sys.stderr] by [__enter__], called on thread [t]. *)
Definition write (t : ThreadId) (stream : Stream) (message : string)
    (self : RedirectOutput) : RedirectOutput :=
  match stream with
  | Stdout =>
      if is_main t
      then mkRedirect (_stdout self) (_stderr self)
             (_sys_stdout self +:+ message) (_sys_stderr self)
      else mkRedirect (buffer_write (_stdout self) t message) (_stderr self)
             (_sys_stdout self) (_sys_stderr self)
  | Stderr =>
      if is_main t
      then mkRedirect (_stdout self) (_stderr self)
             (_sys_stdout self) (_sys_stderr self +:+ message)
      else mkRedirect (_stdout self) (buffer_write (_stderr self) t message)
             (_sys_stdout self) (_sys_stderr self)
  end.

(** The writes made while the scope is active, in the order in which
    they reach the streams. *)
Definition Event : Type := ThreadId * Stream * string.

Definition run (events : list Event) (self : RedirectOutput) : RedirectOutput :=
  foldl (fun st '(t, stream, message) => write t stream message st) self events.

(** What thread [t] wrote to [stream], concatenated. *)
Definition written (t : ThreadId) (stream : Stream) (events : list Event) : string :=
  foldr (fun '(t', stream', message) acc =>
           if bool_decide (t' = t) && bool_decide (stream' = stream)
           then message +:+ acc else acc) "" events.
End Scope.

(** The [stdout] property, read on thread [t]:
    [self._stdout[ident].getvalue()]. *)
Definition stdout (self : RedirectOutput) (t : ThreadId) : Exn + string :=
  match getattr self "_stdout" with
  | inl e => inl e
  | inr d => inr (getvalue d t)
  end.

(** The [stderr] property, read on thread [t]:
    [self._stdrr[ident].getvalue()]. *)
Definition stderr (self : RedirectOutput) (t : ThreadId) : Exn + string :=
  match getattr self "_stdrr" with
  | inl e => inl e
  | inr d => inr (getvalue d t)
  end.

End Redirect.

(** ** TestCase.py: the results dictionary, [setResult], [report] and the lines printed *)

Module TestCaseReport.
Import TestCase.

(** [class Progress(State)]: the value and the display text. *)
Definition progress_value (p : Progress) : Z :=
  match p with
  | WAITING => 1 | RUNNING => 2 | FINISHED => 3 | CLOSED => 4
  end.

Definition progress_display (p : Progress) : string :=
  match p with
  | WAITING => "WAITING" | RUNNING => "RUNNING"
  | FINISHED => "FINISHED" | CLOSED => "CLOSED"
  end.

(** ['{:<9}'.format(s)]: [s] padded with spaces on the right to nine
    characters. *)
Definition ljust9 (s : string) : string :=
  s +:+ string_of_list_ascii (repeat " "%char (9 - String.length s)).

(** The line that [_printState] builds, before [mooseutils.color_text]
    colours the name and the state: [tinfo] is the time shown, or empty.
    The number of dots is computed from the texts without colour, and a
    negative number gives no dot. *)
Definition state_line_width (name state tinfo : string) : Z :=
  100 - Z.of_nat (String.length name) - Z.of_nat (String.length state)
      - Z.of_nat (String.length tinfo).

Definition state_line (name display tinfo : string) : string :=
  let state := ljust9 display in
  let width := state_line_width name state tinfo in
  let dots := string_of_list_ascii (repeat "."%char (Z.to_nat width)) in
  name +:+ dots +:+ tinfo +:+ state.

Section Results.
Context {Obj : Type}.
Variable name : Obj -> string.
(** What a stage call returns, [(state, out, returncode)], by object and
    arguments. *)
Variable stage : Obj -> StageArgs -> Result * string * option Z.

(** A stage call with what it stores in the results dictionary. *)
Definition outcome (c : Obj * StageArgs) : string * (Result * string) :=
  (name c.1, (stage c.1 c.2).1).

(** The outcome of the last of the calls [cs] made on an object named
    [n]. *)
Definition last_outcome (n : string) (cs : list (Obj * StageArgs))
  : option (Result * string) :=
  snd <$> List.find (fun e => String.eqb e.1 n) (rev (map outcome cs)).
End Results.

Section Report.
Context {Obj : Type}.
Variable name : Obj -> string.

(** The time of [time.time()], and the test
    [(current - self.__running_report_time) > self.__running_report_interval]
    as a function of [current] and the time of the last report. *)
Context {Time : Type}.
Variable overdue : Time -> Time -> bool.

(** [self._runner] and [self._differs] *)
Variable runner : Obj.
Variable differs : list Obj.

(** What is printed: a line of [_printState] for an object, with the
    display text of the state and whether the time is shown, and the output
    of an object, printed under its name. *)
Inductive Line :=
| StateLine (obj : string) (display : string) (show_time : bool)
| Output (obj : string) (text : string).

Inductive Exn := TypeError (what : string).

Record Self := mkSelf {
  progress : Progress;
  results : option (Result * gmap string (Result * string));
  running_report_time : option Time;
  start_time : option Time;
  printed : list Line
}.

Definition print (l : Line) (self : Self) : Self :=
  mkSelf (progress self) (results self) (running_report_time self) (start_time self)
         (printed self ++ [l]).

Definition setProgress (p : Progress) (self : Self) : Self :=
  mkSelf p (results self) (running_report_time self) (start_time self) (printed self).


(** [_printState(obj, state, show_time)]: with [show_time] the start time
    is subtracted from the current time. *)
Definition _printState (obj : string) (display : string) (show_time : bool)
    (self : Self) : Self * option Exn :=
  if show_time && negb (bool_decide (is_Some (start_time self)))
  then (self, Some (TypeError "unsupported operand type(s) for -: 'float' and 'NoneType'"))
  else (print (StateLine obj display show_time) self, None).

(** The loop of [_printResult] over the Differs that the results have. *)
Fixpoint print_differs (ds : list Obj) (out : gmap string (Result * string))
    (self : Self) : Self :=
  match ds with
  | [] => self
  | obj :: rest =>
      match out !! name obj with
      | None => print_differs rest out self
      | Some (d_state, d_out) =>
          let self := (_printState (name obj) (display d_state) false self).1 in
          let self := if negb (String.eqb d_out "")
                      then print (Output (name obj) d_out) self else self in
          print_differs rest out self
      end
  end.

(** [_printResult] *)
Definition _printResult (self : Self) : Self * option Exn :=
  let self := setProgress CLOSED self in
  match results self with
  | None => (self, Some (TypeError "cannot unpack non-iterable NoneType object"))
  | Some (state, out) =>
      match _printState (name runner) (display state) true self with
      | (self, Some e) => (self, Some e)
      | (self, None) =>
          match out !! name runner with
          | None => (self, Some (TypeError "cannot unpack non-iterable NoneType object"))
          | Some (r_state, r_out) =>
              let self := print (Output (name runner) r_out) self in
              (print_differs differs out self, None)
          end
      end
  end.

(** [_printProgress], with the current time. *)
Definition _printProgress (current : Time) (self : Self) : Self * option Exn :=
  match progress self with
  | RUNNING =>
      let self :=
        match running_report_time self with
        | None => mkSelf (progress self) (results self) (start_time self)
                    (start_time self) (printed self)
        | Some _ => self
        end in
      match running_report_time self with
      | None => (self, Some (TypeError "unsupported operand type(s) for -: 'float' and 'NoneType'"))
      | Some last =>
          if overdue current last
          then
            match _printState (name runner) (progress_display (progress self)) true self with
            | (self, Some e) => (self, Some e)
            | (self, None) =>
                (mkSelf (progress self) (results self) (Some current) (start_time self)
                        (printed self), None)
            end
          else (self, None)
      end
  | _ => (self, None)
  end.

(** [report], with the current time. *)
Definition report (current : Time) (self : Self) : Self * option Exn :=
  match progress self with
  | FINISHED => _printResult self
  | CLOSED => (self, None)
  | _ => _printProgress current self
  end.

(** The lines of the Differs that the results have, in declared order. *)
Definition differ_lines (out : gmap string (Result * string)) : list Line :=
  flat_map (fun obj =>
              match out !! name obj with
              | None => []
              | Some (d_state, d_out) =>
                  StateLine (name obj) (display d_state) false ::
                  (if String.eqb d_out "" then [] else [Output (name obj) d_out])
              end) differs.
End Report.

End TestCaseReport.

(** ** TestCase.py: RedirectOutput scopes and the process streams *)

Module RedirectScope.
Import Redirect.

(** A stream object: one of the two streams of the process, or the
    [SysRedirect(sysout, out)] that [__enter__] of the scope numbered [scope]
    builds, where [out] is that scope's [_stdout] or [_stderr]
    dictionary. *)
Inductive Writer :=
| Real (which : Stream)
| SysRedirect (sysout : Writer) (scope : nat) (which : Stream).

#[global] Instance Writer_eq_dec : EqDecision Writer.
Proof. solve_decision. Defined.

(** A [RedirectOutput] object: its two dictionaries and the streams that
    [__init__] saved. *)
Record Scope := mkScope {
  buffers_stdout : gmap ThreadId string;
  buffers_stderr : gmap ThreadId string;
  saved_stdout : Writer;
  saved_stderr : Writer
}.

(** The process: [sys.stdout], [sys.stderr], the stream of the first
    handler of the root logger ([None] when the logger has no handler), the
    RedirectOutput objects made so far, and the text that reached the two
    real streams. *)
Record Process := mkProcess {
  sys_stdout : Writer;
  sys_stderr : Writer;
  handler_stream : option Writer;
  scopes : list Scope;
  real_stdout : string;
  real_stderr : string
}.

Definition start : Process :=
  mkProcess (Real Stdout) (Real Stderr) (Some (Real Stderr)) [] "" "".

Inductive Exn := IndexError.

Definition write_buffer (which : Stream) (t : ThreadId) (message : string)
    (s : Scope) : Scope :=
  match which with
  | Stdout => mkScope (buffer_write (buffers_stdout s) t message) (buffers_stderr s)
                (saved_stdout s) (saved_stderr s)
  | Stderr => mkScope (buffers_stdout s) (buffer_write (buffers_stderr s) t message)
                (saved_stdout s) (saved_stderr s)
  end.

Section Threads.
(** [threading.main_thread().ident] *)
Variable main : ThreadId.

(** [w.write(message)] on thread [t]. *)
Fixpoint write (w : Writer) (t : ThreadId) (message : string) (p : Process) : Process :=
  match w with
  | Real Stdout =>
      mkProcess (sys_stdout p) (sys_stderr p) (handler_stream p) (scopes p)
        (real_stdout p +:+ message) (real_stderr p)
  | Real Stderr =>
      mkProcess (sys_stdout p) (sys_stderr p) (handler_stream p) (scopes p)
        (real_stdout p) (real_stderr p +:+ message)
  | SysRedirect sysout scope which =>
      if is_main main t then write sysout t message p
      else mkProcess (sys_stdout p) (sys_stderr p) (handler_stream p)
             (alter (write_buffer which t message) scope (scopes p))
             (real_stdout p) (real_stderr p)
  end.

(** What a thread does between the scope operations: write to
    [sys.stdout] or [sys.stderr], or log a record, which the handler writes
    to its stream. *)
Inductive Action :=
| Print (t : ThreadId) (which : Stream) (message : string)
| Log (t : ThreadId) (message : string).

Definition act (a : Action) (p : Process) : Process :=
  match a with
  | Print t Stdout message => write (sys_stdout p) t message p
  | Print t Stderr message => write (sys_stderr p) t message p
  | Log t message =>
      match handler_stream p with
      | Some w => write w t message p
      | None => p
      end
  end.

Definition acts (l : list Action) (p : Process) : Process :=
  foldl (fun p a => act a p) p l.
End Threads.

(** [RedirectOutput()]: the number of the new object and the process. *)
Definition create (p : Process) : nat * Process :=
  (length (scopes p),
   mkProcess (sys_stdout p) (sys_stderr p) (handler_stream p)
     (scopes p ++ [mkScope ∅ ∅ (sys_stdout p) (sys_stderr p)])
     (real_stdout p) (real_stderr p)).

(** [__enter__]: the process afterwards, and the exception if one is
    raised.  The two streams are replaced before the handler is looked
    up. *)
Definition enter (scope : nat) (p : Process) : Process * option Exn :=
  match scopes p !! scope with
  | None => (p, None)
  | Some s =>
      let out := SysRedirect (saved_stdout s) scope Stdout in
      let err := SysRedirect (saved_stderr s) scope Stderr in
      match handler_stream p with
      | None =>
          (mkProcess out err None (scopes p) (real_stdout p) (real_stderr p),
           Some IndexError)
      | Some _ =>
          (mkProcess out err (Some out) (scopes p) (real_stdout p) (real_stderr p), None)
      end
  end.

(** [__exit__] *)
Definition exit (scope : nat) (p : Process) : Process * option Exn :=
  match scopes p !! scope with
  | None => (p, None)
  | Some s =>
      match handler_stream p with
      | None =>
          (mkProcess (saved_stdout s) (saved_stderr s) None (scopes p)
             (real_stdout p) (real_stderr p),
           Some IndexError)
      | Some _ =>
          (mkProcess (saved_stdout s) (saved_stderr s) (Some (saved_stderr s)) (scopes p)
             (real_stdout p) (real_stderr p), None)
      end
  end.

(** The [stdout] property of the object numbered [scope], read on thread
    [t]. *)
Definition captured (scope : nat) (t : ThreadId) (p : Process) : string :=
  match scopes p !! scope with
  | Some s => getvalue (buffers_stdout s) t
  | None => ""
  end.

(** What thread [t] sends towards standard output in [body]: what it
    prints there and what it logs. *)
Definition sent_to_stdout (t : ThreadId) (body : list Action) : string :=
  foldr (fun a acc =>
           match a with
           | Print t' Stdout message =>
               if bool_decide (t' = t) then message +:+ acc else acc
           | Print _ Stderr _ => acc
           | Log t' message =>
               if bool_decide (t' = t) then message +:+ acc else acc
           end) "" body.

(** [with RedirectOutput() as out: body], where nothing raises. *)
Definition with_scope (main : ThreadId) (body : list Action) (p : Process)
  : nat * Process :=
  let '(scope, p) := create p in
  let p := (enter scope p).1 in
  let p := acts main body p in
  (scope, (exit scope p).1).

(** Two scopes that are not nested, as when the stages of two workers
    overlap: [a] is made and entered, then [b]; then [a] is left, then [b];
    [l1], [l2] and [l3] are what the threads write in between. *)
Definition overlap (main : ThreadId) (l1 l2 l3 : list Action) (p : Process)
  : nat * nat * Process :=
  let '(a, p) := create p in
  let p := acts main l1 (enter a p).1 in
  let '(b, p) := create p in
  let p := acts main l2 (enter b p).1 in
  let p := acts main l3 (exit a p).1 in
  (a, b, (exit b p).1).

End RedirectScope.

(** ** Runner.py: the expected-file checks around [execute] *)

Module Runner.
Import PyStr.

Inductive Exn := TypeError (what : string).

(** *** The file system and version control, as the checks observe them *)

(** The regular files, by absolute path, and the working directory.
    A directory holds the entries that the paths of the files give it. *)
Record FS := mkFS {
  fs_files : gset string;
  fs_cwd : string
}.

Definition abspath (fs : FS) (p : string) : string := path_join (fs_cwd fs) p.

(** [os.path.isfile] *)
Definition isfile (fs : FS) (p : string) : bool :=
  bool_decide (abspath fs p ∈ fs_files fs).

(** [os.remove] *)
Definition remove (fs : FS) (p : string) : FS :=
  mkFS (fs_files fs ∖ {[abspath fs p]}) (fs_cwd fs).

Definition dir_prefix (d : string) : string :=
  if endswith_slash d then d else d +:+ "/".

(** [os.listdir(d)]: the names of the entries of [d]. *)
Definition listdir (fs : FS) (d : string) : list string :=
  elements (list_to_set (C := gset string)
    (omap (fun p => first_component <$> strip_prefix (dir_prefix (abspath fs d)) p)
          (elements (fs_files fs)))).

(** [os.listdir()]: the entries of the working directory. *)
Definition listdir_cwd (fs : FS) : list string := listdir fs (fs_cwd fs).

(** [mooseutils.git_root_dir()] and [mooseutils.git_ls_files(dir)]. *)
Record Git := mkGit {
  git_root_dir : option string;
  git_ls_files : string -> list string
}.

(** *** Parameters *)

(** The 'file' sub-parameters; [None] is an unset parameter. *)
Record FileParams := mkFile {
  base : option string;
  names : option (list string);
  check_created : option bool;
  clean : bool
}.

Record Differ := mkDiffer {
  differ_name : string;
  differ_file : FileParams
}.

Record Runner := mkRunner {
  name : string;
  differs : option (list Differ);
  file : FileParams
}.

(** A Python [set] or [list] of file names. *)
Inductive Names :=
| PySet (s : gset string)
| PyList (l : list string).

(** Iteration; a set is iterated in the order of [elements]. *)
Definition iter (c : Names) : list string :=
  match c with
  | PySet s => elements s
  | PyList l => l
  end.

(** [set(c)] *)
Definition to_set (c : Names) : gset string :=
  match c with
  | PySet s => s
  | PyList l => list_to_set l
  end.

(** [Runner.filenames(obj)] *)
Definition filenames (f : FileParams) : Names :=
  let filenames : gset string := list_to_set (default [] (names f)) in
  match base f with
  | Some base_dir =>
      PyList (map (fun fname => if isabs fname then fname
                                else path_join base_dir fname)
                  (elements filenames))
  | None => PySet filenames
  end.

(** [expected += more]: a list is extended by any iterable; a set has no
    in-place addition. *)
Definition iadd (expected more : Names) : Exn + Names :=
  match expected with
  | PyList l => inr (PyList (l ++ iter more))
  | PySet _ =>
      inl (TypeError
        (match more with
         | PySet _ => "unsupported operand type(s) for +=: 'set' and 'set'"
         | PyList _ => "unsupported operand type(s) for +=: 'set' and 'list'"
         end))
  end.

(** [Runner._getExpectedFiles] *)
Definition _getExpectedFiles (r : Runner) : Exn + Names :=
  foldl (fun acc differ =>
           match acc with
           | inl e => inl e
           | inr expected => iadd expected (filenames (differ_file differ))
           end)
        (inr (filenames (file r)))
        (default [] (differs r)).

(** *** Log records *)

Inductive Level := INFO | ERROR.

Inductive Message :=
| NotAbsolute (files : list string)
| GitTracked (files : list string)
| Removing (fname : string)
| AlreadyExist (files : list string)
| CheckCreatedNeedsBase
| NotCreated (files : list string)
| CreatedNotExpected (files : list string).

Definition level (m : Message) : Level :=
  match m with
  | Removing _ => INFO
  | _ => ERROR
  end.

Definition is_error (m : Message) : bool :=
  match level m with ERROR => true | INFO => false end.

(** *** The object state and the two checks *)

Record Self := mkSelf {
  expected_files : option Names;        (* [self.__expected_files] *)
  pre_execute_files : option (gset string);  (* [self.__pre_execute_files] *)
  log : list Message
}.

Definition init : Self := mkSelf None None [].

Definition emit (m : Message) (self : Self) : Self :=
  mkSelf (expected_files self) (pre_execute_files self) (log self ++ [m]).

(** The loop that removes the expected files that exist. *)
Fixpoint clean_files (files : list string) (self : Self) (fs : FS) : Self * FS :=
  match files with
  | [] => (self, fs)
  | fname :: rest =>
      if isfile fs fname
      then clean_files rest (emit (Removing fname) self) (remove fs fname)
      else clean_files rest self fs
  end.

(** A string or an optional string taken as a condition. *)
Definition truthy (o : option string) : option string :=
  match o with
  | Some "" => None
  | _ => o
  end.

Section Checks.
Variable git : Git.
Variable r : Runner.

(** The part of [_preExecuteExpectedFiles] after the expected files are
    known. *)
Definition preExecute_checks (expected : Names) (self : Self) (fs : FS)
  : Exn + Self * FS :=
  let self := mkSelf (Some expected) (pre_execute_files self) (log self) in
  let non_abs := filter (fun fname => negb (isabs fname)) (iter expected) in
  if negb (bool_decide (non_abs = [])) then inr (emit (NotAbsolute non_abs) self, fs)
  else
    let intersect : gset string :=
      match truthy (git_root_dir git) with
      | Some root_dir =>
          let dir := default root_dir (truthy (base (file r))) in
          list_to_set (git_ls_files git dir) ∩ to_set expected
      | None => ∅
      end in
    if negb (bool_decide (intersect = ∅))
    then inr (emit (GitTracked (elements intersect)) self, fs)
    else
      let '(self, fs) :=
        if clean (file r) then clean_files (iter expected) self fs
        else (self, fs) in
      let exist := filter (fun fname => isfile fs fname) (iter expected) in
      if negb (bool_decide (exist = [])) then inr (emit (AlreadyExist exist) self, fs)
      else
        let check_created_files := check_created (file r) in
        let base_valid := bool_decide (is_Some (base (file r))) in
        if bool_decide (check_created_files = Some true) && negb base_valid
        then inr (emit CheckCreatedNeedsBase self, fs)
        else if bool_decide (check_created_files = Some true)
                || (bool_decide (check_created_files = None) && base_valid)
        then
          match base (file r) with
          | Some base_dir =>
              inr (mkSelf (expected_files self)
                     (Some (list_to_set (map (path_join base_dir) (listdir_cwd fs))))
                     (log self), fs)
          | None => inl (TypeError "expected str, bytes or os.PathLike object, not NoneType")
          end
        else inr (self, fs).

(** [Runner._preExecuteExpectedFiles] *)
Definition _preExecuteExpectedFiles (self : Self) (fs : FS) : Exn + Self * FS :=
  match _getExpectedFiles r with
  | inl e => inl e
  | inr expected => preExecute_checks expected self fs
  end.

(** [Runner.preExecute] *)
Definition preExecute (self : Self) (fs : FS) : Exn + Self * FS :=
  _preExecuteExpectedFiles self fs.

(** [Runner._postExecuteExpectedFiles] *)
Definition _postExecuteExpectedFiles (self : Self) (fs : FS) : Exn + Self :=
  match expected_files self with
  | None => inl (TypeError "'NoneType' object is not iterable")
  | Some expected =>
      let do_not_exist := filter (fun fname => negb (isfile fs fname)) (iter expected) in
      let self :=
        if negb (bool_decide (do_not_exist = []))
        then emit (NotCreated do_not_exist) self else self in
      match pre_execute_files self with
      | None => inr self
      | Some pre =>
          let post_execute_files : gset string :=
            list_to_set (match base (file r) with
                         | Some base_dir => listdir fs base_dir
                         | None => listdir_cwd fs
                         end) in
          let diff := post_execute_files ∖ pre in
          if negb (bool_decide (diff = ∅))
             && negb (bool_decide (to_set expected = diff))
          then inr (emit (CreatedNotExpected (elements (diff ∖ to_set expected))) self)
          else inr self
      end
  end.

(** [Runner.postExecute] *)
Definition postExecute (self : Self) (fs : FS) : Exn + Self :=
  _postExecuteExpectedFiles self fs.
End Checks.

Definition errors (self : Self) : list Message := filter (fun m => is_error m) (log self).

(** What the documentation promises [postExecute] reports with
    'check_created': the entries of 'base' after execution that are not in
    the listing of 'base' taken before it and are not expected. *)
Definition spec_created_unexpected (base_dir : string) (before after : FS)
    (expected : Names) : gset string :=
  (list_to_set (map (path_join base_dir) (listdir after base_dir))
     ∖ list_to_set (map (path_join base_dir) (listdir before base_dir)))
  ∖ to_set expected.

(** *** Concrete Runners *)

(** The Runner of [test_getExpectedFiles]: two Differs, no 'base'. *)
Definition d0 : Differ := mkDiffer "a" (mkFile None (Some ["/differ_a"]) None true).
Definition d1 : Differ := mkDiffer "b" (mkFile None (Some ["differ_b"]) None true).
Definition runner_with_differs : Runner :=
  mkRunner "run" (Some [d0; d1]) (mkFile None (Some ["/runner_0"; "runner_1"]) None true).

(** A Runner with 'base' set and nothing expected. *)
Definition runner_with_base : Runner :=
  mkRunner "run" None (mkFile (Some "/base") None None true).

Definition fs0 : FS := mkFS {[ "/base/old.txt"; "/work/w.txt" ]} "/work".
Definition no_git : Git := mkGit None (fun _ => []).

End Runner.

(** ** Parser.py: the HIT tree, the duplicate check, block parsing *)

Module Parser.
Import PyStr.

(** The value of a HIT parameter as pyhit hands it over. *)
Inductive Value :=
| Str (s : string)
| Int (z : Z)
| Bool (b : bool).

#[global] Instance Value_eq_dec : EqDecision Value.
Proof. solve_decision. Defined.

(** [str(value)] *)
Definition str (v : Value) : string :=
  match v with
  | Str s => s
  | Int z => pretty z
  | Bool true => "True"
  | Bool false => "False"
  end.

(** A block of the tree: [node.name], [node.fullpath], [node.params()] in
    file order, [node.line(...)] by parameter ([None]: the block itself)
    and the child blocks. *)
#[warnings="-register-all"]
Inductive Node :=
  mkNode (name fullpath : string) (params : list (string * Value))
         (line : option string -> Z) (children : list Node).

Definition name (n : Node) : string := let 'mkNode x _ _ _ _ := n in x.
Definition fullpath (n : Node) : string := let 'mkNode _ x _ _ _ := n in x.
Definition params (n : Node) : list (string * Value) := let 'mkNode _ _ x _ _ := n in x.
Definition line (n : Node) : option string -> Z := let 'mkNode _ _ _ x _ := n in x.
Definition children (n : Node) : list Node := let 'mkNode _ _ _ _ x := n in x.

(** Modelled from the spec: the pyhit loader, which is not part of these
    sources, gives every block the full path formed by joining ancestor
    names with a slash. [block] builds a block under the path [parent]. *)
Fixpoint place (parent : string) (n : Node) : Node :=
  let 'mkNode nm _ ps ln ch := n in
  let path := if String.eqb parent "" then nm else parent +:+ "/" +:+ nm in
  mkNode nm path ps ln (map (place path) ch).

Definition block (nm : string) (ps : list (string * Value)) (ch : list Node) : Node :=
  mkNode nm nm ps (fun _ => (-1)%Z) ch.

(** Modelled from the spec: [moosetree.iterate(root, method=PRE_ORDER)],
    which is not part of these sources, visits the blocks under [root] in
    pre-order. *)
Fixpoint preorder (n : Node) : list Node :=
  n :: (fix go (l : list Node) : list Node :=
          match l with
          | [] => []
          | c :: l' => preorder c ++ go l'
          end) (children n).

Definition iterate (root : Node) : list Node := flat_map preorder (children root).

(** [moosetree.findall(root, func, method=PRE_ORDER)] *)
Definition findall (root : Node) (func : Node -> bool) : list Node :=
  List.filter func (iterate root).

(** [node.get(key, None)] *)
Definition get (n : Node) (key : string) : option Value :=
  snd <$> List.find (fun kv => String.eqb (fst kv) key) (params n).

(** *** [Parser.checkDuplicates] *)

(** What the generator yields: [(message, node)] for a block and
    [(message, node, key)] for a parameter; the message is
    'duplicate section "path"' or 'duplicate parameter "path"'. *)
Inductive Duplicate :=
| DuplicateSection (path : string) (node : Node)
| DuplicateParameter (path : string) (node : Node) (key : string).

Definition dup_path (d : Duplicate) : string :=
  match d with
  | DuplicateSection p _ => p
  | DuplicateParameter p _ _ => p
  end.

Definition message (d : Duplicate) : string :=
  match d with
  | DuplicateSection p _ => "duplicate section " +:+ quoted p
  | DuplicateParameter p _ _ => "duplicate parameter " +:+ quoted p
  end.

(** [for key, _ in node.params(): ...] *)
Fixpoint check_params (node : Node) (ps : list (string * Value))
    (paths : gset string) : list Duplicate * gset string :=
  match ps with
  | [] => ([], paths)
  | (key, _) :: rest =>
      let fullparam := path_join (fullpath node) key in
      if bool_decide (fullparam ∈ paths)
      then let '(ys, paths') := check_params node rest paths in
           (DuplicateParameter fullparam node key :: ys, paths')
      else check_params node rest (paths ∪ {[fullparam]})
  end.

(** [for node in moosetree.iterate(root, ...): ...] *)
Fixpoint check_nodes (nodes : list Node) (paths : gset string)
  : list Duplicate * gset string :=
  match nodes with
  | [] => ([], paths)
  | node :: rest =>
      let '(y1, paths1) :=
        if bool_decide (fullpath node ∈ paths)
        then ([DuplicateSection (fullpath node) node], paths)
        else ([], paths ∪ {[fullpath node]}) in
      let '(y2, paths2) := check_params node (params node) paths1 in
      let '(y3, paths3) := check_nodes rest paths2 in
      (y1 ++ y2 ++ y3, paths3)
  end.

Definition checkDuplicates (root : Node) : list Duplicate :=
  (check_nodes (iterate root) ∅).1.

(** The full paths the check records, in the order it meets them: each
    block's, then those of its parameters. *)
Definition node_paths (node : Node) : list string :=
  fullpath node :: map (fun kv => path_join (fullpath node) (fst kv)) (params node).

Definition recorded_paths (root : Node) : list string :=
  flat_map node_paths (iterate root).

Definition block_paths (root : Node) : list string := map fullpath (iterate root).

Definition parameter_paths (root : Node) : list string :=
  flat_map (fun node => map (fun kv => path_join (fullpath node) (fst kv)) (params node))
           (iterate root).

(** How often [p] occurs in [l]. *)
Definition occurrences (p : string) (l : list string) : nat :=
  length (List.filter (fun q => String.eqb q p) l).

(** *** [Parser.parse] and [Parser._parseNode] *)

(** What [parse] and [_parseNode] log with [self.error] or
    [self.exception], by format string, with the format arguments. *)
Inductive Diagnostic :=
| FailedToLoad (filename : string)
    (* "Failed to load filename with pyhit: {}" *)
| MissingType (filename : string) (line : Z) (fullpath : string)
    (* "{}:{}\nMissing 'type' in block '{}'" *)
| FailedToExtract (filename : string) (line : Z) (otype : Value) (fullpath : string)
    (* "{}:{}\nFailed to extract parameters from '{}' object in block '{}'" *)
| DoesNotExist (filename : string) (line : Z) (key : string) (otype : Value)
    (* "{}:{}\nThe parameter '{}' does not exist in '{}' object parameters." *)
| FailedToCreate (filename : string) (line : Z) (otype : Value) (fullpath : string).
    (* "{}:{}\nFailed to create object of type '{}' in block '{}'" *)

(** The parameter set that the factory hands out for a type, by the
    operations [_parseNode] uses: [key in params], [params.setValue] and
    [params.set]. *)
Class ParamSet (P : Type) := {
  contains : P -> string -> bool;
  setValue : P -> string -> Value -> P;
  set : P -> string -> Value -> P
}.

Section Parse.
Context {P Obj : Type} `{ParamSet P}.

(** [factory.params(otype)] and [factory.create(otype, params)]; [None]
    is Python's [None]. *)
Variable factory_params : Value -> option P.
Variable factory_create : Value -> P -> option Obj.

(** The 'filename' parameter. *)
Variable filename : string.

(** The parser: the errors logged so far and the warehouse. *)
Record Self := mkSelf {
  errors : list Diagnostic;
  warehouse : list Obj
}.

Definition error (d : Diagnostic) (self : Self) : Self :=
  mkSelf (errors self ++ [d]) (warehouse self).

(** [for key, value in node.params(): ...] of [_parseNode]. *)
Fixpoint set_params (node : Node) (otype : Value) (ps : list (string * Value))
    (params : P) (self : Self) : P * Self :=
  match ps with
  | [] => (params, self)
  | (key, value) :: rest =>
      if String.eqb key "type" then set_params node otype rest params self
      else
        let self :=
          if negb (contains params key)
          then error (DoesNotExist filename (line node (Some key)) key otype) self
          else self in
        set_params node otype rest (set params key value) self
  end.

Definition _parseNode (node : Node) (self : Self) : Self :=
  let node_params := params node in
  match get node "type" with
  | None => error (MissingType filename (line node None) (fullpath node)) self
  | Some otype =>
      match factory_params otype with
      | None =>
          error (FailedToExtract filename (line node None) otype (fullpath node)) self
      | Some params =>
          let params := setValue params "name" (Str (name node)) in
          let '(params, self) := set_params node otype node_params params self in
          match factory_create otype params with
          | None =>
              error (FailedToCreate filename (line node None) otype (fullpath node)) self
          | Some obj => mkSelf (errors self) (warehouse self ++ [obj])
          end
      end
  end.

(** [parse], given what [pyhit.load(filename)] does: [None] when it raises,
    the root of the tree otherwise.  The first top-level block, [root(0)],
    becomes the root of the search for blocks without children.  What
    [root(0)] does on a tree without blocks is not in these sources; as in
    the spec, such a file appends nothing and logs nothing.  The line
    [print(obj)] is left out. *)
Definition parse (loaded : option Node) (self : Self) : Self :=
  match loaded with
  | None => error (FailedToLoad filename) self
  | Some root =>
      match children root with
      | [] => self
      | root0 :: _ =>
          foldl (fun st node => _parseNode node st) self
                (findall root0 (fun n => (length (children n) =? 0)%nat))
      end
  end.
End Parse.

Arguments mkSelf {Obj}.

(** A parameter set that keeps the calls made on it: the names the
    template has, and the [(key, value)] pairs passed to [setValue] and
    [set], in order. *)
Record Recording := mkRecording {
  template_names : list string;
  calls : list (string * Value)
}.

#[global] Instance Recording_ParamSet : ParamSet Recording := {|
  contains p key := bool_decide (key ∈ template_names p);
  setValue p key v := mkRecording (template_names p) (calls p ++ [(key, v)]);
  set p key v := mkRecording (template_names p) (calls p ++ [(key, v)])
|}.

(** A factory with one registered type, [T], whose parameters are 'name'
    and 'x', and which constructs the parameter set it is given. *)
Definition factory_T_params (otype : Value) : option Recording :=
  if bool_decide (otype = Str "T") then Some (mkRecording ["name"; "x"] []) else None.

Definition factory_T_create (otype : Value) (params : Recording) : option Recording :=
  Some params.

(** [[Tests] [a] type = T  x = 1  x = 2 [] []] *)
Definition duplicate_parameter_file : Node :=
  place "" (block "" [] [
    block "Tests" [] [
      block "a" [("type", Str "T"); ("x", Int 1); ("x", Int 2)] [] ] ]).

(** [[Tests] [a] x = 1 [x] [] [] []]: a block and a parameter that share
    the full path Tests/a/x. *)
Definition block_named_as_parameter_file : Node :=
  place "" (block "" [] [
    block "Tests" [] [
      block "a" [("x", Int 1)] [ block "x" [] [] ] ] ]).

(** [[Tests] [a] type = T  bogus = 1 [] []] *)
Definition unknown_parameter_file : Node :=
  place "" (block "" [] [
    block "Tests" [] [
      block "a" [("type", Str "T"); ("bogus", Int 1)] [] ] ]).

(** *** [Parser.extractParams] *)

Inductive Exn :=
| AttributeError (attr : string)
| NameError (name : string)
| TypeError (what : string).

Inductive PyType := TStr | TInt | TBool.

#[global] Instance PyType_eq_dec : EqDecision PyType.
Proof. solve_decision. Defined.

(** [type(value)] *)
Definition type_of (v : Value) : PyType :=
  match v with
  | Str _ => TStr
  | Int _ => TInt
  | Bool _ => TBool
  end.

(** An entry of [params.strict_types]: [time.struct_time] or another type. *)
Inductive StrictType :=
| StructTime
| TypeIs (t : PyType).

Section ExtractParams.
(** [time.struct_time] and [time.strptime(value, "%m/%d/%Y")], which is
    [None] when it raises ValueError. *)
Context {Time : Type}.
Variable strptime : string -> option Time.

(** What [params[key] = ...] stores. *)
Inductive Assigned :=
| Scalar (v : Value)
| List (l : list string)
| Date (t : Time).

(** The parameters object of [extractParams], by the operations used:
    [key in params], [params.type(key) == list], [params.strict_types],
    [params[key] = v] and [params.required_keys()]. *)
Class TesterParams (P : Type) := {
  has : P -> string -> bool;
  type_is_list : P -> string -> bool;
  strict_types : P -> string -> option StrictType;
  setitem : P -> string -> Assigned -> P;
  required_keys : P -> gset string
}.

Context {P : Type} `{TesterParams P}.

Inductive Report :=
| UnusedParameter (key : string) (node : Node)
    (* 'unused parameter "{}"' *)
| RequiredMissing (keys : list string).
    (* 'required missing parameter(s): ' + ', '.join(...) *)

(** The parser as [extractParams] uses it: the attribute
    [self.params_parsed], which [__init__] does not assign ([None] while it
    is missing), and the errors logged. *)
Record Legacy := mkLegacy {
  params_parsed : option (gset string);
  reports : list Report
}.

Definition report (r : Report) (self : Legacy) : Legacy :=
  mkLegacy (params_parsed self) (reports self ++ [r]).

(** [isinstance(value, str) and re.match('".*"', value)], with the text. *)
Definition quoted_text (value : Value) : option string :=
  match value with
  | Str v => if re_match_quoted v then Some v else None
  | _ => None
  end.

(** The loop state: the parameters, the parser, [have_err] and
    [local_parsed]. *)
Definition Extracting : Type := P * Legacy * bool * gset string.

(** The body of [for key, value in getpot_node.params(): ...] after the two
    sets have recorded the key. *)
Definition extract_one (getpot_node : Node) (key : string) (value : Value)
    (params : P) (self : Legacy) (have_err : bool) : Exn + P * Legacy * bool :=
  if has params key then
    if type_is_list params key then
      match value with
      | Str v =>
          let v := replace (String newline "") " " v in
          inr (setitem params key (List (re_split_spaces v)), self, have_err)
      | _ => inr (setitem params key (List [str value]), self, have_err)
      end
    else
      match quoted_text value with
      | Some v => inr (setitem params key (Scalar (Str (slice_1_m1 v))), self, have_err)
      | None =>
          match strict_types params key with
          | Some StructTime =>
              match value with
              | Str v =>
                  match strptime v with
                  | Some t => inr (setitem params key (Date t), self, have_err)
                  | None => inl (NameError "child")
                  end
              | _ => inl (TypeError "strptime() argument 0 must be str")
              end
          | Some (TypeIs strict_type) =>
              if bool_decide (strict_type <> type_of value)
              then inl (NameError "child")
              else inr (params, self, have_err)
          | None => inr (setitem params key (Scalar value), self, have_err)
          end
      end
  else inr (params, report (UnusedParameter key getpot_node) self, have_err).

Fixpoint extract_loop (getpot_node : Node) (ps : list (string * Value))
    (st : Extracting) : Exn + Extracting :=
  match ps with
  | [] => inr st
  | (key, value) :: rest =>
      let '(params, self, have_err, local_parsed) := st in
      match params_parsed self with
      | None => inl (AttributeError "params_parsed")
      | Some parsed =>
          let self :=
            mkLegacy (Some (parsed ∪ {[path_join (fullpath getpot_node) key]}))
                     (reports self) in
          let local_parsed := local_parsed ∪ {[key]} in
          match extract_one getpot_node key value params self have_err with
          | inl e => inl e
          | inr (params, self, have_err) =>
              extract_loop getpot_node rest (params, self, have_err, local_parsed)
          end
      end
  end.

Definition extractParams (params : P) (getpot_node : Node) (self : Legacy)
  : Exn + P * Legacy :=
  match extract_loop getpot_node (Parser.params getpot_node) (params, self, false, ∅) with
  | inl e => inl e
  | inr (params, self, have_err, local_parsed) =>
      let required_params_missing := required_keys params ∖ local_parsed in
      let '(self, have_err) :=
        if negb (bool_decide (required_params_missing = ∅))
        then (report (RequiredMissing (elements required_params_missing)) self, true)
        else (self, have_err) in
      inr (setitem params "have_errors" (Scalar (Bool have_err)), self)
  end.
End ExtractParams.

Arguments Assigned : clear implicits.
Arguments Legacy : clear implicits.

(** Parameters that keep what is assigned to them: the names they have,
    with whether each is a list, and the assignments made, in order. *)
Record Assignments := mkAssignments {
  declared : list (string * bool);
  assigned : list (string * Assigned unit)
}.

#[global] Instance Assignments_TesterParams : TesterParams (Time := unit) Assignments := {|
  has p key := bool_decide (key ∈ map fst (declared p));
  type_is_list p key := bool_decide ((key, true) ∈ declared p);
  strict_types p key := None;
  setitem p key v := mkAssignments (declared p) (assigned p ++ [(key, v)]);
  required_keys p := ∅
|}.

(** A parser whose attribute [params_parsed] has been set. *)
Definition legacy_ready : Legacy := mkLegacy (Some ∅) [].

(** The block [[a] key = "..." []] with the text between the quotes given,
    and the parameters object with 'key', a list or not. *)
Definition quoted_block (text : string) : Node :=
  place "Tests" (block "a" [("key", Str (quoted text))] []).

Definition key_params (is_list : bool) : Assignments :=
  mkAssignments [("key", is_list)] [].

(** What [extractParams] assigns, when it returns. *)
Definition assignments_of (r : Exn + Assignments * Legacy)
  : option (list (string * Assigned unit)) :=
  match r with
  | inl _ => None
  | inr (params, _) => Some (assigned params)
  end.

End Parser.

(** ** Parser.py: what the statements about [parse] and [extractParams] speak of *)

Module ParserTerms.
Import PyStr Parser.


(** [s] holds a character that [\s] matches. *)
Fixpoint has_space (s : string) : bool :=
  match s with
  | "" => false
  | String c s' => is_space c || has_space s'
  end.

(** [s] without the characters that [\s] matches. *)
Fixpoint without_spaces (s : string) : string :=
  match s with
  | "" => ""
  | String c s' => if is_space c then without_spaces s' else String c (without_spaces s')
  end.

(** Parameters with required keys, none of them a list, that keep the
    assignments made. *)
Record Required := mkRequired {
  required : gset string;
  known : list string;
  stored : list (string * Assigned unit)
}.

#[global] Instance Required_TesterParams : TesterParams (Time := unit) Required := {|
  has p key := bool_decide (key ∈ known p);
  type_is_list p key := false;
  strict_types p key := None;
  setitem p key v := mkRequired (required p) (known p) (stored p ++ [(key, v)]);
  required_keys p := required p
|}.

End ParserTerms.

(** ** QueueManager.py *)

Module QueueManager.
Import PyStr.

(** *** [createQueueScript] *)

(** The files on disc, by path, with their text. *)
Abbreviation Files := (gmap string string).

Inductive Outcome (A : Type) :=
| Done (a : A)
| SysExit (code : Z)        (* [print(e); sys.exit(1)] *)
| KeyError (key : string).

Arguments Done {A}.
Arguments SysExit {A}.
Arguments KeyError {A}.

(** The [template] dictionary: keys in iteration order, with the values. *)
Definition Template : Type := list (string * Parser.Value).

(** [template[key]] *)
Definition item (template : Template) (key : string) : option Parser.Value :=
  snd <$> List.find (fun kv => String.eqb (fst kv) key) template.

Definition placeholder (key : string) : string := "<" +:+ upper key +:+ ">".

(** "Do all of the replacements for valid parameters" *)
Definition replace_supplied (template : Template) (content : string) : string :=
  foldl (fun content '(key, value) =>
           if contains (upper key) content
           then replace (placeholder key) (Parser.str value) content
           else content)
        content template.

(** "Strip out parameters that were not supplied" *)
Definition strip_unsupplied (template : Template) (content : string) : string :=
  foldl (fun content '(key, _) =>
           if negb (contains (upper key) content)
           then replace (placeholder key) "" content
           else content)
        content template.

(** The text that [createQueueScript] writes. *)
Definition render (template : Template) (content : string) : string :=
  strip_unsupplied template (replace_supplied template content).

(** [createQueueScript(job, template)], with [self.params['queue_template']]:
    the files after the call.  A template file that cannot be read makes the
    program exit. *)
Definition createQueueScript (queue_template : string) (template : Template)
    (files : Files) : Outcome Files :=
  match files !! queue_template with
  | None => SysExit 1
  | Some content =>
      match item template "launch_script" with
      | None => KeyError "launch_script"
      | Some launch_script =>
          Done (<[Parser.str launch_script := render template content]> files)
      end
  end.

(** A placeholder [<KEY>] is left in [text]. *)
Definition has_placeholder (key text : string) : bool := contains (placeholder key) text.

(** *** Jobs and testers, as the reap pass uses them *)

(** The status of a tester: the ones the tester itself provides
    ([tester.no_status], [tester.silent], [tester.skip]) and one made with
    [tester.createStatus()(status=..., color=...)]. *)
Inductive TesterStatus :=
| no_status
| silent
| skip
| Created (status color : string).

#[global] Instance TesterStatus_eq_dec : EqDecision TesterStatus.
Proof. solve_decision. Defined.

Inductive JobStatus := hold | finished.

(** A number taken as a condition: Python tests it against zero. *)
Class IsZero (N : Type) := is_zero : N -> bool.

#[global] Instance Z_IsZero : IsZero Z := Z.eqb 0.

Section Jobs.
(** A number as JSON has it (the seconds of TIMING are one). *)
Context {Timing : Type} `{IsZero Timing}.

(** What [json.load] returns.  A dictionary is given by its items, in the
    order of the file; a key occurs once. *)
Inductive Json :=
| JNull
| JBool (b : bool)
| JNumber (n : Timing)
| JStr (s : string)
| JList (l : list Json)
| JDict (items : list (string * Json)).

(** The data stored for a plugin: a dictionary of strings. *)
Definition Stored : Type := gmap string string.

(** What [addMetaData] stores under a key: the stored data of a plugin, a
    text or an integer. *)
Inductive MetaValue :=
| MetaStored (stored : Stored)
| MetaStr (s : string)
| MetaInt (n : Z).

(** Modelled from the spec: the Tester, which is not part of these
    sources, carries a status, the message given with it and a caveat list
    (human-readable modifiers) to which [addCaveats] appends. *)
Record Tester := mkTester {
  tester_status : TesterStatus;
  status_message : string;
  caveats : list string
}.

(** Modelled from the spec: the Job, which is not part of these sources, is
    the scheduler's wrapper around a test, with its name and directory, its
    own status, the time and output recovered for it, and metadata. *)
Record Job := mkJob {
  getTestName : string;
  getTestDir : string;
  job_status : JobStatus;
  getTester : Tester;
  previous_time : option Json;
  output : option Json;
  meta : list (string * MetaValue)
}.

Definition isSilent (t : Tester) : bool := bool_decide (tester_status t = silent).
Definition isNoStatus (t : Tester) : bool := bool_decide (tester_status t = no_status).

Definition setStatus (t : Tester) (s : TesterStatus) (message : string) : Tester :=
  mkTester s message (caveats t).

Definition addCaveats (t : Tester) (c : string) : Tester :=
  mkTester (tester_status t) (status_message t) (caveats t ++ [c]).

Definition with_tester (j : Job) (t : Tester) : Job :=
  mkJob (getTestName j) (getTestDir j) (job_status j) t (previous_time j) (output j) (meta j).

Definition set_finished (j : Job) : Job :=
  mkJob (getTestName j) (getTestDir j) finished (getTester j) (previous_time j)
        (output j) (meta j).

Definition setPreviousTime (j : Job) (t : Json) : Job :=
  mkJob (getTestName j) (getTestDir j) (job_status j) (getTester j) (Some t)
        (output j) (meta j).

Definition setOutput (j : Job) (o : Json) : Job :=
  mkJob (getTestName j) (getTestDir j) (job_status j) (getTester j) (previous_time j)
        (Some o) (meta j).

Definition addMetaData (j : Job) (key : string) (v : MetaValue) : Job :=
  mkJob (getTestName j) (getTestDir j) (job_status j) (getTester j) (previous_time j)
        (output j) (meta j ++ [(key, v)]).

(** [s.encode('ascii', 'ignore')]: the characters outside ASCII are
    dropped. *)
Fixpoint encode_ascii_ignore (s : string) : string :=
  match s with
  | "" => ""
  | String c s' =>
      if (nat_of_ascii c <? 128)%nat then String c (encode_ascii_ignore s')
      else encode_ascii_ignore s'
  end.

Fixpoint is_ascii (s : string) : bool :=
  match s with
  | "" => true
  | String c s' => (nat_of_ascii c <? 128)%nat && is_ascii s'
  end.

(** What the reap pass raises: KeyError, TypeError, AttributeError and
    FileNotFoundError. *)
Inductive Exn :=
| KeyErr (key : string)
| TypeErr (what : string)
| AttributeErr (what : string)
| FileNotFoundErr (path : string).

(** A JSON value taken as a condition. *)
Definition truthy (v : Json) : bool :=
  match v with
  | JNull => false
  | JBool b => b
  | JNumber n => negb (is_zero n)
  | JStr s => negb (String.eqb s "")
  | JList l => match l with [] => false | _ => true end
  | JDict items => match items with [] => false | _ => true end
  end.

(** The value of a key among the items of a dictionary. *)
Definition dict_get (items : list (string * Json)) (key : string) : option Json :=
  snd <$> List.find (fun kv => String.eqb (fst kv) key) items.

(** [v[key]] for a text [key]. *)
Definition subscript (v : Json) (key : string) : Exn + Json :=
  match v with
  | JDict items =>
      match dict_get items key with
      | Some x => inr x
      | None => inl (KeyErr key)
      end
  | JList _ => inl (TypeErr "list indices must be integers or slices, not str")
  | JStr _ => inl (TypeErr "string indices must be integers")
  | JNumber _ | JBool _ | JNull => inl (TypeErr "object is not subscriptable")
  end.

(** [v.get(key, {})] *)
Definition get_or_empty (v : Json) (key : string) : Exn + Json :=
  match v with
  | JDict items => inr (default (JDict []) (dict_get items key))
  | _ => inl (AttributeErr "get")
  end.

(** [v.encode('ascii', 'ignore')] *)
Definition encode (v : Json) : Exn + string :=
  match v with
  | JStr s => inr (encode_ascii_ignore s)
  | _ => inl (AttributeErr "encode")
  end.

(** The texts of a list, when all its items are texts. *)
Fixpoint texts (l : list Json) : option (list string) :=
  match l with
  | [] => Some []
  | JStr s :: rest => cons s <$> texts rest
  | _ :: _ => None
  end.

(** [' '.join(v)]: over the items of a list, which must be texts, the
    characters of a text, or the keys of a dictionary. *)
Definition join_spaces (v : Json) : Exn + string :=
  match v with
  | JList l =>
      match texts l with
      | Some ss => inr (join " " ss)
      | None => inl (TypeErr "sequence item: expected str instance")
      end
  | JStr s => inr (join " " (map (fun c => String c "") (list_ascii_of_string s)))
  | JDict items => inr (join " " (map fst items))
  | JNumber _ | JBool _ | JNull => inl (TypeErr "can only join an iterable")
  end.

(** [job_data]: the jobs, their directory, the stored session data
    ([options.results_storage], by directory then key) and the plugin name. *)
Record JobData := mkJobData {
  jobs : list Job;
  job_dir : string;
  json_data : option (gmap string (gmap string Stored));
  plugin : string
}.

(** [json_data.get(job_dir, {})] and, in it, the data of the plugin. *)
Definition stored_group (job_data : JobData) : option (gmap string Stored) :=
  match json_data job_data with
  | Some m => m !! job_dir job_data
  | None => None
  end.

Definition stored_plugin (job_data : JobData) : option Stored :=
  match stored_group job_data with
  | Some g => g !! plugin job_data
  | None => None
  end.

(** [self.options.results_storage[job_data.job_dir][job_data.plugin]] *)
Definition storage_item (job_data : JobData) : Exn + Stored :=
  match json_data job_data with
  | None => inl (TypeErr "'NoneType' object is not subscriptable")
  | Some m =>
      match m !! job_dir job_data with
      | None => inl (KeyErr (job_dir job_data))
      | Some g =>
          match g !! plugin job_data with
          | None => inl (KeyErr (plugin job_data))
          | Some stored => inr stored
          end
      end
  end.

(** [x[key].encode('ascii', 'ignore')] *)
Definition encoded_item (x : Json) (key : string) : Exn + string :=
  match subscript x key with
  | inl e => inl e
  | inr v => encode v
  end.

(** The body of [for job in job_list: ...] in [_setJobStatus]: the job
    afterwards and the exception raised, if any.  What was done to the job
    before an exception stays done. *)
Definition set_one (group_results : Json) (job : Job) : Job * option Exn :=
  let job := set_finished job in
  let tester := getTester job in
  if isSilent tester then (job, None)
  else
    match get_or_empty group_results (getTestName job) with
    | inl e => (job, Some e)
    | inr job_results =>
        if truthy job_results then
          match encoded_item job_results "STATUS" with
          | inl e => (job, Some e)
          | inr result_status =>
              match encoded_item job_results "COLOR" with
              | inl e => (job, Some e)
              | inr result_color =>
                  let tester := setStatus tester (Created result_status result_color) "" in
                  let job := with_tester job tester in
                  match subscript job_results "TIMING" with
                  | inl e => (job, Some e)
                  | inr timing =>
                      let job := setPreviousTime job timing in
                      match subscript job_results "CAVEATS" with
                      | inl e => (job, Some e)
                      | inr listed =>
                          match (if truthy listed
                                 then match join_spaces listed with
                                      | inl e => inl e
                                      | inr joined => inr (addCaveats tester joined)
                                      end
                                 else inr tester) with
                          | inl e => (job, Some e)
                          | inr tester =>
                              let job := with_tester job tester in
                              match subscript job_results "OUTPUT" with
                              | inl e => (job, Some e)
                              | inr out => (setOutput job out, None)
                              end
                          end
                      end
                  end
              end
          end
        else
          let tester := addCaveats tester "not originally launched" in
          (with_tester job (setStatus tester skip ""), None)
    end.

(** The loop: it stops at the first job whose body raises, and the jobs
    after that one are as they were. *)
Fixpoint set_all (group_results : Json) (job_list : list Job) : list Job * option Exn :=
  match job_list with
  | [] => ([], None)
  | job :: rest =>
      match set_one group_results job with
      | (job, Some e) => (job :: rest, Some e)
      | (job, None) =>
          let '(rest, e) := set_all group_results rest in
          (job :: rest, e)
      end
  end.

(** The results file of the directory: absent, not JSON, or what
    [json.load] returns. *)
Inductive ResultsFile :=
| NoFile
| NotJson
| Loaded (results : Json).

(** [_setJobStatus(job_data)], given the results file of the directory:
    the jobs afterwards and the exception raised, if any.  The handler of
    ValueError calls the text it means to format, which raises TypeError. *)
Definition _setJobStatus (job_data : JobData) (file : ResultsFile)
  : list Job * option Exn :=
  match jobs job_data with
  | [] => ([], None)
  | first :: rest =>
      match file with
      | NoFile => (first :: rest, Some (FileNotFoundErr (job_dir job_data)))
      | NotJson => (first :: rest, Some (TypeErr "'str' object is not callable"))
      | Loaded results =>
          match subscript results (job_dir job_data) with
          | inl e => (first :: rest, Some e)
          | inr group_results =>
              match storage_item job_data with
              | inl e => (first :: rest, Some e)
              | inr stored =>
                  let first := addMetaData first (plugin job_data) (MetaStored stored) in
                  set_all group_results (first :: rest)
              end
          end
      end
  end.

(** [_finishAllJobs] *)
Definition _finishAllJobs (js : list Job) : list Job := map set_finished js.

(** A dictionary taken as a condition: present and not empty. *)
Definition nonempty {V} (o : option (gmap string V)) : bool :=
  match o with
  | Some m => negb (bool_decide (m = ∅))
  | None => false
  end.

(** [_isProcessReady(job_data)], given whether the results file of the
    directory exists: the answer and the jobs afterwards. *)
Definition _isProcessReady (job_data : JobData) (results_file_exists : bool)
  : bool * list Job :=
  let js := jobs job_data in
  if negb (nonempty (json_data job_data)) then (false, js)
  else
    let group := stored_group job_data in
    if nonempty group && negb results_file_exists
    then (false,
          map (fun job =>
                 let tester := getTester job in
                 let tester := if isNoStatus tester
                               then setStatus tester no_status "QUEUED" else tester in
                 set_finished (with_tester job tester)) js)
    else if negb (nonempty group) then (false, _finishAllJobs js)
    else if negb (nonempty (stored_plugin job_data))
    then (false, _finishAllJobs js)
    else (true, js).

(** What the statements about [_setJobStatus] call an entry with the five
    fields: a dictionary that has STATUS and COLOR with texts, CAVEATS with
    a list of texts, TIMING and OUTPUT.  [full_entry] reads one; the loop
    itself works on any JSON value. *)
Record FullEntry := mkFullEntry {
  STATUS : string;
  COLOR : string;
  TIMING : Json;
  CAVEATS : list string;
  OUTPUT : Json
}.

Definition full_entry (v : Json) : option FullEntry :=
  match v with
  | JDict items =>
      match dict_get items "STATUS", dict_get items "COLOR", dict_get items "TIMING",
            dict_get items "CAVEATS", dict_get items "OUTPUT" with
      | Some (JStr status), Some (JStr color), Some timing, Some (JList caveats), Some out =>
          match texts caveats with
          | Some cs => Some (mkFullEntry status color timing cs out)
          | None => None
          end
      | _, _, _, _, _ => None
      end
  | _ => None
  end.

(** What the reap pass leaves of an entry's caveats: one caveat, the
    entry's joined by spaces, when there are any. *)
Definition joined_caveats (e : FullEntry) : list string :=
  match CAVEATS e with
  | [] => []
  | cs => [join " " cs]
  end.

(** The entry that decides for a job of the given name: the value that the
    results of the directory have under the name, when it is not empty. *)
Definition results_of (group_results : list (string * Json)) (name : string)
  : option Json :=
  match dict_get group_results name with
  | Some v => if truthy v then Some v else None
  | None => None
  end.
End Jobs.

Arguments Json : clear implicits.
Arguments MetaValue : clear implicits.
Arguments Tester : clear implicits.
Arguments Job : clear implicits.
Arguments FullEntry : clear implicits.
Arguments JobData : clear implicits.
Arguments ResultsFile : clear implicits.

(** *** [reserveSlots] and the dispatcher that asks it *)

(** The lock handed to [reserveSlots]. *)
Inductive Lock := Held | Free.

Section Dispatch.
Context {Timing : Type}.

(** [job.getSlots()]: the slot demand of a job. *)
Variable getSlots : Job Timing -> Z.

(** Modelled from the spec: the Scheduler, which is not part of these
    sources, 'owns an integer slot budget' and maintains 'a set of READY
    jobs'; the jobs handed to a worker thread are kept here in the order in
    which they were handed over. *)
Record Scheduler := mkScheduler {
  free_slots : Z;
  READY : list (Job Timing);
  handed_over : list (Job Timing)
}.

(** [reserveSlots(job, j_lock)] as a scheduler defines it: the answer and
    the scheduler afterwards. *)
Definition ReserveSlots : Type := Scheduler -> Job Timing -> Lock -> bool * Scheduler.

(** Modelled from the spec: [reserveSlots] of the Scheduler, the method
    that QueueManager overrides, which is not part of these sources: 'A Job
    is not dispatched unless the free-slot count is >= its demand', and then
    the slots are subtracted. *)
Definition Scheduler_reserveSlots : ReserveSlots :=
  fun self job j_lock =>
    if (getSlots job <=? free_slots self)%Z
    then (true, mkScheduler (free_slots self - getSlots job) (READY self) (handed_over self))
    else (false, self).

(** [QueueManager.reserveSlots(job, j_lock)]: [return True]; the scheduler
    is left as it is. *)
Definition reserveSlots : ReserveSlots :=
  fun self job j_lock => (true, self).

(** Modelled from the spec: 'the cheapest waiting job', the first of the
    READY jobs of least slot demand, with the other READY jobs. *)
Fixpoint cheapest (waiting : list (Job Timing)) : option (Job Timing * list (Job Timing)) :=
  match waiting with
  | [] => None
  | job :: rest =>
      match cheapest rest with
      | None => Some (job, [])
      | Some (least, others) =>
          if (getSlots job <=? getSlots least)%Z then Some (job, rest)
          else Some (least, job :: others)
      end
  end.

(** Modelled from the spec: one turn of the dispatcher loop, 'When READY
    is nonempty and free slots >= job.slotCount for the cheapest waiting
    job, atomically subtract slots and hand the Job to a worker thread';
    the test and the subtraction are those of [reserveSlots].  On the
    answer False the Job stays in READY: its dispatch is deferred until
    slots are released. *)
Definition dispatch (reserve : ReserveSlots) (self : Scheduler)
  : Scheduler * option (Job Timing) :=
  match cheapest (READY self) with
  | None => (self, None)
  | Some (job, others) =>
      let '(reserved, self) := reserve self job Held in
      if reserved
      then (mkScheduler (free_slots self) others (handed_over self ++ [job]), Some job)
      else (self, None)
  end.

(** [n] turns of the dispatcher, no worker finishing meanwhile. *)
Fixpoint dispatch_turns (reserve : ReserveSlots) (n : nat) (self : Scheduler) : Scheduler :=
  match n with
  | O => self
  | S n => dispatch_turns reserve n (dispatch reserve self).1
  end.
End Dispatch.

Arguments Scheduler : clear implicits.
Arguments mkScheduler {Timing}.
Arguments reserveSlots {Timing}.

(** *** Concrete inputs *)

(** A template that supplies 'launch_script' and 'walltime', and a
    template file that also names the job. *)
Definition pbs_template : Template :=
  [("launch_script", Parser.Str "job.sh"); ("walltime", Parser.Int 10)].

Definition pbs_files : Files := {[ "pbs_template" := "<JOB_NAME> <WALLTIME>" ]}.

(** A group of three jobs in /t: [a] and [s] are in the results file, [n]
    is not; [s] is silent. *)
Definition fresh_job (name : string) (st : TesterStatus) : Job Z :=
  mkJob name "/t" hold (mkTester st "" []) None None [].

Definition group_jobs : list (Job Z) :=
  [fresh_job "a" no_status; fresh_job "s" silent; fresh_job "n" no_status].

Definition group_data : JobData Z :=
  mkJobData group_jobs "/t" (Some {[ "/t" := {[ "QM" := {[ "ID" := "1" ]} ]} ]}) "QM".

(** An entry of a results file, as the harness writes it. *)
Definition entry (status color : string) (timing : Z) (caveats : list string)
    (output : string) : Json Z :=
  JDict [("STATUS", JStr status); ("COLOR", JStr color); ("TIMING", JNumber timing);
         ("CAVEATS", JList (map JStr caveats)); ("OUTPUT", JStr output)].

Definition group_results : list (string * Json Z) :=
  [("a", entry "FAIL" "RED" 3 ["slow"; "big"] "out a");
   ("s", entry "FAIL" "RED" 4 [] "out s")].

Definition group_file : Json Z := JDict [("/t", JDict group_results)].

(** The same results with the entry of [a] lacking its TIMING: the file of
    a run that stored four fields. *)
Definition group_file_without_timing : Json Z :=
  JDict [("/t", JDict [("a", JDict [("STATUS", JStr "FAIL"); ("COLOR", JStr "RED");
                                    ("CAVEATS", JList []); ("OUTPUT", JStr "out a")])])].

(** The status and the caveats of each job, by name. *)
Definition summary (js : list (Job Z))
  : list (string * JobStatus * TesterStatus * list string) :=
  map (fun j => (getTestName j, job_status j,
                 tester_status (getTester j), caveats (getTester j))) js.

End QueueManager.

(** ** QueueManager.py: arguments, cores, clean-up and [augmentJobs] *)

Module QueueOps.
Import PyStr QueueManager.

(** *** [cleanAndModifyArgs] *)

(** [l.count(x)] *)
Definition count (x : string) (l : list string) : nat :=
  length (List.filter (String.eqb x) l).

(** [l.remove(x)]: without the first [x]. *)
Fixpoint remove_first (x : string) (l : list string) : list string :=
  match l with
  | [] => []
  | y :: l' => if String.eqb y x then l' else y :: remove_first x l'
  end.

(** [s.split('=')]: [cur] is the piece being read, reversed. *)
Fixpoint split_eq_go (s cur : string) : list string :=
  match s with
  | "" => [String.rev cur]
  | String c s' =>
      if Ascii.eqb c "="
      then String.rev cur :: split_eq_go s' ""
      else split_eq_go s' (String c cur)
  end.

Definition split_eq (s : string) : list string := split_eq_go s "".

(** ['=' in s] *)
Fixpoint has_eq (s : string) : bool :=
  match s with
  | "" => false
  | String c s' => Ascii.eqb c "=" || has_eq s'
  end.

(** The loop that takes each [key=value] argument out and puts its pieces
    at the end. *)
Definition split_key_values (current_args : list string) : list string :=
  let key_value_args := List.filter has_eq current_args in
  foldl (fun cur arg => remove_first arg cur ++ split_eq arg) current_args key_value_args.

(** [key = l.index(arg); del l[key:key+2]] *)
Fixpoint del_pair (arg : string) (l : list string) : list string :=
  match l with
  | [] => []
  | y :: l' => if String.eqb y arg then drop 1 l' else y :: del_pair arg l'
  end.

(** The loop that removes each bad keyword with the argument after it;
    [in] and [index] find the first occurrence. *)
Definition remove_keywords (bad_keyword_args current_args : list string) : list string :=
  foldl (fun cur arg => del_pair arg cur) current_args bad_keyword_args.

(** The loop that removes each bad positional argument once. *)
Definition remove_positional (bad_args current_args : list string) : list string :=
  foldl (fun cur arg => remove_first arg cur) current_args bad_args.

Definition builtin_keywords : list string :=
  ["--spec-file"; "-i"; "--cli-args"; "-j"; "-l"].

(** [cleanAndModifyArgs], given [sys.argv[1:]], what [getBadArgs()] and
    [getBadKeyArgs()] return and [options.cli_args]: the arguments returned
    and cached.  A cached list that is not empty is returned as it is. *)
Definition cleanAndModifyArgs (argv bad_args bad_keyword_args : list string)
    (cli_args : option string) (clean_args : option (list string))
  : list string :=
  match clean_args with
  | Some (a :: l) => a :: l
  | _ =>
      let current_args := split_key_values argv in
      let bad_keyword_args := bad_keyword_args ++ builtin_keywords in
      let current_args := remove_keywords bad_keyword_args current_args in
      let current_args :=
        match cli_args with
        | Some c => if String.eqb c "" then current_args
                    else current_args ++ ["--cli-args"; quoted c]
        | None => current_args
        end in
      remove_positional bad_args current_args
  end.

(** *** [getCores] and [getMaxTime] *)

Section Group.
Context {Timing : Type}.

(** [job.getSlots()] and [int(tester.getMaxTime())], by job. *)
Variable getSlots : Job Timing -> Z.
Variable getMaxTime_int : Job Timing -> Z.

(** [job.isSkip()] *)
Definition isSkip (job : Job Timing) : bool :=
  bool_decide (tester_status (getTester job) = skip).

Definition getCores (jobs : list (Job Timing)) : Z :=
  foldl (fun slots job => Z.max slots (getSlots job)) 1%Z
        (List.filter (fun x => negb (isSkip x)) jobs).

Definition getMaxTime (jobs : list (Job Timing)) : Z :=
  foldl (fun total_time job => (total_time + getMaxTime_int job)%Z) 0%Z
        (List.filter (fun x => negb (isSkip x)) jobs).
End Group.

(** *** [_cleanupFiles], [_prepareJobs] and [augmentJobs] *)

(** [os.path.dirname] (posix): the text up to the last slash, without the
    slashes at its end unless it is made of slashes only. *)
Fixpoint rstrip_slash (s : string) : string :=
  match s with
  | "" => ""
  | String c s' =>
      match rstrip_slash s' with
      | "" => if Ascii.eqb c "/" then "" else String c ""
      | r => String c r
      end
  end.

(** The text up to and with the last slash. *)
Fixpoint head_of (s : string) : string :=
  match s with
  | "" => ""
  | String c s' =>
      match head_of s' with
      | "" => if Ascii.eqb c "/" then String c "" else ""
      | h => String c h
      end
  end.

Definition dirname (p : string) : string :=
  let head := head_of p in
  match rstrip_slash head with
  | "" => head
  | r => r
  end.

(** The components of a path, [p.split('/')]: the texts between its
    slashes. *)
Fixpoint components (p : string) : list string :=
  match p with
  | "" => [""]
  | String c p' =>
      if Ascii.eqb c "/" then "" :: components p'
      else
        match components p' with
        | [] => [String c ""]
        | first :: rest => String c first :: rest
        end
  end.

(** The path of the directory or file reached from the root through
    [names], and the text with which the paths below it start. *)
Fixpoint below (names : list string) : string :=
  match names with
  | [] => ""
  | c :: rest => "/" +:+ c +:+ below rest
  end.

Definition path_of (names : list string) : string :=
  match names with
  | [] => "/"
  | _ => below names
  end.

Definition under (names : list string) : string := below names +:+ "/".

(** The files of [Runner.FS] are held under their absolute paths, without
    [.], [..] or repeated slashes.  A directory is there when it is the root
    or a file lies below it. *)
Definition dir_exists (fs : Runner.FS) (names : list string) : bool :=
  match names with
  | [] => true
  | _ => existsb (startswith (under names)) (elements (Runner.fs_files fs))
  end.

(** The resolution of a path, without symbolic links: its components are
    looked up one after the other, each in a directory that must be there;
    [..] leads to the parent (the root is its own), [.] and an empty
    component stay.  [None] when a component is looked up in what is not a
    directory. *)
Fixpoint walk (fs : Runner.FS) (comps : list string) (names : list string)
  : option (list string) :=
  match comps with
  | [] => Some names
  | c :: rest =>
      if dir_exists fs names then
        if String.eqb c "" || String.eqb c "." then walk fs rest names
        else if String.eqb c ".." then walk fs rest (removelast names)
        else walk fs rest (names ++ [c])
      else None
  end.

Definition resolve (fs : Runner.FS) (p : string) : option (list string) :=
  walk fs (components (Runner.abspath fs p)) [].

(** [os.path.isdir] *)
Definition isdir (fs : Runner.FS) (d : string) : bool :=
  match resolve fs d with
  | Some names => dir_exists fs names
  | None => false
  end.

(** [shutil.rmtree] on a directory: the files below it go; what the
    removal of the directory itself raises is an OSError. *)
Definition rmtree (fs : Runner.FS) (d : string) : Runner.FS :=
  match resolve fs d with
  | Some names =>
      Runner.mkFS (filter (fun p => startswith (under names) p = false) (Runner.fs_files fs))
                  (Runner.fs_cwd fs)
  | None => fs
  end.

(** [os.remove] on what is not a directory: a file that is not there
    raises an OSError. *)
Definition os_remove (fs : Runner.FS) (p : string) : Runner.FS :=
  match resolve fs p with
  | Some names => Runner.mkFS (Runner.fs_files fs ∖ {[path_of names]}) (Runner.fs_cwd fs)
  | None => fs
  end.

(** The body of [try: ... except OSError: pass]. *)
Definition delete (fs : Runner.FS) (dirty_file : string) : Runner.FS :=
  if isdir fs dirty_file then rmtree fs dirty_file
  else os_remove fs dirty_file.

(** A text without a slash, and the text of [k] slashes. *)
Fixpoint no_slash (s : string) : bool :=
  match s with
  | "" => true
  | String c s' => negb (Ascii.eqb c "/") && no_slash s'
  end.

Fixpoint slashes (k : nat) : string :=
  match k with
  | O => ""
  | S k => String "/" (slashes k)
  end.

(** Where a component leads from the directory [names]. *)
Definition step (names : list string) (c : string) : list string :=
  if String.eqb c "" || String.eqb c "." then names
  else if String.eqb c ".." then removelast names
  else names ++ [c].

(** The last component of a path, and whether a file lies in the test
    directory, as far as the start of its path tells. *)
Definition last_component (p : string) : string := List.last (components p) "".

Definition starts_in (fs : Runner.FS) (test_dir p : string) : bool :=
  match resolve fs test_dir with
  | Some names => startswith (path_of names) p
  | None => false
  end.

Section Augment.
Context {Timing : Type} `{IsZero Timing}.

(** [job.getSlots()] and [int(tester.getMaxTime())], by job. *)
Variable getSlots : Job Timing -> Z.
Variable getMaxTime_int : Job Timing -> Z.

(** The ['QUEUE_FILES'] entry of [options.results_storage[job_dir]], a
    list, by directory; it is kept apart from the entries of the directory
    that are dictionaries. *)
Variable QUEUE_FILES : string -> option (list string).

(** [getDirtyFiles(job)] *)
Definition getDirtyFiles (results_storage : option (gmap string (gmap string Stored)))
    (job : Job Timing) : list string :=
  match results_storage with
  | Some storage =>
      if negb (bool_decide (storage = ∅))
         && (nonempty (storage !! getTestDir job)
             || bool_decide (is_Some (QUEUE_FILES (getTestDir job))))
      then default [] (QUEUE_FILES (getTestDir job))
      else []
  | None => []
  end.

(** [_cleanupFiles(Jobs)]: the jobs and the files afterwards. *)
Definition _cleanupFiles (json_data : option (gmap string (gmap string Stored)))
    (job_list : list (Job Timing)) (fs : Runner.FS) : list (Job Timing) * Runner.FS :=
  let silenced :=
    map (fun job => set_finished (with_tester job (setStatus (getTester job) silent "")))
        job_list in
  match silenced with
  | [] => (silenced, fs)
  | first :: _ =>
      (silenced,
       foldl (fun fs dirty_file =>
                if String.eqb (dirname dirty_file) (getTestDir first)
                then delete fs dirty_file else fs)
             fs (getDirtyFiles json_data first))
  end.

(** [_isLaunchable(job_data)] *)
Definition _isLaunchable (job_data : JobData Timing) : bool :=
  negb (nonempty (json_data job_data)).

(** Modelled from the spec: [isFinished] and [clearCaveats] of the Job,
    which is not part of these sources: the job has reached its finished
    status; its caveat list, which is its tester's, is emptied. *)
Definition isFinished (job : Job Timing) : bool :=
  match job_status job with
  | finished => true
  | hold => false
  end.

Definition clearCaveats (job : Job Timing) : Job Timing :=
  with_tester job (mkTester (tester_status (getTester job))
                            (status_message (getTester job)) []).

(** The body of [for job in launchable_jobs: ...]. *)
Definition launching (job : Job Timing) : Job Timing :=
  let tester := getTester job in
  let tester := if isNoStatus tester
                then setStatus tester no_status "LAUNCHING" else tester in
  set_finished (with_tester job tester).

(** [executor_job.addMetaData(QUEUEING=..., QUEUEING_NCPUS=...,
    QUEUEING_MAXTIME=...)] *)
Definition stamp (plugin : string) (ncpus maxtime : Z) (job : Job Timing) : Job Timing :=
  addMetaData
    (addMetaData (addMetaData job "QUEUEING" (MetaStr plugin))
                 "QUEUEING_NCPUS" (MetaInt ncpus))
    "QUEUEING_MAXTIME" (MetaInt maxtime).

(** The first job that is not finished is the executor,
    [launchable_jobs.pop(0)]; the jobs after it that are not finished are
    the other launchable jobs. *)
Fixpoint elect (plugin : string) (ncpus maxtime : Z) (job_list : list (Job Timing))
  : list (Job Timing) :=
  match job_list with
  | [] => []
  | x :: rest =>
      if isFinished x then x :: elect plugin ncpus maxtime rest
      else stamp plugin ncpus maxtime x
           :: map (fun y => if isFinished y then y else launching y) rest
  end.

(** [_prepareJobs(job_data)]: the jobs of the group afterwards.
    Modelled from the spec: [job_data.jobs.getJobs()], of a class that is
    not part of these sources, lists the jobs of the group anew at each
    call, so that [job_list.pop] takes no job out of the group and
    [getCores] and [getMaxTime] see all of it: the executor is stamped with
    the 'total slot demand (max of the group)' and the 'total wall-time (sum
    of the group)'. *)
Definition _prepareJobs (job_data : JobData Timing) : list (Job Timing) :=
  let job_list :=
    map (fun x => if isSkip x then x else clearCaveats x) (jobs job_data) in
  elect (plugin job_data) (getCores getSlots job_list)
        (getMaxTime getMaxTime_int job_list) job_list.

(** [augmentJobs(Jobs)], after the dependencies have been removed, given
    [options.queue_cleanup], [options.results_storage], the name of the
    scheduler class and the results file of the directory: the jobs and the
    files afterwards, and the exception raised, if any. *)
Definition augmentJobs (queue_cleanup : bool)
    (results_storage : option (gmap string (gmap string Stored))) (plugin : string)
    (file : ResultsFile Timing)
    (job_list : list (Job Timing)) (fs : Runner.FS)
  : list (Job Timing) * Runner.FS * option Exn :=
  if queue_cleanup then (_cleanupFiles results_storage job_list fs, None)
  else
    match job_list with
    | [] => (job_list, fs, None)
    | first :: _ =>
        let job_data := mkJobData job_list (getTestDir first) results_storage plugin in
        let results_file_exists := match file with NoFile => false | _ => true end in
        let '(ready, js) := _isProcessReady job_data results_file_exists in
        if ready
        then
          let '(js, e) :=
            _setJobStatus (mkJobData js (getTestDir first) results_storage plugin) file in
          (js, fs, e)
        else if _isLaunchable job_data
        then (_prepareJobs (mkJobData js (getTestDir first) results_storage plugin), fs, None)
        else (js, fs, None)
    end.
End Augment.

End QueueOps.

(* ===================================================================== *)
(** * Properties *)
(* ===================================================================== *)

(** ** The string operations on small inputs *)

Module PyStrExamples.
Import PyStr.

Example path_join_relative : path_join "/base" "out.e" = "/base/out.e".
Proof. reflexivity. Qed.

Example path_join_absolute : path_join "/base" "/tmp/out.e" = "/tmp/out.e".
Proof. reflexivity. Qed.

Example path_join_slash : path_join "/base/" "out.e" = "/base/out.e".
Proof. reflexivity. Qed.

Example upper_key : upper "job_name" = "JOB_NAME".
Proof. reflexivity. Qed.

Example replace_all : replace "<A>" "xy" "<A>-<A><B>" = "xy-xy<B>".
Proof. reflexivity. Qed.

Example replace_none : replace "<A>" "xy" "<B> A" = "<B> A".
Proof. reflexivity. Qed.

Example contains_inside : contains "ALL" "<WALLTIME>" = true.
Proof. reflexivity. Qed.

Example split_spaces : re_split_spaces " a  b " = [""; "a"; "b"; ""].
Proof. reflexivity. Qed.

Example match_quoted : re_match_quoted (quoted "x y") = true.
Proof. reflexivity. Qed.

Example match_unclosed : re_match_quoted (String dquote "x y") = false.
Proof. reflexivity. Qed.

Example slice_inner : slice_1_m1 "(abc)" = "abc".
Proof. reflexivity. Qed.
End PyStrExamples.

(** ** TestCase.execute *)

Module TestCaseFacts.
Import TestCase StateM.

Section Execute.
Context {Obj Controller : Type}.
Variable name : Obj -> string.
Variable controller_execute : Controller -> Obj -> ControllerRun.
Variable object_execute : Obj -> StageArgs -> ObjectRun.
Variable err_out : Controller -> Logged -> string.
Variable has_handler : bool.

Abbreviation Self := (TestCase.Self (Obj := Obj) (Controller := Controller)).
Abbreviation stage := (TestCase.stage name controller_execute object_execute err_out).
Abbreviation stage_state :=
  (TestCase.stage_state name controller_execute object_execute err_out).
Abbreviation call :=
  (TestCase.call name controller_execute object_execute err_out has_handler).
Abbreviation differ_loop :=
  (TestCase.differ_loop name controller_execute object_execute err_out has_handler).
Abbreviation execute :=
  (TestCase.execute name controller_execute object_execute err_out has_handler).

(** With a handler and a Controller assigned, a stage call returns what
    the body of [executeObject] yields, and is logged. *)
Lemma call_found controller obj args (s : Self) :
  has_handler = true -> _controller s = Some controller ->
  call obj args s
  = (inr (stage controller obj args),
     mkSelf (_runner s) (_differs s) (_controller s) (progress s)
            (calls s ++ [(obj, args)]) (printed s)).
Proof.
  intros Hh Hc.
  unfold TestCase.call, mbind, statem_bind, bind, modify, get, mret, statem_ret, ret,
    executeObject.
  simpl. by rewrite Hh, Hc.
Qed.

(** The loop over the Differs calls every Differ once, in order, with the
    Runner's return code and output, and keeps the state of the last
    Differ that has exit-code bit 1. *)
Lemma differ_loop_spec controller differs rc out : forall state results (s : Self),
  has_handler = true -> _controller s = Some controller ->
  let '(r, s') := differ_loop differs rc out state results s in
  (exists results',
     r = inr (last_failing state
                (map (fun d => stage_state controller d (Some (rc, out))) differs),
              results'))
  /\ calls s' = calls s ++ map (fun d => (d, Some (rc, out))) differs
  /\ progress s' = progress s.
Proof.
  induction differs as [|d rest IH]; intros state results s Hh Hc; simpl.
  { unfold mret, statem_ret, ret. rewrite app_nil_r. eauto. }
  unfold mbind, statem_bind, bind. rewrite (call_found controller) by done.
  unfold TestCase.stage_state.
  destruct (stage controller d (Some (rc, out))) as [[d_state d_out] d_rc] eqn:E.
  match goal with
  | |- context [differ_loop rest rc out ?st ?res ?s0] =>
      specialize (IH st res s0 Hh Hc);
      destruct (differ_loop rest rc out st res s0) as [r s']
  end.
  simpl in IH. destruct IH as ([results' ->] & -> & ->).
  split; [|split; [by rewrite <- app_assoc | done]].
  exists results'. simpl. do 2 f_equal. destruct d_state; reflexivity.
Qed.

Lemma exitcode_last_failing dflt rs :
  exitcode (last_failing dflt rs) = Z.max (exitcode dflt) (max_exitcode rs).
Proof.
  revert dflt. induction rs as [|r rs IH]; intros dflt; simpl.
  - destruct dflt; reflexivity.
  - rewrite IH. destruct r, dflt; simpl; lia.
Qed.

Lemma runner_continues_pass state : runner_stops state = false -> state = PASS.
Proof. by destruct state. Qed.

(** On a TestCase as [__init__] leaves it, [execute] returns no Result:
    the Runner's stage call raises, AttributeError for the Controller that
    was never assigned, or IndexError before that when the root logger has
    no handler. *)
Lemma execute_without_controller_raises runner differs :
  let '(r, s') := execute (init runner differs) in
  r = inl (if has_handler then AttributeError "_controller"
           else IndexError "list index out of range")
  /\ calls s' = [(runner, None)]
  /\ progress s' = RUNNING.
Proof.
  unfold TestCase.execute, TestCase.call, mbind, statem_bind, bind, setProgress, print,
    modify, get, mret, statem_ret, ret, executeObject, init.
  simpl. by destruct has_handler.
Qed.

(** C1 (amended): on a TestCase that has a Controller, in a process whose
    root logger has a handler, a Runner stage that yields SKIP or exit-code
    bit 1 ends [execute] with that Result and no Differ call; otherwise,
    when Differs were given, every Differ is called once, in declared
    order, with the Runner's return code and output, and the final Result
    is that of the last Differ with exit-code bit 1, or the Runner's when
    no Differ has one, so that its exit-code bit is the largest among the
    Runner's and the Differs'; when no Differs were given the loop raises
    TypeError. *)
Theorem execute_last_failing (self : Self) controller :
  has_handler = true ->
  _controller self = Some controller ->
  let runner := _runner self in
  let '(state, out, rc) := stage controller runner None in
  let '(r, s') := execute self in
  progress s' = RUNNING /\
  (if runner_stops state
   then r = inr (state, <[name runner := (state, out)]> ∅)
        /\ calls s' = calls self ++ [(runner, None)]
   else
     match _differs self with
     | None =>
         r = inl (TypeError "'NoneType' object is not iterable")
         /\ calls s' = calls self ++ [(runner, None)]
     | Some differs =>
         let differ_states :=
           map (fun d => stage_state controller d (Some (rc, out))) differs in
         calls s' = calls self ++ (runner, None) :: map (fun d => (d, Some (rc, out))) differs
         /\ (exists results, r = inr (last_failing state differ_states, results))
         /\ exitcode (last_failing state differ_states)
            = max_exitcode (state :: differ_states)
     end).
Proof.
  intros Hh Hc runner. subst runner.
  unfold TestCase.execute, mbind, statem_bind, bind, setProgress, print, modify, get.
  rewrite (call_found controller) by done.
  cbn [_runner _differs _controller progress calls printed].
  destruct (stage controller (_runner self) None) as [[state out] rc] eqn:E.
  fold (runner_stops state).
  destruct (runner_stops state) eqn:Hstop.
  { unfold mret, statem_ret, ret. by simpl. }
  destruct (_differs self) as [differs|] eqn:Hd.
  2:{ unfold mret, statem_ret, ret. by simpl. }
  match goal with
  | |- context [differ_loop differs rc out state ?res ?s0] =>
      pose proof (differ_loop_spec controller differs rc out state res s0 Hh Hc) as H;
      destruct (differ_loop differs rc out state res s0) as [r s']
  end.
  simpl in H. destruct H as ([results ->] & -> & ->).
  split; [done|]. split; [by rewrite <- app_assoc|]. split; [by exists results|].
  rewrite exitcode_last_failing. reflexivity.
Qed.
End Execute.

(** The theorem on a passing Runner with three Differs, the second of
    which logs an error while it executes: four stage calls, and ERROR. *)
Lemma execute_last_failing_witness :
  let t := mkTable [] [] ["d2"] in
  let self := with_controller tt (init "run" (Some ["d1"; "d2"; "d3"])) in
  let '(r, s') :=
    TestCase.execute id (table_controller t) (table_object t) table_err_out true self in
  progress s' = RUNNING
  /\ calls s' = [("run", None); ("d1", Some (Some 0%Z, "")); ("d2", Some (Some 0%Z, ""));
                 ("d3", Some (Some 0%Z, ""))]
  /\ (exists results, r = inr (ERROR, results)).
Proof.
  pose proof (execute_last_failing id (table_controller (mkTable [] [] ["d2"]))
                (table_object (mkTable [] [] ["d2"])) table_err_out true
                (with_controller tt (init "run" (Some ["d1"; "d2"; "d3"]))) tt
                eq_refl eq_refl) as H.
  vm_compute in H |- *. destruct H as (H1 & H2 & H3 & _).
  exact (conj H1 (conj H2 H3)).
Defined.

(** C1 (as stated) fails, also on a TestCase that has a Controller: with a
    passing Runner and Differs yielding FATAL then ERROR the final Result is
    ERROR, and with one Differ yielding SKIP it is PASS; neither is the
    worst of the executed stages. *)
Lemma execute_not_worst_of_stages :
  (let t := mkTable ["d1"] [] ["d2"] in
   let '(final, executed) := run_table t "run" ["d1"; "d2"] in
   final = Some ERROR /\ executed = ["run"; "d1"; "d2"] /\
   map (fun o => (table_stage t o None).1.1) executed = [PASS; FATAL; ERROR] /\
   severity ERROR <>
     worst_severity (map (fun o => (table_stage t o None).1.1) executed))
  /\
  (let t := mkTable [] ["d"] [] in
   let '(final, executed) := run_table t "run" ["d"] in
   final = Some PASS /\ executed = ["run"; "d"] /\
   map (fun o => (table_stage t o None).1.1) executed = [PASS; SKIP] /\
   severity PASS <>
     worst_severity (map (fun o => (table_stage t o None).1.1) executed)).
Proof. vm_compute. repeat split; discriminate. Qed.
End TestCaseFacts.

(** ** RedirectOutput *)

Module RedirectFacts.
Import Redirect.

Lemma string_app_assoc (a b c : string) : (a +:+ b) +:+ c = a +:+ (b +:+ c).
Proof.
  induction a as [|x a IH]; [done|].
  change (String x ((a +:+ b) +:+ c) = String x (a +:+ (b +:+ c))).
  by rewrite IH.
Qed.

Lemma string_app_nil_r (a : string) : a +:+ "" = a.
Proof.
  induction a as [|x a IH]; [done|].
  change (String x (a +:+ "") = String x a). by rewrite IH.
Qed.

Section Scope.
Variable main : ThreadId.

(** Every write of a worker thread lands in that thread's own buffer and
    in no other; the main thread's writes reach the original streams. *)
Lemma run_buffers events : forall self t,
  t <> main ->
  getvalue (_stdout (run main events self)) t
    = getvalue (_stdout self) t +:+ written t Stdout events
  /\ getvalue (_stderr (run main events self)) t
    = getvalue (_stderr self) t +:+ written t Stderr events.
Proof.
  induction events as [|[[t' stream] message] events IH]; intros self t Ht; simpl.
  - by rewrite !string_app_nil_r.
  - destruct (IH (write main t' stream message self) t Ht) as [-> ->].
    unfold write, is_main, buffer_write, getvalue.
    destruct stream; repeat case_bool_decide; simplify_eq/=;
      rewrite ?lookup_insert_eq, ?lookup_insert_ne by done; simpl;
      rewrite ?string_app_assoc; done.
Qed.

Lemma run_main events : forall self,
  _sys_stdout (run main events self)
    = _sys_stdout self +:+ written main Stdout events
  /\ _sys_stderr (run main events self)
    = _sys_stderr self +:+ written main Stderr events.
Proof.
  induction events as [|[[t' stream] message] events IH]; intros self; simpl.
  - by rewrite !string_app_nil_r.
  - destruct (IH (write main t' stream message self)) as [-> ->].
    unfold write, is_main.
    destruct stream; repeat case_bool_decide; simplify_eq/=;
      rewrite ?string_app_assoc; done.
Qed.

(** The [stdout] accessor returns exactly what the reading worker thread
    wrote to standard output inside the scope. *)
Lemma stdout_own_writes events t :
  t <> main ->
  stdout (run main events init) t = inr (written t Stdout events).
Proof.
  intros Ht. unfold stdout. simpl.
  by destruct (run_buffers events init t Ht) as [-> _].
Qed.
End Scope.

(** C7: the [stderr] accessor never returns the text written to standard
    error: it reads the attribute [_stdrr], which no RedirectOutput has.
    A worker thread 7 that wrote "boom" to standard error has it in its own
    buffer, and reading [stderr] on that thread raises AttributeError. *)
Theorem stderr_accessor_raises :
  let scope := run 1%Z [(7%Z, Stderr, "boom")] init in
  getvalue (_stderr scope) 7%Z = "boom"
  /\ stderr scope 7%Z = inl (AttributeError "_stdrr")
  /\ forall self t, stderr self t = inl (AttributeError "_stdrr").
Proof. split; [|split]; reflexivity. Qed.
End RedirectFacts.

(** ** Runner: expected files *)

Module RunnerFacts.
Import PyStr Runner.

Example listdir_base : listdir fs0 "/base" = ["old.txt"].
Proof. vm_compute. reflexivity. Qed.

Lemma errors_emit m self :
  errors (emit m self) = errors self ++ (if is_error m then [m] else []).
Proof.
  unfold errors, emit; simpl. rewrite filter_app. simpl.
  unfold filter at 2; simpl. by destruct (is_error m).
Qed.

Lemma isfile_remove fs p q :
  isfile fs q = false -> isfile (remove fs p) q = false.
Proof.
  unfold isfile, remove, abspath; simpl.
  intros H%bool_decide_eq_false. apply bool_decide_eq_false.
  intros [? _]%elem_of_difference. contradiction.
Qed.

Lemma isfile_remove_same fs p : isfile (remove fs p) p = false.
Proof.
  unfold isfile, remove, abspath; simpl.
  apply bool_decide_eq_false.
  intros [_ Hne]%elem_of_difference. apply Hne. by apply elem_of_singleton.
Qed.

(** Cleaning logs no error and only removes files. *)
Lemma clean_files_props files : forall self fs,
  errors (clean_files files self fs).1 = errors self
  /\ expected_files (clean_files files self fs).1 = expected_files self
  /\ pre_execute_files (clean_files files self fs).1 = pre_execute_files self
  /\ (forall q, isfile fs q = false -> isfile (clean_files files self fs).2 q = false).
Proof.
  induction files as [|f files IH]; intros self fs; simpl; [done|].
  destruct (isfile fs f) eqn:Hf; [|apply IH].
  destruct (IH (emit (Removing f) self) (remove fs f)) as (-> & -> & -> & H).
  rewrite errors_emit; simpl. rewrite app_nil_r.
  repeat split; auto using isfile_remove.
Qed.

(** After cleaning, none of the files cleaned exists, whatever existed
    before. *)
Lemma clean_files_absent files : forall self fs f,
  f ∈ files -> isfile (clean_files files self fs).2 f = false.
Proof.
  induction files as [|g files IH]; intros self fs f Hin; [by apply elem_of_nil in Hin|].
  simpl. apply elem_of_cons in Hin as [->|Hin].
  - destruct (isfile fs g) eqn:Hg.
    + apply clean_files_props, isfile_remove_same.
    + by apply clean_files_props.
  - destruct (isfile fs g); by apply IH.
Qed.

Lemma filter_nil_false {A} (f : A -> bool) (l : list A) x :
  filter (fun a => f a) l = [] -> x ∈ l -> f x = false.
Proof.
  intros Hnil Hin. destruct (f x) eqn:Hx; [|done].
  assert (x ∈ filter (fun a => f a) l) as Hx'.
  { apply list_elem_of_filter. split; [by rewrite Hx|done]. }
  rewrite Hnil in Hx'. by apply elem_of_nil in Hx'.
Qed.

Section Checks.
Variable git : Git.
Variable r : Runner.

(** A path that is not absolute stops the check with one error, before
    anything is removed. *)
Lemma preExecute_rejects_relative expected self fs f :
  f ∈ iter expected -> isabs f = false ->
  exists files self',
    preExecute_checks git r expected self fs = inr (self', fs)
    /\ f ∈ files /\ errors self' = errors self ++ [NotAbsolute files].
Proof.
  intros Hin Habs. unfold preExecute_checks.
  set (non_abs := filter _ (iter expected)).
  assert (f ∈ non_abs) as Hf.
  { apply list_elem_of_filter. by rewrite Habs. }
  case_bool_decide as Hnil; [rewrite Hnil in Hf; by apply elem_of_nil in Hf|].
  simpl. eexists _, _. split; [reflexivity|]. split; [exact Hf|].
  by rewrite errors_emit.
Qed.

(** When the check ends without a new error, no expected file exists. *)
Lemma preExecute_checks_absent expected self fs self' fs' :
  preExecute_checks git r expected self fs = inr (self', fs') ->
  errors self' = errors self ->
  forall f, f ∈ iter expected -> isfile fs' f = false.
Proof.
  unfold preExecute_checks. intros Hrun Herr f Hin.
  assert (forall m s0, is_error m = true -> errors s0 = errors self ->
            errors (emit m s0) <> errors self) as Hno.
  { intros m s0 Hm Hs0. rewrite errors_emit, Hm, Hs0. intros Heq.
    apply (f_equal length) in Heq. rewrite length_app in Heq. simpl in Heq. lia. }
  set (self0 := mkSelf (Some expected) (pre_execute_files self) (log self)) in *.
  assert (errors self0 = errors self) as H0 by reflexivity.
  destruct (negb (bool_decide (filter _ (iter expected) = []))).
  { simplify_eq. exfalso. refine (Hno _ _ _ _ Herr); [reflexivity|assumption]. }
  destruct (negb (bool_decide (_ = ∅))).
  { simplify_eq. exfalso. refine (Hno _ _ _ _ Herr); [reflexivity|assumption]. }
  destruct (if clean (file r) then clean_files (iter expected) self0 fs else (self0, fs))
    as [self1 fs1] eqn:Hclean.
  assert (errors self1 = errors self) as H1.
  { destruct (clean (file r)); [|by simplify_eq].
    destruct (clean_files_props (iter expected) self0 fs) as (He & _).
    rewrite Hclean in He. simpl in He. by rewrite He. }
  case_bool_decide as Hexist; simpl in Hrun.
  2:{ simplify_eq. exfalso. refine (Hno _ _ _ _ Herr); [reflexivity|assumption]. }
  assert (isfile fs1 f = false) as Hf.
  { by apply (filter_nil_false (isfile fs1) (iter expected)). }
  destruct (_ && negb _).
  { simplify_eq. exfalso. refine (Hno _ _ _ _ Herr); [reflexivity|assumption]. }
  destruct (_ || _); [destruct (base (file r))|]; by simplify_eq.
Qed.

(** A tracked path stops the check with one error, before anything is
    removed. *)
Lemma preExecute_rejects_tracked expected self fs root_dir f :
  Forall (fun fname => isabs fname = true) (iter expected) ->
  truthy (git_root_dir git) = Some root_dir ->
  f ∈ git_ls_files git (default root_dir (truthy (base (file r)))) ->
  f ∈ to_set expected ->
  exists files self',
    preExecute_checks git r expected self fs = inr (self', fs)
    /\ f ∈ files /\ errors self' = errors self ++ [GitTracked files].
Proof.
  intros Habs Hroot Hgit Hexp. unfold preExecute_checks.
  assert (filter (fun fname => negb (isabs fname)) (iter expected) = []) as ->.
  { induction Habs as [|x l Hx Hl IH]; [done|].
    rewrite filter_cons, Hx. simpl. exact IH. }
  rewrite bool_decide_true by done. simpl. rewrite Hroot.
  set (intersect := _ ∩ _).
  assert (f ∈ intersect) as Hf.
  { apply elem_of_intersection. split; [by apply elem_of_list_to_set|done]. }
  rewrite bool_decide_false; simpl.
  2:{ intros Hempty. rewrite Hempty in Hf. by apply not_elem_of_empty in Hf. }
  exists (elements intersect). eexists. split; [reflexivity|].
  split; [apply elem_of_elements, Hf|]. by rewrite errors_emit.
Qed.

(** With 'clean', the check of pre-existing files never fails: cleaning
    leaves no expected file, whatever the file system held. *)
Lemma clean_leaves_absent expected self fs f :
  f ∈ iter expected ->
  isfile (clean_files (iter expected) self fs).2 f = false.
Proof. apply clean_files_absent. Qed.

Lemma preExecute_absent expected self fs self' fs' :
  _getExpectedFiles r = inr expected ->
  preExecute git r self fs = inr (self', fs') ->
  errors self' = errors self ->
  forall f, f ∈ iter expected -> isfile fs' f = false.
Proof.
  unfold preExecute, _preExecuteExpectedFiles. intros ->.
  apply preExecute_checks_absent.
Qed.
End Checks.

(** Without Differs the expected files are the Runner's own names. *)
Lemma getExpectedFiles_no_differs r :
  default [] (differs r) = [] -> _getExpectedFiles r = inr (filenames (file r)).
Proof. unfold _getExpectedFiles. by intros ->. Qed.

(** With 'base' set the expected files are a list: the Runner's names,
    then those of each Differ. *)
Lemma getExpectedFiles_with_base r base_dir :
  base (file r) = Some base_dir ->
  exists l, _getExpectedFiles r = inr (PyList l)
    /\ forall f, f ∈ l <->
         f ∈ iter (filenames (file r))
         \/ exists d, d ∈ default [] (differs r) /\ f ∈ iter (filenames (differ_file d)).
Proof.
  intros Hbase. unfold _getExpectedFiles.
  assert (exists l0, filenames (file r) = PyList l0) as [l0 Hl0].
  { unfold filenames. rewrite Hbase. eauto. }
  rewrite Hl0. simpl.
  generalize (default [] (differs r)) as ds. intros ds. clear Hl0 Hbase. revert l0.
  induction ds as [|d ds IH]; intros l0; simpl.
  - exists l0. split; [done|]. intros f. split; [by left|].
    intros [?|(d & Hd & _)]; [done|by apply elem_of_nil in Hd].
  - destruct (IH (l0 ++ iter (filenames (differ_file d)))) as (l & -> & Hl).
    exists l. split; [done|]. intros f. rewrite Hl, elem_of_app. split.
    + intros [[?|?]|(d' & Hd' & ?)]; [by left|right; exists d|right; exists d'];
        (split; [|done]); [by left|by right].
    + intros [?|(d' & [->|Hd']%elem_of_cons & ?)];
        [by left; left|by left; right|right; by exists d'].
Qed.

(** Without 'base' the names are kept in a set, and a first Differ makes
    [_getExpectedFiles] raise. *)
Lemma getExpectedFiles_set_raises r d ds :
  base (file r) = None -> differs r = Some (d :: ds) ->
  exists what, _getExpectedFiles r = inl (TypeError what).
Proof.
  intros Hbase Hd. unfold _getExpectedFiles, filenames at 2. rewrite Hbase, Hd. simpl.
  clear Hd. eexists. induction ds as [|d' ds IH]; simpl; [reflexivity|exact IH].
Qed.

(** A Runner with 'base' and one expected file that exists: [preExecute]
    removes it, logs no error and records the listing. *)
Example preExecute_cleans :
  let r := mkRunner "run" None (mkFile (Some "/base") (Some ["out.e"]) None true) in
  let fs := mkFS {[ "/base/out.e"; "/base/in.i" ]} "/base" in
  exists self',
    preExecute no_git r init fs = inr (self', mkFS {[ "/base/in.i" ]} "/base")
    /\ log self' = [Removing "/base/out.e"]
    /\ elements <$> pre_execute_files self' = Some ["/base/in.i"].
Proof.
  eexists. split; [vm_compute; reflexivity|]. split; vm_compute; reflexivity.
Qed.

(** C2: a Runner that has Differs and no 'base' (the Runner of
    [test_getExpectedFiles]) never gets the expected files checked:
    [_getExpectedFiles] adds in place to a set, which raises TypeError, so
    [preExecute] logs nothing about the relative name 'runner_1' and
    removes nothing, for any file system and repository. *)
Theorem preExecute_differs_without_base_raises :
  let e := TypeError "unsupported operand type(s) for +=: 'set' and 'set'" in
  _getExpectedFiles runner_with_differs = inl e
  /\ isabs "runner_1" = false
  /\ forall git self fs, preExecute git runner_with_differs self fs = inl e.
Proof. split; [|split]; reflexivity. Qed.

Lemma isabs_first_component s : isabs (first_component s) = false.
Proof.
  destruct s as [|c s]; [done|]. simpl.
  destruct (Ascii.eqb_spec c "/") as [->|Hc]; [done|].
  destruct c as [[] [] [] [] [] [] [] []]; done.
Qed.

Lemma isabs_path_join base_dir n :
  isabs base_dir = true -> isabs (path_join base_dir n) = true.
Proof.
  intros Hb. unfold path_join. destruct (isabs n) eqn:Hn; [done|].
  destruct base_dir as [|c b]; [done|].
  destruct (_ || _); exact Hb.
Qed.

Lemma listdir_not_absolute fs d n : n ∈ listdir fs d -> isabs n = false.
Proof.
  unfold listdir. rewrite elem_of_elements, elem_of_list_to_set, list_elem_of_omap.
  intros (p & _ & Hp). destruct (strip_prefix _ p); simplify_eq/=.
  apply isabs_first_component.
Qed.

(** With an absolute 'base', the names that [postExecute] lists are never
    in the set that [preExecute] recorded: every entry of 'base' counts as
    created. *)
Lemma listing_misses_snapshot fs fs' base_dir :
  isabs base_dir = true ->
  (list_to_set (listdir fs' base_dir) : gset string)
    ∖ list_to_set (map (path_join base_dir) (listdir_cwd fs))
  = list_to_set (listdir fs' base_dir).
Proof.
  intros Hb. apply set_eq. intros n.
  rewrite elem_of_difference, !elem_of_list_to_set. split; [by intros [? _]|].
  intros Hn. split; [done|].
  intros (x & -> & _)%list_elem_of_fmap.
  apply listdir_not_absolute in Hn. by rewrite isabs_path_join in Hn.
Qed.

(** C3: with 'base' set to /base, working directory /work and a file
    /base/old.txt that exists before and after execution, [preExecute]
    records the entries of the working directory joined to 'base', and
    [postExecute] reports old.txt as created, although no file appeared. *)
Theorem postExecute_reports_old_files :
  exists self1 self2,
    preExecute no_git runner_with_base init fs0 = inr (self1, fs0)
    /\ elements <$> pre_execute_files self1 = Some ["/base/w.txt"]
    /\ postExecute runner_with_base self1 fs0 = inr self2
    /\ log self2 = [CreatedNotExpected ["old.txt"]]
    /\ elements (spec_created_unexpected "/base" fs0 fs0 (PySet ∅)) = [].
Proof.
  eexists _, _. split; [vm_compute; reflexivity|].
  split; [vm_compute; reflexivity|].
  split; [vm_compute; reflexivity|].
  split; vm_compute; reflexivity.
Qed.
End RunnerFacts.

(** ** Parser: the duplicate check *)

Module DuplicateFacts.
Import PyStr Parser.

  (** [1] when [p] has been recorded, [0] otherwise. *)
Abbreviation seen p paths := (Nat.b2n (bool_decide (p ∈ paths))).

Lemma occurrences_cons p q l :
    occurrences p (q :: l) = (Nat.b2n (String.eqb q p) + occurrences p l)%nat.
Proof. unfold occurrences. simpl. by destruct (String.eqb q p). Qed.

Lemma occurrences_app p l1 l2 :
    occurrences p (l1 ++ l2) = (occurrences p l1 + occurrences p l2)%nat.
Proof. unfold occurrences. by rewrite List.filter_app, length_app. Qed.

Lemma seen_insert p q (paths : gset string) :
    q ∉ paths ->
    seen p (paths ∪ {[q]}) = (Nat.b2n (String.eqb q p) + seen p paths)%nat.
Proof.
    intros Hq. destruct (String.eqb_spec q p) as [->|Hne]; simpl.
    - rewrite bool_decide_true by (apply elem_of_union_r; by apply elem_of_singleton).
      by rewrite (bool_decide_false (p ∈ paths)).
    - apply f_equal, bool_decide_ext.
      rewrite elem_of_union, elem_of_singleton. naive_solver.
Qed.

Lemma seen_present p q (paths : gset string) :
    q ∈ paths -> seen p paths = Nat.b2n (String.eqb q p) `max` seen p paths.
Proof.
    intros Hq. destruct (String.eqb_spec q p) as [->|Hne]; simpl; [|done].
    by rewrite bool_decide_true.
Qed.

  (** One recorded path: either it is new and becomes seen, or it was seen
      and yields one diagnostic. *)
Lemma check_params_count node p ps : forall paths,
    let '(ys, paths') := check_params node ps paths in
    (occurrences p (map dup_path ys) + seen p paths'
     = occurrences p (map (fun kv => path_join (fullpath node) kv.1) ps) + seen p paths)%nat.
Proof.
    induction ps as [|[key v] ps IH]; intros paths; simpl; [done|].
    set (q := path_join (fullpath node) key).
    case_bool_decide as Hq.
    - specialize (IH paths). destruct (check_params node ps paths) as [ys paths'].
      simpl. rewrite !occurrences_cons. simpl. lia.
    - specialize (IH (paths ∪ {[q]})).
      destruct (check_params node ps (paths ∪ {[q]})) as [ys paths'].
      rewrite occurrences_cons, IH, seen_insert by done. lia.
Qed.

Lemma check_nodes_count p nodes : forall paths,
    let '(ys, paths') := check_nodes nodes paths in
    (occurrences p (map dup_path ys) + seen p paths'
     = occurrences p (flat_map node_paths nodes) + seen p paths)%nat.
Proof.
    induction nodes as [|node nodes IH]; intros paths; simpl; [done|].
    rewrite occurrences_cons, occurrences_app.
    case_bool_decide as Hq.
    - pose proof (check_params_count node p (params node) paths) as Hp.
      destruct (check_params node (params node) paths) as [y2 paths2].
      specialize (IH paths2). destruct (check_nodes nodes paths2) as [y3 paths3].
      simpl. rewrite occurrences_cons, map_app, occurrences_app. simpl. lia.
    - pose proof (check_params_count node p (params node) (paths ∪ {[fullpath node]})) as Hp.
      destruct (check_params node (params node) _) as [y2 paths2].
      specialize (IH paths2). destruct (check_nodes nodes paths2) as [y3 paths3].
      simpl. rewrite map_app, occurrences_app.
      rewrite seen_insert in Hp by done. lia.
Qed.

Lemma check_params_paths node ps : forall paths,
  (check_params node ps paths).2
  = paths ∪ list_to_set (map (fun kv => path_join (fullpath node) kv.1) ps).
Proof.
  induction ps as [|[key v] ps IH]; intros paths; simpl.
  - by rewrite (right_id_L ∅ (∪)).
  - case_bool_decide as Hq.
    + specialize (IH paths). destruct (check_params node ps paths) as [ys paths'].
      simpl in *. subst paths'. apply set_eq. intros x.
      rewrite !elem_of_union, elem_of_singleton. naive_solver.
    + rewrite IH. simpl. apply set_eq. intros x.
      rewrite !elem_of_union, elem_of_singleton. naive_solver.
Qed.

Lemma check_nodes_paths nodes : forall paths,
  (check_nodes nodes paths).2 = paths ∪ list_to_set (flat_map node_paths nodes).
Proof.
  induction nodes as [|node nodes IH]; intros paths; simpl.
  - by rewrite (right_id_L ∅ (∪)).
  - set (paths1 := if bool_decide (fullpath node ∈ paths) then _ else _).
    assert (paths1.2 = paths ∪ {[fullpath node]}) as H1.
    { subst paths1. case_bool_decide; simpl; [|done].
      apply set_eq. intros x. rewrite elem_of_union, elem_of_singleton. naive_solver. }
    destruct paths1 as [y1 paths1]. simpl in H1. subst paths1.
    pose proof (check_params_paths node (params node) (paths ∪ {[fullpath node]})) as H2.
    destruct (check_params node (params node) _) as [y2 paths2]. simpl in H2. subst paths2.
    specialize (IH (paths ∪ {[fullpath node]} ∪
      list_to_set (map (fun kv => path_join (fullpath node) kv.1) (params node)))).
    destruct (check_nodes nodes _) as [y3 paths3]. simpl in *. subst paths3.
    rewrite list_to_set_app_L. apply set_eq. intros x.
    rewrite !elem_of_union, elem_of_singleton. naive_solver.
Qed.

Lemma occurrences_pos p l : p ∈ l <-> (0 < occurrences p l)%nat.
Proof.
  induction l as [|q l IH]; [split; [by intros ?%elem_of_nil|unfold occurrences; simpl; lia]|].
  rewrite occurrences_cons, elem_of_cons.
  destruct (String.eqb_spec q p) as [->|Hne]; simpl; [split; [lia|by left]|].
  rewrite IH. split; [intros [?|?]; [congruence|done]|by right].
Qed.

Lemma occurrences_NoDup p l : NoDup l -> (occurrences p l <= 1)%nat.
Proof.
  induction 1 as [|q l Hq Hl IH]; [unfold occurrences; simpl; lia|].
  rewrite occurrences_cons. destruct (String.eqb_spec q p) as [->|Hne]; simpl; [|done].
  destruct (Nat.eq_dec (occurrences p l) 0) as [->|Hpos]; [done|].
  exfalso. apply Hq, occurrences_pos. lia.
Qed.

(** C4 (amended): [checkDuplicates], which [parse] does not call, yields
    for every full path one diagnostic for each occurrence after the first
    among the paths it records (those of the blocks and of the parameters,
    taken together, in pre-order), and nothing when all recorded paths
    differ. *)
Theorem checkDuplicates_one_per_repeat root :
  (forall p, occurrences p (map dup_path (checkDuplicates root))
             = Nat.pred (occurrences p (recorded_paths root)))
  /\ (NoDup (recorded_paths root) -> checkDuplicates root = []).
Proof.
  assert (forall p, occurrences p (map dup_path (checkDuplicates root))
             = Nat.pred (occurrences p (recorded_paths root))) as Hcount.
  { intros p. unfold checkDuplicates, recorded_paths.
    pose proof (check_nodes_count p (iterate root) ∅) as Hc.
    pose proof (check_nodes_paths (iterate root) ∅) as Hp.
    destruct (check_nodes (iterate root) ∅) as [ys paths']. simpl in *. subst paths'.
    rewrite (bool_decide_false (p ∈ (∅ : gset string))) in Hc by apply not_elem_of_empty.
    simpl in Hc.
    destruct (decide (p ∈ flat_map node_paths (iterate root))) as [Hin|Hout].
    - rewrite bool_decide_true in Hc.
      2:{ apply elem_of_union_r. by apply elem_of_list_to_set. }
      simpl in Hc. lia.
    - rewrite bool_decide_false in Hc.
      2:{ rewrite elem_of_union, elem_of_list_to_set.
          intros [?%not_elem_of_empty|?]; done. }
      simpl in Hc. rewrite occurrences_pos in Hout. lia. }
  split; [exact Hcount|].
  intros Hnd. destruct (checkDuplicates root) as [|d ds] eqn:E; [done|].
  exfalso. specialize (Hcount (dup_path d)).
  pose proof (occurrences_NoDup (dup_path d) _ Hnd) as Hle.
  simpl in Hcount. rewrite occurrences_cons, String.eqb_refl in Hcount.
  simpl in Hcount. lia.
Qed.

(** The theorem at a file without repeated paths. *)
Lemma checkDuplicates_one_per_repeat_witness :
  NoDup (recorded_paths unknown_parameter_file)
  /\ checkDuplicates unknown_parameter_file = [].
Proof.
  assert (NoDup (recorded_paths unknown_parameter_file)) as Hnd.
  { decide_by_compute. }
  split; [exact Hnd|].
  exact (proj2 (checkDuplicates_one_per_repeat unknown_parameter_file) Hnd).
Defined.

(** [[Tests] [a] type = T  x = 1  x = 2 [] []] gives one diagnostic, for
    the parameter path Tests/a/x. *)
Example checkDuplicates_duplicate_parameter :
  map message (checkDuplicates duplicate_parameter_file)
  = ["duplicate parameter " +:+ quoted "Tests/a/x"].
Proof. vm_compute. reflexivity. Qed.

(** C4 (as stated) fails on both counts.  [parse] accepts the file
    [[Tests] [a] type = T  x = 1  x = 2 [] []], in which the parameter path
    Tests/a/x occurs twice, logs nothing and appends the object.  And
    [checkDuplicates] reports a duplicate section for a file in which no
    block path and no parameter path is repeated: the block Tests/a/x and
    the parameter x of Tests/a. *)
Lemma parse_reports_no_duplicate :
  (let st := parse factory_T_params factory_T_create "tests"
               (Some duplicate_parameter_file) (mkSelf [] []) in
   occurrences "Tests/a/x" (parameter_paths duplicate_parameter_file) = 2%nat
   /\ errors st = [] /\ length (warehouse st) = 1%nat)
  /\
  (NoDup (block_paths block_named_as_parameter_file)
   /\ NoDup (parameter_paths block_named_as_parameter_file)
   /\ map message (checkDuplicates block_named_as_parameter_file)
      = ["duplicate section " +:+ quoted "Tests/a/x"]).
Proof.
  split; [vm_compute; done|].
  split; [decide_by_compute|].
  split; [decide_by_compute|].
  vm_compute. reflexivity.
Qed.
End DuplicateFacts.

(** ** Parser: parameters of a block *)

Module ParseNodeFacts.
Import PyStr Parser.

Section Parse.
Context {P Obj : Type} `{ParamSet P}.
Variable factory_params : Value -> option P.
Variable factory_create : Value -> P -> option Obj.
Variable filename : string.

(** The loop of [_parseNode] passes every parameter other than 'type' to
    [params.set], whether or not the parameter set has it. *)
Lemma set_params_sets_all node otype ps : forall params (self : Self (Obj := Obj)),
  (set_params filename node otype ps params self).1
  = foldl (fun p kv => set p kv.1 kv.2) params
          (List.filter (fun kv => negb (String.eqb kv.1 "type")) ps).
Proof.
  induction ps as [|[key value] ps IH]; intros params self; simpl; [done|].
  destruct (String.eqb key "type"); simpl; by rewrite IH.
Qed.

(** Every parameter that the parameter set lacks is reported once, and the
    loop goes on. *)
Lemma set_params_errors node otype ps : forall params (self : Self (Obj := Obj)),
  length (errors (set_params filename node otype ps params self).2)
  <= length (errors self) + length ps.
Proof.
  induction ps as [|[key value] ps IH]; intros params self; simpl; [lia|].
  destruct (String.eqb key "type"); [etrans; [apply IH|lia]|].
  etrans; [apply IH|]. destruct (contains params key); simpl; [lia|].
  rewrite length_app. simpl. lia.
Qed.
End Parse.

(** C6: for the block [[a] type = T  bogus = 1 []] under [Tests], where the
    parameters of T are 'name' and 'x', [_parseNode] reports that 'bogus'
    does not exist and then still calls [params.set('bogus', 1)]; the
    parameter set handed to the factory has received that call. *)
Theorem parseNode_sets_unknown_parameter :
  let st := parse factory_T_params factory_T_create "tests"
              (Some unknown_parameter_file) (mkSelf [] []) in
  errors st = [DoesNotExist "tests" (-1) "bogus" (Str "T")]
  /\ map calls (warehouse st) = [[("name", Str "a"); ("bogus", Int 1)]].
Proof. vm_compute. done. Qed.
End ParseNodeFacts.

(** ** Parser: quoted values in [extractParams] *)

Module ExtractFacts.
Import PyStr Parser.

Lemma quote_before_newline_closing s :
  has_newline s = false -> quote_before_newline (s +:+ String dquote "") = true.
Proof.
  induction s as [|c s IH]; [done|].
  change (String c s +:+ String dquote "") with (String c (s +:+ String dquote "")).
  simpl. intros [Hc Hs]%orb_false_elim. rewrite Hc.
  destruct (Ascii.eqb c dquote); [done|]. by apply IH.
Qed.

Lemma drop_last_closing s c : drop_last (s +:+ String c "") = s.
Proof.
  induction s as [|d s IH]; [done|].
  change (String d s +:+ String c "") with (String d (s +:+ String c "")).
  simpl. rewrite IH. destruct s; reflexivity.
Qed.

Lemma re_match_quoted_quoted s : has_newline s = false -> re_match_quoted (quoted s) = true.
Proof. intros Hs. unfold quoted. simpl. by apply quote_before_newline_closing. Qed.

Lemma slice_quoted s : slice_1_m1 (quoted s) = s.
Proof. unfold quoted. simpl. apply drop_last_closing. Qed.

Section ExtractParams.
Context {Time : Type} (strptime : string -> option Time).
Context {P : Type} `{TesterParams Time P}.

(** On a Parser as [__init__] leaves it, without the attribute
    [params_parsed] (the line that would assign it is commented out),
    [extractParams] raises AttributeError at the first parameter of the
    block, before anything is assigned. *)
Lemma extractParams_without_params_parsed_raises getpot_node key value rest
    (params : P) (self : Legacy) :
  Parser.params getpot_node = (key, value) :: rest ->
  params_parsed self = None ->
  extractParams strptime params getpot_node self = inl (AttributeError "params_parsed").
Proof. intros Hps Hnone. unfold extractParams. rewrite Hps. simpl. by rewrite Hnone. Qed.

(** C5 (amended): in [extractParams], on a Parser whose attribute
    [params_parsed] exists, for a parameter that the parameters object has
    and that is not list-typed, a text between double quotes with no
    newline in it is assigned without the two quotes, exactly, and the loop
    goes on with the parameters that follow; for a block that has this
    parameter only, [extractParams] returns with that assignment followed by
    the one of 'have_errors'. *)
Theorem extractParams_strips_quotes getpot_node key text
    (params : P) (self : Legacy) parsed :
  params_parsed self = Some parsed ->
  has params key = true ->
  type_is_list params key = false ->
  has_newline text = false ->
  let assigned := setitem params key (Scalar (Str text)) in
  let self' :=
    mkLegacy (Some (parsed ∪ {[path_join (fullpath getpot_node) key]})) (reports self) in
  (forall rest have_err local_parsed,
     extract_loop strptime getpot_node ((key, Str (quoted text)) :: rest)
       (params, self, have_err, local_parsed)
     = extract_loop strptime getpot_node rest
         (assigned, self', have_err, local_parsed ∪ {[key]}))
  /\ (Parser.params getpot_node = [(key, Str (quoted text))] ->
      let missing := required_keys assigned ∖ (∅ ∪ {[key]}) in
      extractParams strptime params getpot_node self
      = inr (if negb (bool_decide (missing = ∅))
             then (setitem assigned "have_errors" (Scalar (Bool true)),
                   report (RequiredMissing (elements missing)) self')
             else (setitem assigned "have_errors" (Scalar (Bool false)), self'))).
Proof.
  intros Hparsed Hhas Hlist Htext assigned self'.
  assert (Hstep : forall rest have_err local_parsed,
     extract_loop strptime getpot_node ((key, Str (quoted text)) :: rest)
       (params, self, have_err, local_parsed)
     = extract_loop strptime getpot_node rest
         (assigned, self', have_err, local_parsed ∪ {[key]})).
  { intros rest have_err local_parsed. simpl. rewrite Hparsed.
    unfold extract_one. rewrite Hhas, Hlist. unfold quoted_text.
    rewrite re_match_quoted_quoted, slice_quoted by done. reflexivity. }
  split; [exact Hstep|].
  intros Hps missing. unfold extractParams. rewrite Hps, Hstep. cbn [extract_loop].
  fold missing. by destruct (negb (bool_decide (missing = ∅))).
Qed.
End ExtractParams.

(** The theorem for [key = "x y"]. *)
Lemma extractParams_strips_quotes_witness :
  extractParams (fun _ => None) (key_params false) (quoted_block "x y") legacy_ready
  = inr (mkAssignments [("key", false)]
           [("key", Scalar (Str "x y")); ("have_errors", Scalar (Bool false))],
         mkLegacy (Some {[ "Tests/a/key" ]}) []).
Proof.
  destruct (extractParams_strips_quotes (fun _ => None) (quoted_block "x y") "key" "x y"
              (key_params false) legacy_ready ∅) as [_ Hrun]; [reflexivity..|].
  rewrite (Hrun eq_refl). vm_compute. reflexivity.
Defined.

Example extractParams_x_y :
  assignments_of (extractParams (fun _ => None) (key_params false)
                    (quoted_block "x y") legacy_ready)
  = Some [("key", Scalar (Str "x y")); ("have_errors", Scalar (Bool false))].
Proof. vm_compute. reflexivity. Qed.

(** C5 (as stated) fails: for a list-typed parameter [key = "x y"] assigns
    the two pieces with the quotes left on them, and a quoted text that
    holds a newline is assigned with its quotes. *)
Lemma extractParams_keeps_quotes :
  assignments_of (extractParams (fun _ => None) (key_params true)
                    (quoted_block "x y") legacy_ready)
  = Some [("key", List [String dquote "x"; String "y" (String dquote "")]);
          ("have_errors", Scalar (Bool false))]
  /\
  (let text := String "x" (String newline "y") in
   assignments_of (extractParams (fun _ => None) (key_params false)
                     (quoted_block text) legacy_ready)
   = Some [("key", Scalar (Str (quoted text))); ("have_errors", Scalar (Bool false))]).
Proof. split; vm_compute; reflexivity. Qed.
End ExtractFacts.

(** ** QueueManager *)

Module StringFacts.
Import PyStr.

Lemma strip_prefix_app a b s :
  is_Some (strip_prefix (a +:+ b) s) -> is_Some (strip_prefix a s).
Proof.
  revert s. induction a as [|c a IH]; intros s; [by eauto|].
  change (String c a +:+ b) with (String c (a +:+ b)).
  destruct s as [|d s]; simpl; [by intros [? ?]|].
  destruct (Ascii.eqb c d); [apply IH|by intros [? ?]].
Qed.

Lemma startswith_app a b s : startswith (a +:+ b) s = true -> startswith a s = true.
Proof.
  unfold startswith. intros Hab.
  destruct (strip_prefix_app a b s) as [x ->]; [|done].
  destruct (strip_prefix (a +:+ b) s); [eauto|done].
Qed.

Lemma contains_startswith sub s : startswith sub s = true -> contains sub s = true.
Proof. intros Hs. destruct s; simpl; by rewrite Hs. Qed.

Lemma contains_cons sub c s : contains sub s = true -> contains sub (String c s) = true.
Proof. intros Hs. simpl. rewrite Hs. apply orb_true_r. Qed.

(** Where [c k d] occurs, [k] occurs, one character later. *)
Lemma contains_inner c k d s :
  contains (String c (k +:+ d)) s = true -> contains k s = true.
Proof.
  induction s as [|x s IH]; [done|].
  simpl. intros [Hhere|Hlater]%orb_true_iff.
  - apply contains_cons, contains_startswith, (startswith_app k d).
    unfold startswith in *. simpl in Hhere.
    by destruct (Ascii.eqb c x).
  - by apply contains_cons, IH.
Qed.

(** Replacing a text that does not occur changes nothing. *)
Lemma replace_absent c old new s :
  contains (String c old) s = false -> replace (String c old) new s = s.
Proof.
  unfold replace. induction s as [|x s IH]; [done|].
  intros [Hhere Hlater]%orb_false_elim.
  change (replace_go (String c old) new (String x s) 0)
    with (if startswith (String c old) (String x s)
          then new +:+ replace_go (String c old) new s (String.length (String c old) - 1)
          else String x (replace_go (String c old) new s 0)).
  rewrite Hhere. f_equal. by apply IH.
Qed.
End StringFacts.

Module QueueManagerFacts.
Import PyStr QueueManager StringFacts.

(** The second loop of [createQueueScript] never changes the text: it
    replaces the placeholder of a key only when the upper-cased key does not
    occur in the text, and then the placeholder does not occur either. *)
Lemma strip_unsupplied_id template : forall content,
  strip_unsupplied template content = content.
Proof.
  unfold strip_unsupplied.
  induction template as [|[key value] template IH]; intros content; simpl; [done|].
  destruct (contains (upper key) content) eqn:Hc; simpl; [apply IH|].
  change (placeholder key) with (String "<" (upper key +:+ ">")).
  rewrite replace_absent; [apply IH|].
  destruct (contains (String "<" (upper key +:+ ">")) content) eqn:Hp; [|reflexivity].
  apply contains_inner in Hp. congruence.
Qed.

Lemma render_replace_supplied template content :
  render template content = replace_supplied template content.
Proof. apply strip_unsupplied_id. Qed.

(** C8: with 'launch_script' and 'walltime' supplied and a template file
    that reads [<JOB_NAME> <WALLTIME>], the script written is
    [<JOB_NAME> 10]: the placeholder of the key that was not supplied is
    still there. *)
Theorem createQueueScript_keeps_unsupplied :
  createQueueScript "pbs_template" pbs_template pbs_files
  = Done (<["job.sh" := "<JOB_NAME> 10"]> pbs_files)
  /\ has_placeholder "job_name" "<JOB_NAME> 10" = true
  /\ item pbs_template "job_name" = None.
Proof. split; [|split]; vm_compute; reflexivity. Qed.

Section Dispatch.
Context {Timing : Type}.
Variable getSlots : Job Timing -> Z.

Lemma cheapest_permutation waiting : forall least others,
  cheapest getSlots waiting = Some (least, others) -> waiting ≡ₚ least :: others.
Proof.
  induction waiting as [|job rest IH]; intros least others; simpl; [done|].
  destruct (cheapest getSlots rest) as [[m os]|] eqn:Hrest.
  - destruct (getSlots job <=? getSlots m)%Z; intros [= <- <-]; [done|].
    rewrite (IH m os eq_refl). apply Permutation_swap.
  - intros [= <- <-]. destruct rest as [|x rest]; [done|].
    simpl in Hrest. destruct (cheapest getSlots rest) as [[m os]|]; [|done].
    by destruct (getSlots x <=? getSlots m)%Z.
Qed.

Lemma cheapest_some job rest : is_Some (cheapest getSlots (job :: rest)).
Proof.
  simpl. destruct (cheapest getSlots rest) as [[m os]|]; [|by eexists].
  destruct (getSlots job <=? getSlots m)%Z; by eexists.
Qed.

Lemma dispatch_reserveSlots (self : Scheduler Timing) job others :
  cheapest getSlots (READY self) = Some (job, others) ->
  dispatch getSlots reserveSlots self
  = (mkScheduler (free_slots self) others (handed_over self ++ [job]), Some job).
Proof. intros Hleast. unfold dispatch. by rewrite Hleast. Qed.

(** With [QueueManager.reserveSlots], [n] turns of the dispatcher hand over
    [n] READY jobs, as long as there are that many. *)
Lemma dispatch_turns_reserveSlots n : forall self : Scheduler Timing,
  length (READY self) = n ->
  let self' := dispatch_turns getSlots reserveSlots n self in
  READY self' = []
  /\ handed_over self' ≡ₚ handed_over self ++ READY self
  /\ free_slots self' = free_slots self.
Proof.
  induction n as [|n IH]; intros self Hlen; simpl.
  { apply nil_length_inv in Hlen. rewrite Hlen, app_nil_r. done. }
  destruct (READY self) as [|job rest] eqn:Hready; [done|].
  destruct (cheapest_some job rest) as [[least others] Hleast].
  apply cheapest_permutation in Hleast as Hperm. rewrite <- Hready in Hleast.
  rewrite (dispatch_reserveSlots self least others Hleast). cbn [fst].
  match goal with |- context [dispatch_turns _ _ n ?s] => destruct (IH s) as (H1 & H2 & H3) end.
  { simpl. apply Permutation_length in Hperm. simpl in *. lia. }
  split; [exact H1|]. split; [|exact H3].
  rewrite H2. simpl. rewrite Hperm, <- app_assoc. done.
Qed.

(** C10: [QueueManager.reserveSlots] answers True for every job and lock
    and leaves the scheduler as it is; so, whatever the slot demands of the
    jobs and whatever the slot budget, a turn of the dispatcher with READY
    jobs always hands one over, and as many turns as there are READY jobs
    hand all of them over, with the free slots unchanged: no dispatch is
    blocked or deferred. *)
Theorem reserveSlots_never_defers :
  (forall (self : Scheduler Timing) job j_lock, reserveSlots self job j_lock = (true, self))
  /\ (forall self : Scheduler Timing,
        READY self <> [] ->
        exists job others,
          cheapest getSlots (READY self) = Some (job, others)
          /\ dispatch getSlots reserveSlots self
             = (mkScheduler (free_slots self) others (handed_over self ++ [job]), Some job))
  /\ (forall self : Scheduler Timing,
        let self' := dispatch_turns getSlots reserveSlots (length (READY self)) self in
        READY self' = []
        /\ handed_over self' ≡ₚ handed_over self ++ READY self
        /\ free_slots self' = free_slots self).
Proof.
  split; [done|]. split.
  - intros self Hready.
    destruct (READY self) as [|job rest] eqn:Hr; [done|].
    destruct (cheapest_some job rest) as [[least others] Hleast].
    exists least, others. split; [done|].
    apply dispatch_reserveSlots. by rewrite Hr.
  - intros self. by apply dispatch_turns_reserveSlots.
Qed.
End Dispatch.

(** For comparison, the Scheduler's own [reserveSlots]: with one free slot
    a job that asks for two is deferred, where [QueueManager.reserveSlots]
    hands it over, then and with no free slot at all. *)
Example dispatch_with_budget :
  let slots := fun _ : Job Z => 2%Z in
  let job := fresh_job "a" no_status in
  dispatch slots (Scheduler_reserveSlots slots) (mkScheduler 1 [job] [])
  = (mkScheduler 1 [job] [], None)
  /\ dispatch slots reserveSlots (mkScheduler 1 [job] []) = (mkScheduler 1 [] [job], Some job)
  /\ dispatch slots reserveSlots (mkScheduler 0 [job] []) = (mkScheduler 0 [] [job], Some job).
Proof. by vm_compute. Qed.

Section Reap.
Context {Timing : Type} `{IsZero Timing}.

Lemma encode_ascii_ignore_ascii (s : string) :
  is_ascii s = true -> encode_ascii_ignore s = s.
Proof.
  induction s as [|c s IH]; simpl; [done|].
  intros [Hc Hs]%andb_true_iff. rewrite Hc. f_equal. by apply IH.
Qed.

Lemma texts_nil (l : list (Json Timing)) cs : texts l = Some cs -> (l = [] <-> cs = []).
Proof.
  destruct l as [|v l]; simpl; [by intros [= <-]|].
  destruct v; try done. destruct (texts l); simpl; [|done]. by intros [= <-].
Qed.

(** What an entry with the five fields holds. *)
Lemma full_entry_fields (v : Json Timing) e :
  full_entry v = Some e ->
  exists items listed,
    v = JDict items
    /\ dict_get items "STATUS" = Some (JStr (STATUS e))
    /\ dict_get items "COLOR" = Some (JStr (COLOR e))
    /\ dict_get items "TIMING" = Some (TIMING e)
    /\ dict_get items "CAVEATS" = Some (JList listed)
    /\ texts listed = Some (CAVEATS e)
    /\ dict_get items "OUTPUT" = Some (OUTPUT e).
Proof.
  unfold full_entry. intros Hv. repeat case_match; simplify_eq. simpl. eauto 10.
Qed.

(** What the loop body does to one job, when the entry that decides for it
    has the five fields. *)
Lemma set_one_spec (group : list (string * Json Timing)) (job : Job Timing) :
  (isSilent (getTester job) = false ->
   forall v, results_of group (getTestName job) = Some v -> is_Some (full_entry v)) ->
  exists job',
    set_one (JDict group) job = (job', None)
    /\ getTestName job' = getTestName job /\ getTestDir job' = getTestDir job
    /\ job_status job' = finished /\ meta job' = meta job
    /\ (if isSilent (getTester job)
        then getTester job' = getTester job /\ previous_time job' = previous_time job
             /\ output job' = output job
        else match results_of group (getTestName job) with
             | Some v =>
                 exists e, full_entry v = Some e
                 /\ tester_status (getTester job')
                    = Created (encode_ascii_ignore (STATUS e)) (encode_ascii_ignore (COLOR e))
                 /\ caveats (getTester job') = caveats (getTester job) ++ joined_caveats e
                 /\ previous_time job' = Some (TIMING e)
                 /\ output job' = Some (OUTPUT e)
             | None =>
                 tester_status (getTester job') = skip
                 /\ caveats (getTester job')
                    = caveats (getTester job) ++ ["not originally launched"]
                 /\ previous_time job' = previous_time job
                 /\ output job' = output job
             end).
Proof.
  intros Hwf. unfold set_one. cbn [set_finished getTester getTestName].
  destruct (isSilent (getTester job)) eqn:Hsilent.
  { eexists. split; [reflexivity|]. done. }
  specialize (Hwf eq_refl). cbn [get_or_empty].
  unfold results_of in *.
  destruct (dict_get group (getTestName job)) as [v|] eqn:Hget;
    unfold default; cbn [from_option]; unfold id.
  2:{ cbn [truthy]. eexists. split; [reflexivity|]. done. }
  destruct (truthy v) eqn:Htruthy.
  2:{ eexists. split; [reflexivity|]. done. }
  destruct (Hwf v eq_refl) as [e He].
  destruct (full_entry_fields v e He)
    as (items & listed & -> & Hstatus & Hcolor & Htiming & Hcaveats & Htexts & Hout).
  unfold encoded_item. cbn [subscript]. rewrite Hstatus, Hcolor, Htiming, Hcaveats, Hout.
  cbn [encode join_spaces]. rewrite Htexts.
  pose proof (texts_nil listed (CAVEATS e) Htexts) as Hnil.
  unfold joined_caveats.
  destruct listed as [|x listed]; cbn [truthy].
  - eexists. split; [reflexivity|]. do 4 (split; [done|]).
    exists e. rewrite (proj1 Hnil eq_refl). cbn. by rewrite app_nil_r.
  - destruct (CAVEATS e) as [|c cs] eqn:Hcs; [by destruct Hnil as [_ Hn]; specialize (Hn eq_refl)|].
    eexists. split; [reflexivity|]. do 4 (split; [done|]).
    exists e. rewrite Hcs. done.
Qed.

(** The loop, when every job meets the condition of [set_one_spec]. *)
Lemma set_all_spec (group : list (string * Json Timing)) (job_list : list (Job Timing)) :
  Forall (fun job => isSilent (getTester job) = false ->
            forall v, results_of group (getTestName job) = Some v -> is_Some (full_entry v))
         job_list ->
  exists jobs',
    set_all (JDict group) job_list = (jobs', None)
    /\ Forall2 (fun job job' => set_one (JDict group) job = (job', None)) job_list jobs'.
Proof.
  induction 1 as [|job rest Hjob _ (rest' & Hrest & Hall)]; simpl; [by eexists|].
  destruct (set_one_spec group job Hjob) as (job' & Hone & _).
  rewrite Hone, Hrest. eexists. split; [reflexivity|]. by constructor.
Qed.

(** The reap pass goes on to [_setJobStatus] only when the session has data
    for the directory and the plugin and the results file exists; the jobs
    are then still untouched. *)
Lemma isProcessReady_true (job_data : JobData Timing) results_file_exists :
  (_isProcessReady job_data results_file_exists).1 = true ->
  (_isProcessReady job_data results_file_exists).2 = jobs job_data
  /\ nonempty (stored_group job_data) = true
  /\ nonempty (stored_plugin job_data) = true
  /\ results_file_exists = true.
Proof.
  unfold _isProcessReady.
  destruct (nonempty (json_data job_data)); simpl; [|done].
  destruct (nonempty (stored_group job_data)); simpl; [|done].
  destruct results_file_exists; simpl; [|done].
  destruct (nonempty (stored_plugin job_data)); simpl; done.
Qed.

Lemma storage_item_stored (job_data : JobData Timing) stored :
  stored_plugin job_data = Some stored -> storage_item job_data = inr stored.
Proof.
  unfold stored_plugin, stored_group, storage_item.
  destruct (json_data job_data) as [m|]; [|done].
  destruct (m !! job_dir job_data) as [g|]; [|done]. by intros ->.
Qed.

(** C9 (amended): when the results file is JSON and has the directory of
    the group with a dictionary of results, the session data has the data of
    the plugin for the directory, and every job that is not silent and for
    which the results have an entry that is not empty has there the five
    fields, with texts for STATUS and COLOR and a list of texts for
    CAVEATS: [_setJobStatus] raises nothing and leaves every job of the
    group finished, under its name and directory; the first job has the
    stored data of the plugin added to its metadata, and no other metadata
    changes; a job whose tester is silent is otherwise left as it was; any
    other job with such an entry gets the status made from STATUS and
    COLOR (without their characters outside ASCII), TIMING and OUTPUT as
    they are, and, when CAVEATS is not empty, one caveat: its items joined
    by spaces; any other job is set to skip with the caveat
    'not originally launched', its time and output left as they were. *)
Theorem setJobStatus_applies_results (job_data : JobData Timing)
    (results : Json Timing) group stored :
  subscript results (job_dir job_data) = inr (JDict group) ->
  stored_plugin job_data = Some stored ->
  (forall job v, job ∈ jobs job_data -> isSilent (getTester job) = false ->
     results_of group (getTestName job) = Some v -> is_Some (full_entry v)) ->
  exists jobs',
    _setJobStatus job_data (Loaded results) = (jobs', None)
    /\ length jobs' = length (jobs job_data)
    /\ forall i job job', jobs job_data !! i = Some job -> jobs' !! i = Some job' ->
         getTestName job' = getTestName job /\ getTestDir job' = getTestDir job
         /\ job_status job' = finished
         /\ meta job'
            = meta job ++ (if i is O then [(plugin job_data, MetaStored stored)] else [])
         /\ (if isSilent (getTester job)
             then getTester job' = getTester job /\ previous_time job' = previous_time job
                  /\ output job' = output job
             else match results_of group (getTestName job) with
                  | Some v =>
                      exists e, full_entry v = Some e
                      /\ tester_status (getTester job')
                         = Created (encode_ascii_ignore (STATUS e))
                                   (encode_ascii_ignore (COLOR e))
                      /\ caveats (getTester job')
                         = caveats (getTester job) ++ joined_caveats e
                      /\ previous_time job' = Some (TIMING e)
                      /\ output job' = Some (OUTPUT e)
                  | None =>
                      tester_status (getTester job') = skip
                      /\ caveats (getTester job')
                         = caveats (getTester job) ++ ["not originally launched"]
                      /\ previous_time job' = previous_time job
                      /\ output job' = output job
                  end).
Proof.
  intros Hgroup Hstored Hwf. unfold _setJobStatus.
  destruct (jobs job_data) as [|first rest] eqn:Hjobs.
  { exists []. split; [done|]. split; [done|]. intros i job job' Hi.
    by rewrite lookup_nil in Hi. }
  rewrite Hgroup, (storage_item_stored _ _ Hstored).
  set (first' := addMetaData first (plugin job_data) (MetaStored stored)).
  assert (Hall : Forall (fun job => isSilent (getTester job) = false ->
                   forall v, results_of group (getTestName job) = Some v ->
                             is_Some (full_entry v)) (first' :: rest)).
  { apply Forall_cons. split.
    - intros Hs v Hv. apply (Hwf first v); [by left|done|done].
    - apply Forall_forall. intros job Hjob Hs v Hv. apply (Hwf job v); [by right|done|done]. }
  destruct (set_all_spec group (first' :: rest) Hall) as (jobs' & Hrun & Hones).
  exists jobs'. split; [done|].
  split; [by rewrite <- (Forall2_length _ _ _ Hones)|].
  intros i job job' Hi Hi'.
  destruct i as [|i].
  - simpl in Hi. injection Hi as <-.
    destruct (Forall2_lookup_l _ _ _ 0 first' Hones eq_refl) as (j & Hj & Hone).
    rewrite Hi' in Hj. injection Hj as <-.
    destruct (set_one_spec group first') as (j & Hone' & Hfacts).
    { intros Hs v Hv. apply (Hwf first v); [by left|done|done]. }
    rewrite Hone in Hone'. injection Hone' as <-. exact Hfacts.
  - simpl in Hi.
    destruct (Forall2_lookup_l _ _ _ (S i) job Hones Hi) as (j & Hj & Hone).
    rewrite Hi' in Hj. injection Hj as <-.
    destruct (set_one_spec group job) as (j & Hone' & Hfacts).
    { intros Hs v Hv. apply (Hwf job v); [|done|done].
      right. by apply list_elem_of_lookup_2 in Hi. }
    rewrite Hone in Hone'. injection Hone' as <-.
    destruct Hfacts as (? & ? & ? & -> & ?). rewrite app_nil_r. done.
Qed.

(** A results file that is not JSON: the handler of ValueError raises
    TypeError, and every job is left as it was, none of them finished by
    this method. *)
Lemma setJobStatus_not_json (job_data : JobData Timing) :
  jobs job_data <> [] ->
  _setJobStatus job_data NotJson
  = (jobs job_data, Some (TypeErr "'str' object is not callable")).
Proof. unfold _setJobStatus. by destruct (jobs job_data). Qed.

(** A results file without the directory: KeyError, and every job is left
    as it was. *)
Lemma setJobStatus_without_directory (job_data : JobData Timing) items :
  jobs job_data <> [] ->
  dict_get items (job_dir job_data) = None ->
  _setJobStatus job_data (Loaded (JDict items))
  = (jobs job_data, Some (KeyErr (job_dir job_data))).
Proof. unfold _setJobStatus. intros Hjobs Hnone. destruct (jobs job_data); [done|]. simpl. by rewrite Hnone. Qed.
End Reap.

(** The theorem for a group of three jobs. *)
Lemma setJobStatus_applies_results_witness :
  exists jobs',
    _setJobStatus group_data (Loaded group_file) = (jobs', None)
    /\ length jobs' = 3%nat
    /\ summary jobs'
       = [("a", finished, Created "FAIL" "RED", ["slow big"]);
          ("s", finished, silent, []);
          ("n", finished, skip, ["not originally launched"])]
    /\ map meta jobs' = [[("QM", MetaStored {[ "ID" := "1" ]})]; []; []].
Proof.
  destruct (setJobStatus_applies_results group_data group_file group_results
              {[ "ID" := "1" ]}) as (jobs' & Hrun & Hlen & _).
  - reflexivity.
  - reflexivity.
  - intros job v Hjob Hsilent.
    assert (getTestName job = "a" \/ getTestName job = "n") as [-> | ->].
    { apply list_elem_of_In in Hjob. simpl in Hjob.
      destruct Hjob as [<-|[<-|[<-|[]]]]; [by left|done|by right]. }
    + intros [= <-]. by eexists.
    + done.
  - exists jobs'. split; [done|]. split; [done|].
    assert (jobs' = (_setJobStatus group_data (Loaded group_file)).1) as -> by by rewrite Hrun.
    split; vm_compute; reflexivity.
Defined.

(** C9 (as stated) fails for a job whose tester is silent: the job [s],
    for which the results file has an entry with STATUS FAIL, keeps its
    silent status, and a silent job that the file lacks is not set to skip;
    and the two caveats of [a] are not applied as they are but joined into
    one. *)
Lemma setJobStatus_leaves_silent_jobs :
  (exists e, results_of group_results "s" ≫= full_entry = Some e /\ STATUS e = "FAIL")
  /\ (exists e, results_of group_results "a" ≫= full_entry = Some e
                /\ CAVEATS e = ["slow"; "big"])
  /\ (_setJobStatus group_data (Loaded group_file)).2 = None
  /\ summary (_setJobStatus group_data (Loaded group_file)).1
     = [("a", finished, Created "FAIL" "RED", ["slow big"]);
        ("s", finished, silent, []);
        ("n", finished, skip, ["not originally launched"])]
  /\ (_setJobStatus
        (mkJobData [fresh_job "q" silent] "/t" (json_data group_data) "QM")
        (Loaded group_file)).2 = None
  /\ summary (_setJobStatus
               (mkJobData [fresh_job "q" silent] "/t" (json_data group_data) "QM")
               (Loaded group_file)).1
     = [("q", finished, silent, [])].
Proof.
  split; [eexists; split; vm_compute; reflexivity|].
  split; [eexists; split; vm_compute; reflexivity|].
  repeat split; vm_compute; reflexivity.
Qed.

(** An entry that lacks TIMING: the loop raises KeyError at the job [a],
    after it has finished the job and set its status; the jobs after it
    are left on hold. *)
Example setJobStatus_without_timing :
  (_setJobStatus group_data (Loaded group_file_without_timing)).2 = Some (KeyErr "TIMING")
  /\ summary (_setJobStatus group_data (Loaded group_file_without_timing)).1
     = [("a", finished, Created "FAIL" "RED", []);
        ("s", hold, silent, []);
        ("n", hold, no_status, [])].
Proof. split; vm_compute; reflexivity. Qed.
End QueueManagerFacts.

(* ===================================================================== *)
(** * Further properties of the sources *)
(* ===================================================================== *)

(** ** Runner: what [preExecute] and [postExecute] do to the files *)

Module RunnerMore.
Import PyStr Runner RunnerFacts.

(** Cleaning removes exactly the paths it is given. *)
Lemma clean_files_removed files : forall self fs,
  fs_cwd (clean_files files self fs).2 = fs_cwd fs
  /\ fs_files (clean_files files self fs).2
     = fs_files fs ∖ list_to_set (map (abspath fs) files).
Proof.
  induction files as [|f files IH]; intros self fs; simpl.
  - split; [done|]. apply set_eq. intros x.
    rewrite elem_of_difference, elem_of_empty. naive_solver.
  - destruct (isfile fs f) eqn:Hf.
    + destruct (IH (emit (Removing f) self) (remove fs f)) as [-> ->].
      split; [done|]. unfold remove, abspath. simpl.
      apply set_eq. intros x.
      rewrite !elem_of_difference, elem_of_union, elem_of_singleton, !elem_of_list_to_set.
      naive_solver.
    + destruct (IH self fs) as [-> ->]. split; [done|].
      apply bool_decide_eq_false in Hf.
      apply set_eq. intros x.
      rewrite !elem_of_difference, elem_of_union, elem_of_singleton, !elem_of_list_to_set.
      naive_solver.
Qed.

Section Checks.
Variable git : Git.
Variable r : Runner.

(** X1: when some expected path is not absolute, [preExecute] logs one
    error that lists exactly the expected paths that are not absolute, and
    leaves the file system as it is. *)
Theorem preExecute_lists_relative_paths expected self fs f :
  _getExpectedFiles r = inr expected ->
  f ∈ iter expected -> isabs f = false ->
  exists files self',
    preExecute git r self fs = inr (self', fs)
    /\ errors self' = errors self ++ [NotAbsolute files]
    /\ (forall g, g ∈ files <-> g ∈ iter expected /\ isabs g = false).
Proof.
  intros Hexp Hin Habs.
  unfold preExecute, _preExecuteExpectedFiles. rewrite Hexp.
  unfold preExecute_checks.
  set (non_abs := filter _ (iter expected)).
  assert (forall g, g ∈ non_abs <-> g ∈ iter expected /\ isabs g = false) as Hfiles.
  { intros g. unfold non_abs. rewrite list_elem_of_filter.
    destruct (isabs g); simpl; naive_solver. }
  case_bool_decide as Hnil.
  { exfalso. assert (f ∈ non_abs) as Hf by by apply Hfiles.
    rewrite Hnil in Hf. by apply elem_of_nil in Hf. }
  simpl. exists non_abs. eexists. split; [reflexivity|].
  split; [by rewrite errors_emit|exact Hfiles].
Qed.

(** X2: when all expected paths are absolute and one of them is among the
    files that git lists, [preExecute] logs one error that lists exactly the
    expected paths that git tracks, and removes nothing. *)
Theorem preExecute_lists_tracked_paths expected self fs root_dir f :
  _getExpectedFiles r = inr expected ->
  Forall (fun fname => isabs fname = true) (iter expected) ->
  truthy (git_root_dir git) = Some root_dir ->
  f ∈ git_ls_files git (default root_dir (truthy (base (file r)))) ->
  f ∈ to_set expected ->
  exists files self',
    preExecute git r self fs = inr (self', fs)
    /\ errors self' = errors self ++ [GitTracked files]
    /\ (forall g, g ∈ files <->
          g ∈ git_ls_files git (default root_dir (truthy (base (file r))))
          /\ g ∈ to_set expected).
Proof.
  intros Hexp Habs Hroot Hgit Hf.
  unfold preExecute, _preExecuteExpectedFiles. rewrite Hexp.
  unfold preExecute_checks.
  assert (filter (fun fname => negb (isabs fname)) (iter expected) = []) as ->.
  { induction Habs as [|x l Hx Hl IH]; [done|].
    rewrite filter_cons, Hx. simpl. exact IH. }
  rewrite bool_decide_true by done. simpl. rewrite Hroot.
  set (intersect := _ ∩ _).
  assert (forall g, g ∈ elements intersect <->
            g ∈ git_ls_files git (default root_dir (truthy (base (file r))))
            /\ g ∈ to_set expected) as Hfiles.
  { intros g. unfold intersect.
    by rewrite elem_of_elements, elem_of_intersection, elem_of_list_to_set. }
  rewrite bool_decide_false; simpl.
  2:{ intros Hempty. assert (f ∈ elements intersect) as Hin by by apply Hfiles.
      rewrite Hempty, elements_empty in Hin. by apply elem_of_nil in Hin. }
  exists (elements intersect). eexists. split; [reflexivity|].
  split; [by rewrite errors_emit|exact Hfiles].
Qed.

(** X3: whenever [preExecute] returns without having logged an error, no
    expected file exists. *)
Theorem preExecute_without_error_leaves_none expected self fs self' fs' :
  _getExpectedFiles r = inr expected ->
  preExecute git r self fs = inr (self', fs') ->
  errors self' = errors self ->
  forall f, f ∈ iter expected -> isfile fs' f = false.
Proof.
  unfold preExecute, _preExecuteExpectedFiles. intros ->.
  apply preExecute_checks_absent.
Qed.

(** X4: with 'clean' on, absolute expected paths that git does not track,
    and 'base' set whenever 'check_created' is on, [preExecute] logs no
    error, whatever files exist beforehand, and afterwards no expected file
    exists. *)
Theorem preExecute_clean_never_fails expected self fs :
  _getExpectedFiles r = inr expected ->
  Forall (fun fname => isabs fname = true) (iter expected) ->
  (forall root_dir f, truthy (git_root_dir git) = Some root_dir ->
     f ∈ git_ls_files git (default root_dir (truthy (base (file r)))) ->
     f ∉ to_set expected) ->
  clean (file r) = true ->
  (check_created (file r) = Some true -> is_Some (base (file r))) ->
  exists self' fs',
    preExecute git r self fs = inr (self', fs')
    /\ errors self' = errors self
    /\ forall f, f ∈ iter expected -> isfile fs' f = false.
Proof.
  intros Hexp Habs Hgit Hclean Hcc.
  unfold preExecute, _preExecuteExpectedFiles. rewrite Hexp.
  unfold preExecute_checks.
  assert (filter (fun fname => negb (isabs fname)) (iter expected) = []) as ->.
  { induction Habs as [|x l Hx Hl IH]; [done|].
    rewrite filter_cons, Hx. simpl. exact IH. }
  rewrite bool_decide_true by done. simpl.
  set (intersect := match truthy (git_root_dir git) with Some _ => _ | None => _ end).
  assert (intersect = ∅) as ->.
  { unfold intersect. destruct (truthy (git_root_dir git)) as [root_dir|] eqn:Hroot; [|done].
    apply set_eq. intros x. rewrite elem_of_intersection, elem_of_list_to_set, elem_of_empty.
    split; [|done]. intros [Hx1 Hx2]. by apply (Hgit root_dir x). }
  rewrite bool_decide_true by done. simpl. rewrite Hclean.
  set (self0 := mkSelf (Some expected) (pre_execute_files self) (log self)).
  destruct (clean_files (iter expected) self0 fs) as [self1 fs1] eqn:Hc.
  assert (forall f, f ∈ iter expected -> isfile fs1 f = false) as Habsent.
  { intros f Hf. pose proof (clean_files_absent (iter expected) self0 fs f Hf) as Ha.
    by rewrite Hc in Ha. }
  assert (errors self1 = errors self) as Herr.
  { destruct (clean_files_props (iter expected) self0 fs) as (He & _).
    by rewrite Hc in He. }
  assert (filter (fun fname => isfile fs1 fname) (iter expected) = []) as ->.
  { clear -Habsent. induction (iter expected) as [|x l IH]; [done|].
    rewrite filter_cons, Habsent by by left. simpl. apply IH.
    intros f Hf. apply Habsent. by right. }
  rewrite bool_decide_true by done. simpl.
  destruct (check_created (file r)) as [[]|] eqn:Hcheck;
    destruct (base (file r)) as [b|] eqn:Hb; simpl;
    repeat (case_bool_decide; simpl); simplify_eq;
    try (eexists _, _; split; [reflexivity|by split]).
  all: try (by destruct (Hcc eq_refl) as [? ?]).
  all: try (exfalso; eauto).
Qed.

(** X5: [preExecute] creates no file, keeps the working directory, and
    removes nothing but expected files; without 'clean' it removes
    nothing. *)
Theorem preExecute_removes_only_expected expected self fs self' fs' :
  _getExpectedFiles r = inr expected ->
  preExecute git r self fs = inr (self', fs') ->
  fs_cwd fs' = fs_cwd fs
  /\ fs_files fs' ⊆ fs_files fs
  /\ (forall p, p ∈ fs_files fs -> p ∉ map (abspath fs) (iter expected) ->
        p ∈ fs_files fs')
  /\ (clean (file r) = false -> fs' = fs).
Proof.
  intros Hexp. unfold preExecute, _preExecuteExpectedFiles. rewrite Hexp.
  unfold preExecute_checks.
  assert (fs_cwd fs = fs_cwd fs /\ fs_files fs ⊆ fs_files fs
          /\ (forall p, p ∈ fs_files fs -> p ∉ map (abspath fs) (iter expected) ->
                p ∈ fs_files fs)
          /\ (clean (file r) = false -> fs = fs)) as Hsame by done.
  destruct (negb (bool_decide (filter _ (iter expected) = []))); [by intros [= <- <-]|].
  destruct (negb (bool_decide (_ = ∅))); [by intros [= <- <-]|].
  set (self0 := mkSelf (Some expected) (pre_execute_files self) (log self)).
  destruct (if clean (file r) then clean_files (iter expected) self0 fs else (self0, fs))
    as [self1 fs1] eqn:Hc.
  assert (fs_cwd fs1 = fs_cwd fs /\ fs_files fs1 ⊆ fs_files fs
          /\ (forall p, p ∈ fs_files fs -> p ∉ map (abspath fs) (iter expected) ->
                p ∈ fs_files fs1)
          /\ (clean (file r) = false -> fs1 = fs)) as H1.
  { destruct (clean (file r)); [|by simplify_eq].
    destruct (clean_files_removed (iter expected) self0 fs) as [Hcwd Hfiles].
    rewrite Hc in Hcwd, Hfiles. simpl in *. rewrite Hfiles.
    split; [done|]. split; [apply subseteq_difference_l; done|]. split; [|done].
    intros p Hp Hnot. apply elem_of_difference. split; [done|].
    by rewrite elem_of_list_to_set. }
  destruct (negb (bool_decide (filter _ (iter expected) = []))); [by intros [= <- <-]|].
  destruct (_ && negb _); [by intros [= <- <-]|].
  destruct (_ || _); [destruct (base (file r))|]; [|done|]; by intros [= <- <-].
Qed.

(** X6: with 'base' set, the expected files are a list that holds the
    Runner's names and those of every Differ, and nothing else. *)
Theorem expected_files_with_base base_dir :
  base (file r) = Some base_dir ->
  exists l, _getExpectedFiles r = inr (PyList l)
    /\ forall f, f ∈ l <->
         f ∈ iter (filenames (file r))
         \/ exists d, d ∈ default [] (differs r) /\ f ∈ iter (filenames (differ_file d)).
Proof. apply getExpectedFiles_with_base. Qed.

(** X7: without 'base', a Runner that has at least one Differ cannot have
    its expected files computed: [_getExpectedFiles] raises TypeError, and
    so does [preExecute], before any check. *)
Theorem expected_files_without_base_raise d ds self fs :
  base (file r) = None -> differs r = Some (d :: ds) ->
  exists what, _getExpectedFiles r = inl (TypeError what)
    /\ preExecute git r self fs = inl (TypeError what).
Proof.
  intros Hb Hd. destruct (getExpectedFiles_set_raises r d ds Hb Hd) as [what Hw].
  exists what. split; [done|].
  unfold preExecute, _preExecuteExpectedFiles. by rewrite Hw.
Qed.

(** X9: with an absolute 'base', expected files that are absolute and
    exist, and the snapshot that [preExecute] takes (names joined to
    'base'), [postExecute] reports every entry of 'base' as created but not
    expected, and logs nothing only when 'base' is empty. *)
Theorem postExecute_reports_every_entry self fs base_dir expected snapshot :
  base (file r) = Some base_dir -> isabs base_dir = true ->
  expected_files self = Some expected ->
  Forall (fun f => isabs f = true /\ isfile fs f = true) (iter expected) ->
  pre_execute_files self = Some (list_to_set (map (path_join base_dir) snapshot)) ->
  postExecute r self fs
  = inr (if bool_decide (listdir fs base_dir = []) then self
         else emit (CreatedNotExpected (listdir fs base_dir)) self).
Proof.
  intros Hb Habs Hexp Hall Hpre.
  unfold postExecute, _postExecuteExpectedFiles. rewrite Hexp.
  assert (filter (fun fname => negb (isfile fs fname)) (iter expected) = []) as ->.
  { induction Hall as [|x l [_ Hx] Hl IH]; [done|].
    rewrite filter_cons, Hx. simpl. exact IH. }
  rewrite bool_decide_true by done. simpl. rewrite Hpre, Hb.
  set (listing := list_to_set (listdir fs base_dir) : gset string).
  assert (forall n, n ∈ listing -> isabs n = false) as Hrel.
  { intros n Hn. apply elem_of_list_to_set in Hn. by eapply listdir_not_absolute. }
  assert (listing ∖ list_to_set (map (path_join base_dir) snapshot) = listing) as ->.
  { apply set_eq. intros n. rewrite elem_of_difference. split; [by intros [? _]|].
    intros Hn. split; [done|]. rewrite elem_of_list_to_set.
    intros (x & -> & _)%list_elem_of_fmap.
    apply Hrel in Hn. by rewrite isabs_path_join in Hn. }
  assert (forall n, n ∈ to_set expected -> isabs n = true) as Hexpabs.
  { intros n Hn. rewrite Forall_forall in Hall. apply Hall.
    destruct expected; simpl in *;
      [by apply elem_of_elements|by apply elem_of_list_to_set in Hn]. }
  assert (listing ∖ to_set expected = listing) as ->.
  { apply set_eq. intros n. rewrite elem_of_difference. split; [by intros [? _]|].
    intros Hn. split; [done|]. intros Hn'. apply Hrel in Hn. apply Hexpabs in Hn'. congruence. }
  assert (elements listing = listdir fs base_dir) as ->.
  { unfold listing, listdir. by rewrite list_to_set_elements_L. }
  assert (listing = ∅ <-> listdir fs base_dir = []) as Hempty.
  { unfold listing. split.
    - intros He. destruct (listdir fs base_dir) as [|n l]; [done|].
      exfalso. assert (n ∈ (∅ : gset string)) as Hn; [|by apply elem_of_empty in Hn].
      rewrite <- He. apply elem_of_list_to_set. by left.
    - by intros ->. }
  destruct (decide (listdir fs base_dir = [])) as [Hnil|Hnil].
  - rewrite (bool_decide_true (listing = ∅)) by by apply Hempty.
    by rewrite (bool_decide_true (listdir fs base_dir = [])).
  - rewrite (bool_decide_false (listing = ∅)) by by rewrite Hempty.
    rewrite (bool_decide_false (listdir fs base_dir = [])) by done.
    rewrite (bool_decide_false (to_set expected = listing)); [done|].
    intros Heq. destruct (listdir fs base_dir) as [|n l] eqn:Hl; [done|].
    assert (n ∈ listing) as Hn.
    { unfold listing. apply elem_of_list_to_set. by left. }
    pose proof (Hrel n Hn) as H1. rewrite <- Heq in Hn. apply Hexpabs in Hn. congruence.
Qed.
End Checks.

(** X8: with an absolute 'base', every name that [Runner.filenames]
    returns is absolute. *)
Theorem filenames_absolute_with_base f base_dir :
  base f = Some base_dir -> isabs base_dir = true ->
  Forall (fun fname => isabs fname = true) (iter (filenames f)).
Proof.
  intros Hb Habs. unfold filenames. rewrite Hb. simpl.
  apply Forall_forall. intros n (x & -> & _)%list_elem_of_fmap.
  destruct (isabs x) eqn:Hx; [done|]. by apply isabs_path_join.
Qed.

(** The theorems above at concrete Runners. *)
Lemma preExecute_lists_relative_paths_witness :
  let r := mkRunner "run" None (mkFile None (Some ["rel.e"; "/abs.e"]) None true) in
  exists files self',
    preExecute no_git r init fs0 = inr (self', fs0)
    /\ errors self' = errors init ++ [NotAbsolute files]
    /\ (forall g, g ∈ files <-> g ∈ iter (filenames (file r)) /\ isabs g = false).
Proof.
  apply (preExecute_lists_relative_paths no_git _ _ init fs0 "rel.e");
    [reflexivity | decide_by_compute | reflexivity].
Defined.

Lemma preExecute_lists_tracked_paths_witness :
  let git := mkGit (Some "/repo") (fun _ => ["/repo/tracked.e"]) in
  let r := mkRunner "run" None
             (mkFile None (Some ["/repo/tracked.e"; "/repo/out.e"]) None true) in
  exists files self',
    preExecute git r init fs0 = inr (self', fs0)
    /\ errors self' = errors init ++ [GitTracked files]
    /\ (forall g, g ∈ files <->
          g ∈ ["/repo/tracked.e"] /\ g ∈ to_set (filenames (file r))).
Proof.
  apply (preExecute_lists_tracked_paths
           (mkGit (Some "/repo") (fun _ => ["/repo/tracked.e"])) _ _ init fs0
           "/repo" "/repo/tracked.e");
    [reflexivity | decide_by_compute | reflexivity | decide_by_compute | decide_by_compute].
Defined.

Lemma preExecute_without_error_leaves_none_witness :
  let r := mkRunner "run" None (mkFile (Some "/base") (Some ["out.e"]) None true) in
  let fs := mkFS {[ "/base/out.e"; "/base/in.i" ]} "/base" in
  match preExecute no_git r init fs with
  | inr (self', fs') => forall f, f ∈ ["/base/out.e"] -> isfile fs' f = false
  | inl _ => False
  end.
Proof.
  intros r fs.
  destruct (preExecute no_git r init fs) as [e|[self' fs']] eqn:Hrun;
    [vm_compute in Hrun; discriminate|].
  apply (preExecute_without_error_leaves_none no_git r (PyList ["/base/out.e"])
           init fs self' fs'); [reflexivity | exact Hrun |].
  vm_compute in Hrun. by injection Hrun as <- <-.
Defined.

Lemma preExecute_clean_never_fails_witness :
  let r := mkRunner "run" None (mkFile (Some "/base") (Some ["out.e"]) None true) in
  let fs := mkFS {[ "/base/out.e"; "/base/in.i" ]} "/base" in
  exists self' fs',
    preExecute no_git r init fs = inr (self', fs')
    /\ errors self' = errors init
    /\ forall f, f ∈ ["/base/out.e"] -> isfile fs' f = false.
Proof.
  apply (preExecute_clean_never_fails no_git _ (PyList ["/base/out.e"]) init);
    [reflexivity | decide_by_compute | discriminate | reflexivity | by eexists].
Defined.

Lemma preExecute_removes_only_expected_witness :
  let r := mkRunner "run" None (mkFile (Some "/base") (Some ["out.e"]) None true) in
  let fs := mkFS {[ "/base/out.e"; "/base/in.i" ]} "/base" in
  match preExecute no_git r init fs with
  | inr (self', fs') => "/base/in.i" ∈ fs_files fs'
  | inl _ => False
  end.
Proof.
  intros r fs.
  destruct (preExecute no_git r init fs) as [e|[self' fs']] eqn:Hrun;
    [vm_compute in Hrun; discriminate|].
  destruct (preExecute_removes_only_expected no_git r (PyList ["/base/out.e"])
              init fs self' fs' eq_refl Hrun) as (_ & _ & Hkeep & _).
  apply Hkeep; decide_by_compute.
Defined.

Lemma expected_files_with_base_witness :
  let r := mkRunner "run"
             (Some [mkDiffer "a" (mkFile None (Some ["/differ_a"]) None true)])
             (mkFile (Some "/base") (Some ["runner_1"]) None true) in
  exists l, _getExpectedFiles r = inr (PyList l)
    /\ forall f, f ∈ l <->
         f ∈ iter (filenames (file r))
         \/ exists d, d ∈ default [] (differs r) /\ f ∈ iter (filenames (differ_file d)).
Proof. intros r. by apply (expected_files_with_base r "/base"). Defined.

Lemma expected_files_without_base_raise_witness :
  exists what, _getExpectedFiles runner_with_differs = inl (TypeError what)
    /\ preExecute no_git runner_with_differs init fs0 = inl (TypeError what).
Proof.
  by apply (expected_files_without_base_raise no_git runner_with_differs d0 [d1]).
Defined.

Lemma filenames_absolute_with_base_witness :
  Forall (fun fname => isabs fname = true)
         (iter (filenames (mkFile (Some "/base") (Some ["a.e"; "/tmp/b.e"]) None true))).
Proof. by apply (filenames_absolute_with_base _ "/base"). Defined.

Lemma postExecute_reports_every_entry_witness :
  postExecute runner_with_base
    (mkSelf (Some (PyList [])) (Some (list_to_set (map (path_join "/base") ["w.txt"]))) [])
    fs0
  = inr (if bool_decide (listdir fs0 "/base" = [])
         then mkSelf (Some (PyList [])) (Some (list_to_set (map (path_join "/base") ["w.txt"]))) []
         else emit (CreatedNotExpected (listdir fs0 "/base"))
                (mkSelf (Some (PyList []))
                   (Some (list_to_set (map (path_join "/base") ["w.txt"]))) [])).
Proof.
  by apply (postExecute_reports_every_entry runner_with_base _ fs0 "/base" (PyList []) ["w.txt"]).
Defined.
End RunnerMore.

(** ** RedirectOutput: scopes and the streams of the process *)

Module RedirectMore.
Import Redirect RedirectScope RedirectFacts.

Section Threads.
Variable main : ThreadId.

(** X10: inside a scope, the [stdout] accessor read on a worker thread
    returns exactly what that thread wrote to standard output, in order,
    whatever the other threads and the main thread wrote. *)
Theorem stdout_accessor_own_writes events t :
  t <> main ->
  Redirect.stdout (run main events init) t = inr (written t Stdout events).
Proof.
  intros Ht. unfold Redirect.stdout. simpl.
  by destruct (run_buffers main events init t Ht) as [-> _].
Qed.

Lemma run_main_buffers events : forall self,
  getvalue (_stdout (run main events self)) main = getvalue (_stdout self) main
  /\ getvalue (_stderr (run main events self)) main = getvalue (_stderr self) main.
Proof.
  induction events as [|[[t' stream] message] events IH]; intros self; simpl; [done|].
  destruct (IH (Redirect.write main t' stream message self)) as [-> ->].
  unfold Redirect.write, is_main, buffer_write, getvalue.
  destruct stream; case_bool_decide; simpl; rewrite ?lookup_insert_ne by done; done.
Qed.

(** X11: the writes of the main thread reach the original streams, in
    order, and only they do; the buffers of the main thread stay empty, so
    its [stdout] accessor returns the empty text. *)
Theorem main_thread_passes_through events :
  _sys_stdout (run main events init) = written main Stdout events
  /\ _sys_stderr (run main events init) = written main Stderr events
  /\ Redirect.stdout (run main events init) main = inr "".
Proof.
  destruct (run_main main events init) as [-> ->].
  destruct (run_main_buffers events init) as [Hb _].
  unfold Redirect.stdout. simpl. by rewrite Hb.
Qed.

(** Writing changes neither the installed streams nor the handler, and
    keeps every scope with the streams it saved. *)
Lemma write_keeps w t message : forall p,
  sys_stdout (write main w t message p) = sys_stdout p
  /\ sys_stderr (write main w t message p) = sys_stderr p
  /\ handler_stream (write main w t message p) = handler_stream p
  /\ (forall i, saved_stdout <$> scopes (write main w t message p) !! i
               = saved_stdout <$> scopes p !! i)
  /\ (forall i, saved_stderr <$> scopes (write main w t message p) !! i
               = saved_stderr <$> scopes p !! i).
Proof.
  induction w as [[]|sysout IH scope which]; intros p; simpl; [done|done|].
  destruct (is_main main t); [apply IH|]. simpl.
  repeat split; try done; intros i;
    (destruct (decide (scope = i)) as [->|Hne];
     [rewrite list_lookup_alter_eq; by destruct (scopes p !! i), which
     |by rewrite list_lookup_alter_ne]).
Qed.

Lemma act_keeps a p :
  sys_stdout (act main a p) = sys_stdout p
  /\ sys_stderr (act main a p) = sys_stderr p
  /\ handler_stream (act main a p) = handler_stream p
  /\ (forall i, saved_stdout <$> scopes (act main a p) !! i = saved_stdout <$> scopes p !! i)
  /\ (forall i, saved_stderr <$> scopes (act main a p) !! i = saved_stderr <$> scopes p !! i).
Proof.
  destruct a as [t [] message|t message]; simpl; try apply write_keeps.
  destruct (handler_stream p) as [w|] eqn:Hh; [|by rewrite Hh].
  rewrite <- Hh. apply write_keeps.
Qed.

Lemma acts_keeps l : forall p,
  sys_stdout (acts main l p) = sys_stdout p
  /\ sys_stderr (acts main l p) = sys_stderr p
  /\ handler_stream (acts main l p) = handler_stream p
  /\ (forall i, saved_stdout <$> scopes (acts main l p) !! i = saved_stdout <$> scopes p !! i)
  /\ (forall i, saved_stderr <$> scopes (acts main l p) !! i = saved_stderr <$> scopes p !! i).
Proof.
  induction l as [|a l IH]; intros p; simpl; [done|].
  destruct (IH (act main a p)) as (-> & -> & -> & H1 & H2).
  destruct (act_keeps a p) as (-> & -> & -> & H3 & H4).
  repeat split; try done; intros i; [by rewrite H1|by rewrite H2].
Qed.

(** A write of another thread leaves what [t] has captured. *)
Lemma write_other_thread scope t w t' message : forall p,
  t' <> t ->
  captured scope t (write main w t' message p) = captured scope t p.
Proof.
  intros p Hne. revert p.
  induction w as [[]|sysout IH sc which]; intros p; simpl; [done|done|].
  destruct (is_main main t'); [apply IH|]. unfold captured. simpl.
  destruct (decide (sc = scope)) as [->|Hsc]; [|by rewrite list_lookup_alter_ne].
  rewrite list_lookup_alter_eq. destruct (scopes p !! scope) as [s|]; [|done]. simpl.
  destruct which; simpl; [|done].
  unfold buffer_write, getvalue. by rewrite lookup_insert_ne.
Qed.

(** A write to the standard-error redirect leaves the captured standard
    output. *)
Lemma write_stderr_redirect scope t sysout sc t' message p :
  is_main main t' = false ->
  captured scope t (write main (SysRedirect sysout sc Stderr) t' message p)
  = captured scope t p.
Proof.
  intros Hm. simpl. rewrite Hm. unfold captured. simpl.
  destruct (decide (sc = scope)) as [->|Hsc]; [|by rewrite list_lookup_alter_ne].
  rewrite list_lookup_alter_eq. by destruct (scopes p !! scope).
Qed.

(** A write of the worker [t] to the standard-output redirect of the scope
    is appended to what it has captured. *)
Lemma write_stdout_redirect scope t sysout message p :
  t <> main -> is_Some (scopes p !! scope) ->
  captured scope t (write main (SysRedirect sysout scope Stdout) t message p)
  = captured scope t p +:+ message.
Proof.
  intros Ht [s Hs]. simpl. unfold is_main. rewrite bool_decide_false by done.
  unfold captured. simpl. rewrite list_lookup_alter_eq, Hs. simpl.
  unfold buffer_write, getvalue. by rewrite lookup_insert_eq.
Qed.

Lemma acts_captured scope t s1 s2 body : forall p,
  t <> main ->
  sys_stdout p = SysRedirect s1 scope Stdout ->
  sys_stderr p = SysRedirect s2 scope Stderr ->
  handler_stream p = Some (SysRedirect s1 scope Stdout) ->
  is_Some (scopes p !! scope) ->
  captured scope t (acts main body p) = captured scope t p +:+ sent_to_stdout t body.
Proof.
  intros p Ht. revert p.
  induction body as [|a body IH]; intros p Hout Herr Hh Hs; simpl.
  { by rewrite string_app_nil_r. }
  destruct (act_keeps a p) as (Ho & He & Hhd & Hsv & _).
  rewrite IH; [|congruence|congruence|congruence|].
  2:{ destruct Hs as [s Hs]. specialize (Hsv scope). rewrite Hs in Hsv. simpl in Hsv.
      destruct (scopes (act main a p) !! scope); [by eexists|done]. }
  assert (captured scope t (act main a p)
          = captured scope t p +:+
            match a with
            | Print t' Stdout message => if bool_decide (t' = t) then message else ""
            | Print _ Stderr _ => ""
            | Log t' message => if bool_decide (t' = t) then message else ""
            end) as ->.
  { destruct a as [t' [] message|t' message]; simpl; rewrite ?Hout, ?Herr, ?Hh.
    - case_bool_decide as Ht'; [subst; by apply write_stdout_redirect|].
      rewrite string_app_nil_r. by apply write_other_thread.
    - rewrite string_app_nil_r.
      destruct (is_main main t') eqn:Hm; [|by apply write_stderr_redirect].
      apply write_other_thread. apply bool_decide_eq_true in Hm. congruence.
    - case_bool_decide as Ht'; [subst; by apply write_stdout_redirect|].
      rewrite string_app_nil_r. by apply write_other_thread. }
  rewrite string_app_assoc. f_equal.
  destruct a as [t' [] message|t' message]; simpl; try case_bool_decide; done.
Qed.

(** X12: a [with] block around any writes, in a process whose root logger
    has a handler, leaves [sys.stdout] and [sys.stderr] as they were when
    the object was made and the handler on the saved standard error; and the
    [stdout] accessor, read on a worker thread, returns what that thread
    printed to standard output and what it logged, in order. *)
Theorem with_scope_captures_and_restores body p h t :
  handler_stream p = Some h -> t <> main ->
  let '(scope, p') := with_scope main body p in
  sys_stdout p' = sys_stdout p
  /\ sys_stderr p' = sys_stderr p
  /\ handler_stream p' = Some (sys_stderr p)
  /\ captured scope t p' = sent_to_stdout t body.
Proof.
  intros Hh Ht. unfold with_scope, create. simpl.
  set (scope := length (scopes p)).
  set (s := mkScope ∅ ∅ (sys_stdout p) (sys_stderr p)).
  assert ((scopes p ++ [s]) !! scope = Some s) as Hs by apply list_lookup_middle, eq_refl.
  unfold enter. simpl. rewrite Hs, Hh. simpl.
  set (p2 := mkProcess _ _ _ _ _ _).
  destruct (acts_keeps body p2) as (Ho & He & Hhd & Hsv1 & Hsv2).
  pose proof (acts_captured scope t (sys_stdout p) (sys_stderr p) body p2 Ht
                eq_refl eq_refl eq_refl (ex_intro _ s Hs)) as Hcap.
  set (p3 := acts main body p2) in *.
  specialize (Hsv1 scope). specialize (Hsv2 scope).
  simpl in Hsv1, Hsv2. rewrite Hs in Hsv1, Hsv2. simpl in Hsv1, Hsv2.
  unfold exit. unfold captured in *.
  destruct (scopes p3 !! scope) as [s3|] eqn:Hs3; [|done].
  simpl in Hsv1, Hsv2. injection Hsv1 as Hsv1. injection Hsv2 as Hsv2.
  rewrite Hhd. simpl. rewrite Hs3.
  split; [done|]. split; [done|]. split; [by rewrite Hsv2|].
  rewrite Hcap. simpl. rewrite Hs. reflexivity.
Qed.

Lemma enter_spec scope p s h :
  scopes p !! scope = Some s -> handler_stream p = Some h ->
  (enter scope p).1
  = mkProcess (SysRedirect (saved_stdout s) scope Stdout)
      (SysRedirect (saved_stderr s) scope Stderr)
      (Some (SysRedirect (saved_stdout s) scope Stdout))
      (scopes p) (real_stdout p) (real_stderr p).
Proof. intros Hs Hh. unfold enter. by rewrite Hs, Hh. Qed.

Lemma exit_spec scope p s h :
  scopes p !! scope = Some s -> handler_stream p = Some h ->
  (exit scope p).1
  = mkProcess (saved_stdout s) (saved_stderr s) (Some (saved_stderr s))
      (scopes p) (real_stdout p) (real_stderr p).
Proof. intros Hs Hh. unfold exit. by rewrite Hs, Hh. Qed.

(** Writing keeps a scope that exists, with the streams it saved. *)
Lemma acts_scope l p scope s :
  scopes p !! scope = Some s ->
  exists s', scopes (acts main l p) !! scope = Some s'
    /\ saved_stdout s' = saved_stdout s /\ saved_stderr s' = saved_stderr s.
Proof.
  intros Hs. destruct (acts_keeps l p) as (_ & _ & _ & H1 & H2).
  specialize (H1 scope). specialize (H2 scope). rewrite Hs in H1, H2.
  destruct (scopes (acts main l p) !! scope) as [s'|]; [|done].
  simpl in H1, H2. exists s'. split; [done|]. split; congruence.
Qed.

(** X13: when two scopes overlap without being nested ([a] made and
    entered, then [b], then [a] left, then [b]), the process ends, whatever
    is written in between, with the redirect of [a] installed as
    [sys.stdout] and [sys.stderr] and in the log handler, not with the
    streams it started with. *)
Theorem overlapping_scopes_leave_redirect p h l1 l2 l3 :
  handler_stream p = Some h ->
  let '(a, b, p') := overlap main l1 l2 l3 p in
  sys_stdout p' = SysRedirect (sys_stdout p) a Stdout
  /\ sys_stderr p' = SysRedirect (sys_stderr p) a Stderr
  /\ handler_stream p' = Some (SysRedirect (sys_stderr p) a Stderr).
Proof.
  intros Hh. unfold overlap, create.
  set (a := length (scopes p)).
  set (sa := mkScope ∅ ∅ (sys_stdout p) (sys_stderr p)).
  set (p0 := mkProcess (sys_stdout p) (sys_stderr p) (handler_stream p)
               (scopes p ++ [sa]) (real_stdout p) (real_stderr p)).
  assert (scopes p0 !! a = Some sa) as Hsa by apply list_lookup_middle, eq_refl.
  rewrite (enter_spec a p0 sa h Hsa Hh).
  set (p1 := mkProcess _ _ _ (scopes p0) _ _).
  destruct (acts_keeps l1 p1) as (Ho1 & He1 & Hh1 & _).
  destruct (acts_scope l1 p1 a sa Hsa) as (sa1 & Hsa1 & _ & _).
  set (q1 := acts main l1 p1) in *.
  set (b := length (scopes q1)).
  set (sb := mkScope ∅ ∅ (sys_stdout q1) (sys_stderr q1)).
  set (p2 := mkProcess (sys_stdout q1) (sys_stderr q1) (handler_stream q1)
               (scopes q1 ++ [sb]) (real_stdout q1) (real_stderr q1)).
  assert (scopes p2 !! b = Some sb) as Hsb by apply list_lookup_middle, eq_refl.
  assert (scopes p2 !! a = Some sa1) as Hsa2.
  { simpl. rewrite lookup_app_l; [done|]. by eapply lookup_lt_Some. }
  rewrite (enter_spec b p2 sb _ Hsb Hh1).
  set (p3 := mkProcess _ _ _ (scopes p2) _ _).
  destruct (acts_keeps l2 p3) as (_ & _ & Hh3 & _).
  destruct (acts_scope l2 p3 b sb Hsb) as (sb3 & Hsb3 & Hbo & Hbe).
  destruct (acts_scope l2 p3 a sa1 Hsa2) as (sa3 & Hsa3 & _ & _).
  set (q3 := acts main l2 p3) in *.
  rewrite (exit_spec a q3 sa3 _ Hsa3 Hh3).
  set (p4 := mkProcess _ _ _ (scopes q3) _ _).
  destruct (acts_keeps l3 p4) as (_ & _ & Hh4 & _).
  destruct (acts_scope l3 p4 b sb3 Hsb3) as (sb4 & Hsb4 & Hbo4 & Hbe4).
  set (q4 := acts main l3 p4) in *.
  rewrite (exit_spec b q4 sb4 _ Hsb4 Hh4). simpl.
  rewrite Hbo4, Hbe4, Hbo, Hbe. simpl. by rewrite Ho1, He1.
Qed.
End Threads.

(** The two theorems in a process that starts with its real streams. *)
Lemma with_scope_captures_and_restores_witness :
  let body := [Print 7%Z Stdout "a"; Log 7%Z "b"; Print 1%Z Stdout "m"; Print 7%Z Stderr "e"] in
  let '(scope, p') := with_scope 1%Z body start in
  sys_stdout p' = Real Stdout
  /\ sys_stderr p' = Real Stderr
  /\ handler_stream p' = Some (Real Stderr)
  /\ captured scope 7%Z p' = sent_to_stdout 7%Z body.
Proof.
  apply (with_scope_captures_and_restores 1%Z
           [Print 7%Z Stdout "a"; Log 7%Z "b"; Print 1%Z Stdout "m"; Print 7%Z Stderr "e"]
           start (Real Stderr) 7%Z); [reflexivity|discriminate].
Defined.

Lemma overlapping_scopes_leave_redirect_witness :
  let '(a, b, p') := overlap 1%Z [Print 7%Z Stdout "a"] [Print 8%Z Stdout "b"] [] start in
  sys_stdout p' = SysRedirect (Real Stdout) a Stdout
  /\ sys_stderr p' = SysRedirect (Real Stderr) a Stderr
  /\ handler_stream p' = Some (SysRedirect (Real Stderr) a Stderr).
Proof.
  apply (overlapping_scopes_leave_redirect 1%Z start (Real Stderr)
           [Print 7%Z Stdout "a"] [Print 8%Z Stdout "b"] []); reflexivity.
Defined.

Lemma stdout_accessor_own_writes_witness :
  Redirect.stdout
    (run 1%Z [(7%Z, Stdout, "a"); (8%Z, Stdout, "x"); (7%Z, Stdout, "b")] init) 7%Z
  = inr (written 7%Z Stdout [(7%Z, Stdout, "a"); (8%Z, Stdout, "x"); (7%Z, Stdout, "b")]).
Proof. apply (stdout_accessor_own_writes 1%Z); discriminate. Defined.
End RedirectMore.

(** ** TestCase: the results dictionary and the report *)

Module TestCaseMore.
Import TestCase StateM TestCaseFacts.

Lemma find_app {A} (f : A -> bool) (l1 l2 : list A) :
  List.find f (l1 ++ l2)
  = match List.find f l1 with Some x => Some x | None => List.find f l2 end.
Proof. induction l1 as [|x l1 IH]; simpl; [done|]. by destruct (f x). Qed.

Section Results.
Context {Obj Controller : Type}.
Variable name : Obj -> string.
Variable controller_execute : Controller -> Obj -> ControllerRun.
Variable object_execute : Obj -> StageArgs -> ObjectRun.
Variable err_out : Controller -> Logged -> string.
Variable has_handler : bool.

Abbreviation Self := (TestCase.Self (Obj := Obj) (Controller := Controller)).
Abbreviation stage := (TestCase.stage name controller_execute object_execute err_out).
Abbreviation stage_state :=
  (TestCase.stage_state name controller_execute object_execute err_out).
Abbreviation last_outcome controller := (TestCaseReport.last_outcome name (stage controller)).
Abbreviation execute :=
  (TestCase.execute name controller_execute object_execute err_out has_handler).
Abbreviation differ_loop :=
  (TestCase.differ_loop name controller_execute object_execute err_out has_handler).

Lemma last_outcome_snoc controller n cs c :
  last_outcome controller n (cs ++ [c])
  = if String.eqb (name c.1) n then Some (stage controller c.1 c.2).1
    else last_outcome controller n cs.
Proof.
  unfold TestCaseReport.last_outcome, TestCaseReport.outcome.
  rewrite map_app, rev_app_distr. simpl.
  by destruct (String.eqb (name c.1) n).
Qed.

(** The loop over the Differs keeps the dictionary in step with the calls
    made. *)
Lemma differ_loop_results controller differs rc out : forall state results (s : Self),
  has_handler = true -> _controller s = Some controller ->
  (forall n, results !! n = last_outcome controller n (calls s)) ->
  let '(r, s') := differ_loop differs rc out state results s in
  exists final results',
    r = inr (final, results')
    /\ forall n, results' !! n = last_outcome controller n (calls s').
Proof.
  induction differs as [|d rest IH]; intros state results s Hh Hc Hinv; simpl.
  { unfold mret, statem_ret, ret. eauto. }
  unfold mbind, statem_bind, bind.
  rewrite (call_found name controller_execute object_execute err_out has_handler controller)
    by done.
  destruct (stage controller d (Some (rc, out))) as [[d_state d_out] d_rc] eqn:E.
  apply IH; [done|done|]. intros n. cbn [calls].
  rewrite last_outcome_snoc. cbn [fst snd]. rewrite E. cbn [fst].
  unfold Results in *.
  destruct (String.eqb_spec (name d) n) as [->|Hne].
  - by rewrite lookup_insert_eq.
  - by rewrite lookup_insert_ne.
Qed.

Lemma execute_results runner differs controller :
  has_handler = true ->
  let '(r, s') := execute (with_controller controller (init runner (Some differs))) in
  exists final results,
    r = inr (final, results)
    /\ forall n, results !! n = last_outcome controller n (calls s').
Proof.
  intros Hh.
  unfold TestCase.execute, mbind, statem_bind, bind, setProgress, print, modify, get.
  rewrite (call_found name controller_execute object_execute err_out has_handler controller)
    by done.
  cbn [_runner _differs _controller progress calls printed with_controller init app].
  destruct (stage controller runner None) as [[state out] rc] eqn:E.
  assert (forall n, (<[name runner:=(state, out)]> ∅ : Results) !! n
                    = last_outcome controller n [(runner, None)]) as Hinv.
  { intros n. unfold TestCaseReport.last_outcome, TestCaseReport.outcome, Results.
    simpl. rewrite E. simpl.
    destruct (String.eqb_spec (name runner) n) as [->|Hne].
    - by rewrite lookup_insert_eq.
    - by rewrite lookup_insert_ne, lookup_empty. }
  destruct (bool_decide (state = SKIP) || (0 <? exitcode state)%Z).
  { unfold mret, statem_ret, ret. eauto. }
  by apply (differ_loop_results controller differs rc out state).
Qed.

(** When the Runner stage neither skips nor fails, the calls made are the
    Runner's and then one per Differ, in order. *)
Lemma execute_calls runner differs controller :
  has_handler = true ->
  let '(state, out, rc) := stage controller runner None in
  runner_stops state = false ->
  let '(_, s') := execute (with_controller controller (init runner (Some differs))) in
  calls s' = (runner, None) :: map (fun d => (d, Some (rc, out))) differs.
Proof.
  intros Hh.
  unfold TestCase.execute, mbind, statem_bind, bind, setProgress, print, modify, get.
  rewrite (call_found name controller_execute object_execute err_out has_handler controller)
    by done.
  cbn [_runner _differs _controller progress calls printed with_controller init app].
  destruct (stage controller runner None) as [[state out] rc] eqn:E.
  fold (runner_stops state). intros ->.
  match goal with
  | |- context [differ_loop differs rc out state ?res ?s0] =>
      pose proof (differ_loop_spec name controller_execute object_execute err_out
                    has_handler controller differs rc out state res s0 Hh eq_refl) as H;
      destruct (differ_loop differs rc out state res s0) as [r s']
  end.
  by destruct H as (_ & -> & _).
Qed.

(** X14: on a TestCase that has a Controller and Differs, in a process
    whose root logger has a handler, [execute] returns, and the dictionary
    it returns holds, under every name, the state and output of the last
    stage call made on an object of that name, and nothing under a name
    that no executed object has. *)
Theorem execute_results_latest runner differs controller n :
  has_handler = true ->
  let '(r, s') := execute (with_controller controller (init runner (Some differs))) in
  exists final results,
    r = inr (final, results)
    /\ results !! n = last_outcome controller n (calls s').
Proof.
  intros Hh. pose proof (execute_results runner differs controller Hh) as H.
  destruct (execute (with_controller controller (init runner (Some differs)))) as [r s'].
  destruct H as (final & results & -> & H). by exists final, results.
Qed.

Lemma last_outcome_unique controller n cs :
  NoDup (map (fun c : Obj * StageArgs => name c.1) cs) ->
  forall c, c ∈ cs -> name c.1 = n ->
  last_outcome controller n cs = Some (stage controller c.1 c.2).1.
Proof.
  induction cs as [|x cs IH] using rev_ind; intros Hnd c Hin Hn.
  { by apply elem_of_nil in Hin. }
  rewrite map_app in Hnd. apply NoDup_app in Hnd as (Hnd1 & Hdisj & _).
  rewrite last_outcome_snoc.
  apply elem_of_app in Hin as [Hin|Hin%list_elem_of_singleton].
  - destruct (String.eqb_spec (name x.1) n) as [Heq|Hne]; [|by apply IH].
    exfalso. apply (Hdisj (name c.1)).
    + apply list_elem_of_fmap. by exists c.
    + simpl. rewrite Hn, <- Heq. by left.
  - subst x. by rewrite <- Hn, String.eqb_refl.
Qed.

(** X15: on such a TestCase, when the Runner and the Differs have
    different names and the Runner stage neither skips nor fails, the
    dictionary returned holds the Runner's state and output under the
    Runner's name and, for every Differ, that Differ's own state and output
    under its name. *)
Theorem execute_results_by_name runner differs controller :
  has_handler = true ->
  NoDup (map name (runner :: differs)) ->
  runner_stops (stage_state controller runner None) = false ->
  let '(state, out, rc) := stage controller runner None in
  let '(r, _) := execute (with_controller controller (init runner (Some differs))) in
  exists final results,
    r = inr (final, results)
    /\ results !! name runner = Some (state, out)
    /\ forall d, d ∈ differs ->
         results !! name d = Some (stage controller d (Some (rc, out))).1.
Proof.
  intros Hh Hnd Hgo.
  pose proof (execute_results runner differs controller Hh) as Hres.
  pose proof (execute_calls runner differs controller Hh) as Hcalls.
  unfold TestCase.stage_state in Hgo.
  destruct (stage controller runner None) as [[state out] rc] eqn:E. simpl in Hgo.
  destruct (execute (with_controller controller (init runner (Some differs)))) as [r s'].
  specialize (Hcalls Hgo). destruct Hres as (final & results & -> & Hres).
  exists final, results. split; [done|].
  assert (NoDup (map (fun c : Obj * StageArgs => name c.1) (calls s'))) as Hnd'.
  { rewrite Hcalls. simpl. rewrite map_map. simpl. exact Hnd. }
  split.
  - rewrite Hres.
    rewrite (last_outcome_unique _ _ _ Hnd' (runner, None)); [|by rewrite Hcalls; left|done].
    simpl. by rewrite E.
  - intros d Hd. rewrite Hres.
    rewrite (last_outcome_unique _ _ _ Hnd' (d, Some (rc, out))); [done| |done].
    rewrite Hcalls. right. apply list_elem_of_fmap. by exists d.
Qed.
End Results.

Section Report.
Import TestCaseReport.
Context {Obj Time : Type}.
Variable name : Obj -> string.
Variable overdue : Time -> Time -> bool.
Variable runner : Obj.
Variable differs : list Obj.

Abbreviation Self := (TestCaseReport.Self (Time := Time)).
Abbreviation report := (TestCaseReport.report name overdue runner differs).
Abbreviation print_differs := (TestCaseReport.print_differs (Time := Time) name).
Abbreviation differ_lines := (TestCaseReport.differ_lines name).

(** The loop over the Differs only prints: the lines of the Differs that
    the results have. *)
Lemma print_differs_spec ds out : forall self : Self,
  print_differs ds out self
  = mkSelf (progress self) (results self) (running_report_time self) (start_time self)
           (printed self ++ differ_lines ds out).
Proof.
  induction ds as [|obj ds IH]; intros self; simpl.
  { rewrite app_nil_r. by destruct self. }
  unfold TestCaseReport.differ_lines. simpl.
  destruct (out !! name obj) as [[d_state d_out]|]; [|apply IH].
  rewrite IH. unfold _printState. simpl.
  destruct (String.eqb d_out ""); simpl; by rewrite <- !app_assoc.
Qed.

(** X16: [report] never moves the progress back, and once the progress is
    CLOSED it prints nothing and changes nothing. *)
Theorem report_never_moves_back current (self : Self) :
  (progress_value (progress self)
   <= progress_value (progress (report current self).1))%Z
  /\ (progress self = CLOSED -> report current self = (self, None)).
Proof.
  unfold TestCaseReport.report.
  destruct self as [pr res rrt st pri]. simpl.
  destruct pr; simpl; try (split; [lia|done]).
  - split; [|done]. unfold _printProgress. simpl.
    destruct rrt as [last|]; simpl.
    + destruct (overdue current last); simpl; [|lia].
      unfold _printState. simpl. destruct st; simpl; lia.
    + destruct st as [t|]; simpl; [|lia].
      destruct (overdue current t); simpl; [|lia].
      unfold _printState. simpl. lia.
  - split; [|done]. unfold _printResult. simpl.
    destruct res as [[state out]|]; simpl; [|lia].
    unfold _printState. simpl. destruct st; simpl; [|lia].
    destruct (out !! name runner) as [[r_state r_out]|]; simpl; [|lia].
    rewrite print_differs_spec. simpl. lia.
Qed.

End Report.

Import TestCaseReport.

Lemma length_append (a b : string) :
  String.length (a +:+ b) = (String.length a + String.length b)%nat.
Proof.
  induction a as [|c a IH]; [done|].
  change (String c a +:+ b) with (String c (a +:+ b)). simpl. by rewrite IH.
Qed.

Lemma length_repeat_ascii c n :
  String.length (string_of_list_ascii (repeat c n)) = n.
Proof. induction n as [|n IH]; simpl; [done|]. by rewrite IH. Qed.

Lemma state_line_length name display tinfo :
  (String.length display <= 9)%nat ->
  Z.of_nat (String.length (state_line name display tinfo))
  = Z.max 100 (Z.of_nat (String.length name) + Z.of_nat (String.length tinfo) + 9).
Proof.
  intros Hd. unfold state_line, state_line_width, ljust9.
  rewrite !length_append, !length_repeat_ascii. lia.
Qed.

(** X18: the line that [_printState] builds for a Result or a Progress is,
    before colouring, exactly 100 characters wide whenever the name and the
    time leave room for the nine characters of the state, and otherwise as
    long as the name, the time and these nine characters, without a dot. *)
Theorem state_line_is_100_wide name tinfo :
  (forall r : Result,
     Z.of_nat (String.length (state_line name (display r) tinfo))
     = Z.max 100 (Z.of_nat (String.length name) + Z.of_nat (String.length tinfo) + 9))
  /\ (forall p : Progress,
     Z.of_nat (String.length (state_line name (progress_display p) tinfo))
     = Z.max 100 (Z.of_nat (String.length name) + Z.of_nat (String.length tinfo) + 9)).
Proof.
  split; intros x; apply state_line_length; destruct x; simpl; lia.
Qed.

Example state_line_short :
  state_line "a" "OK" "" = "a" +:+ string_of_list_ascii (repeat "."%char 90) +:+ "OK       ".
Proof. vm_compute. reflexivity. Qed.

(** The theorems with a hypothesis, on a Runner and two Differs, the first
    of which logs an error while it executes. *)
Lemma execute_results_latest_witness :
  let t := mkTable [] [] ["d1"] in
  let '(r, s') :=
    StateM.run (TestCase.execute id (table_controller t) (table_object t) table_err_out true)
               (with_controller tt (init "run" (Some ["d1"; "d2"]))) in
  exists final results,
    r = inr (final, results)
    /\ results !! "d1"
       = TestCaseReport.last_outcome id (table_stage t) "d1" (calls s').
Proof.
  apply (execute_results_latest id (table_controller (mkTable [] [] ["d1"]))
           (table_object (mkTable [] [] ["d1"])) table_err_out true
           "run" ["d1"; "d2"] tt "d1").
  reflexivity.
Defined.

Lemma execute_results_by_name_witness :
  let t := mkTable [] [] ["d1"] in
  let '(r, _) :=
    StateM.run (TestCase.execute id (table_controller t) (table_object t) table_err_out true)
               (with_controller tt (init "run" (Some ["d1"; "d2"]))) in
  exists final results,
    r = inr (final, results)
    /\ results !! "run" = Some (PASS, "")
    /\ forall d, d ∈ ["d1"; "d2"] ->
         results !! d = Some (table_stage t d (Some (Some 0%Z, ""))).1.
Proof.
  apply (execute_results_by_name id (table_controller (mkTable [] [] ["d1"]))
           (table_object (mkTable [] [] ["d1"])) table_err_out true
           "run" ["d1"; "d2"] tt);
    [reflexivity|decide_by_compute|reflexivity].
Defined.

End TestCaseMore.

(** ** Parser: every block is accounted for; lists and required keys *)

Module ParserMore.
Import PyStr Parser ParserTerms.

Section Parse.
Context {P Obj : Type} `{ParamSet P}.
Variable factory_params : Value -> option P.
Variable factory_create : Value -> P -> option Obj.
Variable filename : string.

Abbreviation parse := (Parser.parse factory_params factory_create filename).
Abbreviation _parseNode := (Parser._parseNode factory_params factory_create filename).




End Parse.

(** *** Splitting at whitespace *)

Lemma append_String c a b : String c a +:+ b = String c (a +:+ b).
Proof. reflexivity. Qed.

Lemma append_nil_r a : a +:+ "" = a.
Proof. induction a as [|c a IH]; [done|]. by rewrite append_String, IH. Qed.

Lemma append_assoc a b c : (a +:+ b) +:+ c = a +:+ (b +:+ c).
Proof. induction a as [|x a IH]; [done|]. by rewrite !append_String, IH. Qed.

Lemma rev_app_spec a b : String.rev_app a b = String.rev a +:+ b.
Proof.
  unfold String.rev. revert b. induction a as [|c a IH]; intros b; simpl; [done|].
  rewrite IH, (IH (String c "")), append_assoc. reflexivity.
Qed.

Lemma rev_String c a : String.rev (String c a) = String.rev a +:+ String c "".
Proof. unfold String.rev at 1. simpl. apply rev_app_spec. Qed.

Lemma has_space_append a b : has_space (a +:+ b) = has_space a || has_space b.
Proof.
  induction a as [|c a IH]; [done|]. rewrite append_String. simpl.
  by rewrite IH, orb_assoc.
Qed.

Lemma has_space_rev a : has_space (String.rev a) = has_space a.
Proof.
  induction a as [|c a IH]; [done|].
  rewrite rev_String, has_space_append, IH. simpl. by rewrite orb_false_r, orb_comm.
Qed.

Lemma split_go_no_space s : forall cur in_space,
  has_space cur = false ->
  Forall (fun piece => has_space piece = false) (re_split_go s cur in_space).
Proof.
  induction s as [|c s IH]; intros cur in_space Hcur; simpl.
  { apply Forall_cons. split; [by rewrite has_space_rev|done]. }
  destruct (is_space c) eqn:Hc.
  - destruct in_space; [by apply IH|].
    apply Forall_cons. split; [by rewrite has_space_rev|by apply IH].
  - apply IH. simpl. by rewrite Hc.
Qed.

Lemma split_go_nonempty s : forall cur in_space, re_split_go s cur in_space <> [].
Proof.
  induction s as [|c s IH]; intros cur in_space; simpl; [done|].
  destruct (is_space c); [destruct in_space|]; [apply IH|done|apply IH].
Qed.

Lemma concat_cons x l : l <> [] -> String.concat "" (x :: l) = x +:+ String.concat "" l.
Proof. by destruct l. Qed.

Lemma split_go_concat s : forall cur in_space,
  String.concat "" (re_split_go s cur in_space) = String.rev cur +:+ without_spaces s.
Proof.
  induction s as [|c s IH]; intros cur in_space; simpl.
  { by rewrite append_nil_r. }
  destruct (is_space c) eqn:Hc.
  - destruct in_space; [apply IH|].
    rewrite concat_cons by apply split_go_nonempty. by rewrite IH.
  - rewrite IH, rev_String, append_assoc. reflexivity.
Qed.

Lemma startswith_char a c s : startswith (String a "") (String c s) = Ascii.eqb a c.
Proof. unfold startswith. simpl. by destruct (Ascii.eqb a c). Qed.

Lemma is_space_newline : is_space newline = true.
Proof. reflexivity. Qed.

(** The replacement of newlines by spaces before the split changes
    nothing: a newline separates as a space does. *)
Lemma split_after_newline_replace s : forall cur in_space,
  re_split_go (replace_go (String newline "") " " s 0) cur in_space
  = re_split_go s cur in_space.
Proof.
  induction s as [|c s IH]; intros cur in_space; [done|].
  change (replace_go (String newline "") " " (String c s) 0)
    with (if startswith (String newline "") (String c s)
          then " " +:+ replace_go (String newline "") " " s 0
          else String c (replace_go (String newline "") " " s 0)).
  rewrite startswith_char.
  destruct (Ascii.eqb_spec newline c) as [<-|Hne].
  - change (" " +:+ replace_go (String newline "") " " s 0)
      with (String " " (replace_go (String newline "") " " s 0)).
    cbn [re_split_go]. rewrite is_space_newline.
    change (is_space " ") with true. cbv iota.
    destruct in_space; by rewrite IH.
  - cbn [re_split_go]. destruct (is_space c); [destruct in_space|]; by rewrite IH.
Qed.

Section Lists.
Context {P : Type} `{TesterParams unit P}.

(** X20: for a parameter that is a list, [extractParams] assigns a text
    value split at every run of whitespace, newlines included: there is at
    least one piece, no piece holds whitespace, and the pieces put together
    are the text without its whitespace. *)
Theorem extract_list_splits_at_whitespace strptime node key v
    (params : P) (self : Legacy) have_err :
  has params key = true -> type_is_list params key = true ->
  exists pieces,
    extract_one strptime node key (Str v) params self have_err
    = inr (setitem params key (List pieces), self, have_err)
    /\ pieces = re_split_spaces v
    /\ pieces <> []
    /\ Forall (fun piece => has_space piece = false) pieces
    /\ String.concat "" pieces = without_spaces v.
Proof.
  intros Hhas Hlist. exists (re_split_spaces v).
  unfold extract_one. rewrite Hhas, Hlist.
  unfold replace, re_split_spaces. rewrite split_after_newline_replace.
  split; [done|]. split; [done|].
  split; [apply split_go_nonempty|].
  split; [by apply split_go_no_space|apply split_go_concat].
Qed.
End Lists.

Section Required.
Context {P : Type} `{TesterParams unit P}.
Variable strptime : string -> option unit.

(** Assigning keeps the required keys. *)
Hypothesis required_keys_setitem :
  forall (p : P) key v, required_keys (setitem p key v) = required_keys p.

Lemma extract_one_required node key value (params : P) self have_err params' self' have_err' :
  extract_one strptime node key value params self have_err = inr (params', self', have_err') ->
  required_keys params' = required_keys params /\ have_err' = have_err.
Proof.
  unfold extract_one.
  destruct (has params key); [|by intros [= <- <- <-]].
  destruct (type_is_list params key).
  { destruct value; intros [= <- <- <-]; by rewrite required_keys_setitem. }
  destruct (quoted_text value); [intros [= <- <- <-]; by rewrite required_keys_setitem|].
  destruct (strict_types params key) as [[|t]|].
  - destruct value as [v| |]; [|done|done].
    destruct (strptime v); [|done]. intros [= <- <- <-]. by rewrite required_keys_setitem.
  - case_bool_decide; [done|]. by intros [= <- <- <-].
  - intros [= <- <- <-]. by rewrite required_keys_setitem.
Qed.

Lemma extract_loop_required node ps : forall (params : P) self have_err local_parsed
    params' self' have_err' local_parsed',
  extract_loop strptime node ps (params, self, have_err, local_parsed)
  = inr (params', self', have_err', local_parsed') ->
  required_keys params' = required_keys params
  /\ have_err' = have_err
  /\ local_parsed' = local_parsed ∪ list_to_set (map fst ps).
Proof.
  induction ps as [|[key value] ps IH]; intros params self have_err lp params' self' he' lp'; simpl.
  { intros [= <- <- <- <-]. split; [done|]. split; [done|]. by rewrite (right_id_L ∅ (∪)). }
  destruct (params_parsed self) as [parsed|]; [|done].
  destruct (extract_one _ _ _ _ _ _ _) as [e|[[params1 self1] he1]] eqn:Hone; [done|].
  apply extract_one_required in Hone as [Hr ->].
  intros Hloop. apply IH in Hloop as (-> & -> & ->).
  split; [done|]. split; [done|].
  apply set_eq. intros x. rewrite !elem_of_union, elem_of_singleton. naive_solver.
Qed.

(** X21: when [extractParams] returns, it has assigned 'have_errors' last,
    and the value is True exactly when some required key is not among the
    names of the block's parameters. *)
Theorem extractParams_have_errors (params : P) node self params' self' :
  extractParams strptime params node self = inr (params', self') ->
  exists params0,
    params' = setitem params0 "have_errors"
                (Scalar (Bool (negb (bool_decide
                   (required_keys params ⊆ list_to_set (map fst (Parser.params node)))))))
    /\ required_keys params0 = required_keys params.
Proof.
  unfold extractParams.
  destruct (extract_loop _ _ _ _) as [e|[[[params1 self1] he1] lp1]] eqn:Hloop; [done|].
  apply extract_loop_required in Hloop as (Hr & -> & ->).
  rewrite Hr, (left_id_L ∅ (∪)).
  set (keys := list_to_set (map fst (Parser.params node)) : gset string).
  assert (required_keys params ∖ keys = ∅ <-> required_keys params ⊆ keys) as Hiff.
  { split.
    - intros He x Hx. destruct (decide (x ∈ keys)) as [|Hn]; [done|].
      exfalso. assert (x ∈ required_keys params ∖ keys) as Hd by by apply elem_of_difference.
      rewrite He in Hd. by apply elem_of_empty in Hd.
    - intros Hs. apply set_eq. intros x. rewrite elem_of_difference, elem_of_empty.
      split; [|done]. intros [Hx Hn]. by apply Hn, Hs. }
  intros Hrun. exists params1.
  destruct (decide (required_keys params ⊆ keys)) as [Hs|Hs].
  - rewrite (bool_decide_true (required_keys params ∖ keys = ∅)) in Hrun by by apply Hiff.
    rewrite (bool_decide_true (required_keys params ⊆ keys)) by done.
    simpl in *. by injection Hrun as <- <-.
  - rewrite (bool_decide_false (required_keys params ∖ keys = ∅)) in Hrun by by rewrite Hiff.
    rewrite (bool_decide_false (required_keys params ⊆ keys)) by done.
    simpl in *. by injection Hrun as <- <-.
Qed.
End Required.

(** The theorems on a block. *)
Lemma extract_list_splits_at_whitespace_witness :
  exists pieces,
    extract_one (fun _ => None) (quoted_block "x") "key"
      (Str (String "a" (String newline " b"))) (key_params true) legacy_ready false
    = inr (setitem (key_params true) "key" (List pieces), legacy_ready, false)
    /\ pieces = re_split_spaces (String "a" (String newline " b"))
    /\ pieces <> []
    /\ Forall (fun piece => has_space piece = false) pieces
    /\ String.concat "" pieces = without_spaces (String "a" (String newline " b")).
Proof.
  apply (extract_list_splits_at_whitespace (fun _ => None) (quoted_block "x") "key");
    reflexivity.
Defined.

Example split_newline :
  re_split_spaces (String "a" (String newline " b")) = ["a"; "b"].
Proof. reflexivity. Qed.

Lemma extractParams_have_errors_witness :
  let params := mkRequired {[ "input" ]} ["x"] [] in
  let node := place "Tests" (block "a" [("x", Int 1)] []) in
  exists params0,
    (mkRequired {[ "input" ]} ["x"]
       [("x", Scalar (Int 1)); ("have_errors", Scalar (Bool true))])
    = setitem params0 "have_errors"
        (Scalar (Bool (negb (bool_decide
           (required_keys params ⊆ list_to_set (map fst (Parser.params node)))))))
    /\ required_keys params0 = required_keys params.
Proof.
  apply (@extractParams_have_errors Required Required_TesterParams (fun _ => None)
           (fun p key v => eq_refl)
           (mkRequired {[ "input" ]} ["x"] [])
           (place "Tests" (block "a" [("x", Int 1)] [])) legacy_ready _
           (mkLegacy (Some {[ "Tests/a/x" ]}) [RequiredMissing ["input"]])).
  vm_compute. reflexivity.
Defined.
End ParserMore.

(** ** QueueManager.py: arguments, cores, clean-up and [augmentJobs] *)

Module QueueMore.
Import PyStr QueueManager QueueOps.

(** *** The [key=value] arguments *)

Lemma has_eq_append a b : has_eq (a +:+ b) = has_eq a || has_eq b.
Proof.
  induction a as [|c a IH]; [done|]. rewrite ParserMore.append_String. simpl.
  by rewrite IH, orb_assoc.
Qed.

Lemma has_eq_rev a : has_eq (String.rev a) = has_eq a.
Proof.
  induction a as [|c a IH]; [done|].
  rewrite ParserMore.rev_String, has_eq_append, IH. simpl.
  by rewrite orb_false_r, orb_comm.
Qed.

Lemma split_eq_go_pieces s : forall cur,
  has_eq cur = false -> Forall (fun piece => has_eq piece = false) (split_eq_go s cur).
Proof.
  induction s as [|c s IH]; intros cur Hcur; simpl.
  { apply Forall_cons. split; [by rewrite has_eq_rev|done]. }
  destruct (Ascii.eqb c "=") eqn:Hc.
  - apply Forall_cons. split; [by rewrite has_eq_rev|by apply IH].
  - apply IH. simpl. by rewrite Hc.
Qed.

Lemma remove_first_head x l : remove_first x (x :: l) = l.
Proof. simpl. by rewrite String.eqb_refl. Qed.

Lemma remove_first_skip x y l : y <> x -> remove_first x (y :: l) = y :: remove_first x l.
Proof. intros Hyx. simpl. by apply String.eqb_neq in Hyx as ->. Qed.

Lemma split_loop_skip x key_value_args :
  has_eq x = false ->
  Forall (fun arg => has_eq arg = true) key_value_args ->
  forall cur,
    foldl (fun cur arg => remove_first arg cur ++ split_eq arg) (x :: cur) key_value_args
    = x :: foldl (fun cur arg => remove_first arg cur ++ split_eq arg) cur key_value_args.
Proof.
  intros Hx. induction 1 as [|arg l Harg _ IH]; intros cur; [done|].
  cbn [foldl]. rewrite remove_first_skip by congruence. apply IH.
Qed.

Lemma filter_has_eq l : Forall (fun arg => has_eq arg = true) (List.filter has_eq l).
Proof. apply Forall_forall. intros x Hx%list_elem_of_In%filter_In. tauto. Qed.

Lemma split_loop_spec current_args : forall pieces,
  foldl (fun cur arg => remove_first arg cur ++ split_eq arg)
        (current_args ++ pieces) (List.filter has_eq current_args)
  = List.filter (fun x => negb (has_eq x)) current_args ++ pieces
    ++ flat_map split_eq (List.filter has_eq current_args).
Proof.
  induction current_args as [|x l IH]; intros pieces.
  { simpl. by rewrite app_nil_r. }
  simpl List.filter. destruct (has_eq x) eqn:Hx; simpl negb; cbv iota.
  - cbn [foldl]. change ((x :: l) ++ pieces) with (x :: (l ++ pieces)).
    rewrite remove_first_head, <- (app_assoc l), IH.
    cbn [flat_map]. by rewrite <- !app_assoc.
  - change ((x :: l) ++ pieces) with (x :: (l ++ pieces)).
    rewrite split_loop_skip by (done || apply filter_has_eq).
    by rewrite IH.
Qed.

(** X22 (QueueManager.cleanAndModifyArgs, the loop over [key_value_args]):
    whatever the arguments, also when one is repeated, the loop leaves the
    arguments without an equals sign in their order, followed by the pieces
    of each argument with one, split at every equals sign, in the order of
    these arguments; no argument with an equals sign is left. *)
Theorem key_value_arguments_are_split argv :
  split_key_values argv
  = List.filter (fun x => negb (has_eq x)) argv
    ++ flat_map split_eq (List.filter has_eq argv)
  /\ Forall (fun arg => has_eq arg = false) (split_key_values argv).
Proof.
  assert (Hspec : split_key_values argv
                  = List.filter (fun x => negb (has_eq x)) argv
                    ++ flat_map split_eq (List.filter has_eq argv)).
  { unfold split_key_values.
    rewrite <- (app_nil_r argv) at 1. by rewrite split_loop_spec. }
  split; [done|]. rewrite Hspec. apply Forall_app. split.
  - apply Forall_forall. intros x Hx%list_elem_of_In%filter_In.
    by destruct Hx as [_ ?%negb_true_iff].
  - apply Forall_forall. intros x Hx%list_elem_of_In%in_flat_map.
    destruct Hx as (arg & _ & Hx%list_elem_of_In).
    revert x Hx. apply Forall_forall. by apply split_eq_go_pieces.
Qed.

(** *** The bad keywords *)

Lemma count_cons k y l :
  count k (y :: l) = ((if String.eqb k y then 1 else 0) + count k l)%nat.
Proof. unfold count. simpl. by destruct (String.eqb k y). Qed.

Lemma count_app k a b : count k (a ++ b) = (count k a + count k b)%nat.
Proof. unfold count. by rewrite List.filter_app, length_app. Qed.

Lemma count_zero k l : count k l = 0%nat <-> k ∉ l.
Proof.
  induction l as [|y l IH]; [split; [by intros _ ?%elem_of_nil|done]|].
  rewrite count_cons, not_elem_of_cons, <- IH.
  destruct (String.eqb k y) eqn:Hky.
  - apply String.eqb_eq in Hky. split; [lia|tauto].
  - apply String.eqb_neq in Hky. split; [by intros; split|by intros [_ ?]].
Qed.

Lemma count_drop k n l : (count k (drop n l) <= count k l)%nat.
Proof.
  revert n. induction l as [|y l IH]; intros [|n]; simpl; try lia.
  rewrite count_cons. specialize (IH n). lia.
Qed.

Lemma count_del_pair k arg l : (count k (del_pair arg l) <= count k l)%nat.
Proof.
  induction l as [|y l IH]; [done|]. simpl.
  destruct (String.eqb y arg).
  - rewrite count_cons. pose proof (count_drop k 1 l). lia.
  - rewrite !count_cons. lia.
Qed.

Lemma count_del_pair_self k l :
  (count k l <= 1)%nat -> count k (del_pair k l) = 0%nat.
Proof.
  induction l as [|y l IH]; [done|]. rewrite count_cons. simpl.
  rewrite (String.eqb_sym y k). destruct (String.eqb k y) eqn:Hky.
  - intros Hle. pose proof (count_drop k 1 l). lia.
  - intros Hle. rewrite count_cons, Hky. apply IH. lia.
Qed.

Lemma count_remove_first k arg l : (count k (remove_first arg l) <= count k l)%nat.
Proof.
  induction l as [|y l IH]; [done|]. simpl.
  destruct (String.eqb y arg); rewrite !count_cons; lia.
Qed.

Lemma count_remove_keywords k bad : forall l,
  (count k (remove_keywords bad l) <= count k l)%nat.
Proof.
  unfold remove_keywords. induction bad as [|arg bad IH]; intros l; [done|].
  simpl. etrans; [apply IH|apply count_del_pair].
Qed.

Lemma count_remove_positional k bad : forall l,
  (count k (remove_positional bad l) <= count k l)%nat.
Proof.
  unfold remove_positional. induction bad as [|arg bad IH]; intros l; [done|].
  simpl. etrans; [apply IH|apply count_remove_first].
Qed.

Lemma remove_keywords_absent k bad : forall l,
  k ∈ bad -> (count k l <= 1)%nat -> count k (remove_keywords bad l) = 0%nat.
Proof.
  induction bad as [|arg bad IH]; intros l Hk Hle; [by apply elem_of_nil in Hk|].
  apply elem_of_cons in Hk as [->|Hk].
  - pose proof (count_remove_keywords arg bad (del_pair arg l)) as Hmono.
    rewrite count_del_pair_self in Hmono by done.
    change (remove_keywords (arg :: bad) l) with (remove_keywords bad (del_pair arg l)).
    lia.
  - change (remove_keywords (arg :: bad) l) with (remove_keywords bad (del_pair arg l)).
    apply IH; [done|]. pose proof (count_del_pair k arg l). lia.
Qed.

(** X23 (QueueManager.cleanAndModifyArgs): a keyword to remove, one the
    derived scheduler names or one of the five the method adds, that occurs
    at most once among the arguments after the splitting, is not among the
    arguments returned, unless the method itself puts it back: it is
    [--cli-args] or the quoted text of [options.cli_args], and that option
    is set. *)
Theorem cleanAndModifyArgs_drops_keywords argv bad_args bad_keyword_args cli_args k :
  k ∈ bad_keyword_args ++ builtin_keywords ->
  (count k (split_key_values argv) <= 1)%nat ->
  k ∈ cleanAndModifyArgs argv bad_args bad_keyword_args cli_args None ->
  exists c, cli_args = Some c /\ c <> "" /\ (k = "--cli-args" \/ k = quoted c).
Proof.
  intros Hk Hle Hin. unfold cleanAndModifyArgs in Hin.
  pose proof (remove_keywords_absent k _ _ Hk Hle) as Hgone.
  set (kept := remove_keywords (bad_keyword_args ++ builtin_keywords)
                               (split_key_values argv)) in *.
  assert (Hpos : forall l, k ∈ remove_positional bad_args l -> k ∈ l).
  { intros l Hl. apply dec_stable. intros Hnot%count_zero.
    pose proof (count_remove_positional k bad_args l) as Hmono.
    apply (proj1 (count_zero k (remove_positional bad_args l))); [lia|done]. }
  apply Hpos in Hin. apply count_zero in Hgone.
  destruct cli_args as [c|]; [|done].
  destruct (String.eqb c "") eqn:Hc; [done|]. apply String.eqb_neq in Hc.
  exists c. split; [done|]. split; [done|].
  apply elem_of_app in Hin as [Hin|Hin]; [done|].
  apply elem_of_cons in Hin as [->|Hin]; [by left|].
  apply list_elem_of_singleton in Hin. by right.
Qed.

Lemma cleanAndModifyArgs_drops_keywords_witness :
  exists c, Some "-v" = Some c /\ c <> "" /\ ("--cli-args" = "--cli-args" \/ "--cli-args" = quoted c).
Proof.
  apply (cleanAndModifyArgs_drops_keywords
           ["--pbs"; "--cli-args=-v"; "-j"; "4"; "--queue-project=moose"]
           ["--pbs"] ["--queue-project"] (Some "-v") "--cli-args").
  - vm_compute. set_solver.
  - vm_compute. lia.
  - vm_compute. set_solver.
Defined.

(** *** [getCores] and [getMaxTime] *)

Section Group.
Context {Timing : Type}.
Variable getSlots : Job Timing -> Z.
Variable getMaxTime_int : Job Timing -> Z.

Lemma max_slots_spec (l : list (Job Timing)) : forall a,
  let r := foldl (fun slots job => Z.max slots (getSlots job)) a l in
  (a <= r)%Z
  /\ (forall job, job ∈ l -> (getSlots job <= r)%Z)
  /\ (r = a \/ exists job, job ∈ l /\ getSlots job = r).
Proof.
  induction l as [|j l IH]; intros a; simpl.
  { split; [lia|]. split; [by intros ? ?%elem_of_nil|by left]. }
  destruct (IH (Z.max a (getSlots j))) as (Hge & Hall & Hatt).
  split; [lia|]. split.
  - intros job [->|Hjob]%elem_of_cons; [lia|by apply Hall].
  - destruct Hatt as [Heq|(job & Hjob & Heq)].
    + destruct (Z.max_spec a (getSlots j)) as [[_ Hm]|[_ Hm]].
      * right. exists j. split; [by left|]. by rewrite Heq, Hm.
      * left. by rewrite Heq, Hm.
    + right. exists job. split; [by right|done].
Qed.

(** X24 (QueueManager.getCores): the number of cores asked for a group is
    at least 1 and at least what each job that is not skipped needs, and it
    is 1 or what one of these jobs needs: the largest need, and never that
    of a skipped job alone. *)
Theorem getCores_is_largest_need (job_list : list (Job Timing)) :
  (1 <= getCores getSlots job_list)%Z
  /\ (forall job, job ∈ job_list -> isSkip job = false ->
        (getSlots job <= getCores getSlots job_list)%Z)
  /\ (getCores getSlots job_list = 1%Z
      \/ exists job, job ∈ job_list /\ isSkip job = false
                     /\ getSlots job = getCores getSlots job_list).
Proof.
  unfold getCores.
  destruct (max_slots_spec (List.filter (fun x => negb (isSkip x)) job_list) 1)
    as (Hge & Hall & Hatt).
  split; [done|]. split.
  - intros job Hjob Hskip. apply Hall, list_elem_of_In, filter_In.
    split; [by apply list_elem_of_In|by rewrite Hskip].
  - destruct Hatt as [?|(job & Hjob%list_elem_of_In%filter_In & Heq)]; [by left|].
    right. exists job. destruct Hjob as [Hjob Hskip%negb_true_iff].
    by apply list_elem_of_In in Hjob.
Qed.

Lemma foldl_filter_permutation (f : Z -> Job Timing -> Z) (keep : Job Timing -> bool)
    (l l' : list (Job Timing)) :
  (forall a x y, f (f a x) y = f (f a y) x) ->
  l ≡ₚ l' ->
  forall a, foldl f a (List.filter keep l) = foldl f a (List.filter keep l').
Proof.
  intros Hcomm. induction 1 as [|x l l' _ IH|x y l|l l' l'' _ IH _ IH']; intros a.
  - done.
  - simpl. destruct (keep x); simpl; apply IH.
  - simpl. destruct (keep x), (keep y); simpl; try done. by rewrite Hcomm.
  - by rewrite IH, IH'.
Qed.

(** X25 (QueueManager.getCores, QueueManager.getMaxTime): the cores and
    the time asked for a group do not depend on the order of its jobs. *)
Theorem group_needs_ignore_order (job_list job_list' : list (Job Timing)) :
  job_list ≡ₚ job_list' ->
  getCores getSlots job_list = getCores getSlots job_list'
  /\ getMaxTime getMaxTime_int job_list = getMaxTime getMaxTime_int job_list'.
Proof.
  intros Hperm. split.
  - apply foldl_filter_permutation; [intros; lia|done].
  - apply foldl_filter_permutation; [intros; lia|done].
Qed.
End Group.

Lemma group_needs_ignore_order_witness :
  let a := fresh_job "a" no_status in
  let b := fresh_job "b" skip in
  let slots := fun job : Job Z => if String.eqb (getTestName job) "a" then 4%Z else 8%Z in
  getCores slots [a; b] = getCores slots [b; a]
  /\ getMaxTime slots [a; b] = getMaxTime slots [b; a].
Proof.
  intros a b slots.
  apply (group_needs_ignore_order slots slots [a; b] [b; a]).
  apply Permutation_swap.
Defined.

(** *** Paths *)

Lemma startswith_iff a s : startswith a s = true <-> exists r, s = a +:+ r.
Proof.
  unfold startswith. revert s. induction a as [|c a IH]; intros s.
  { simpl. split; [by exists s|done]. }
  destruct s as [|d s]; simpl.
  { split; [done|]. by intros [r Hr]. }
  destruct (Ascii.eqb c d) eqn:Hcd.
  - apply Ascii.eqb_eq in Hcd as ->. rewrite IH. split.
    + intros [r ->]. by exists r.
    + intros [r Hr]. exists r. rewrite ParserMore.append_String in Hr. congruence.
  - apply Ascii.eqb_neq in Hcd. split; [done|].
    intros [r Hr]. rewrite ParserMore.append_String in Hr. congruence.
Qed.

Lemma components_nonempty p : components p <> [].
Proof.
  induction p as [|c p IH]; simpl; [done|].
  destruct (Ascii.eqb c "/"); [done|]. by destruct (components p).
Qed.

Lemma components_app_slash a b :
  components (a +:+ String "/" b) = components a ++ components b.
Proof.
  induction a as [|c a IH]; [done|].
  rewrite ParserMore.append_String. simpl.
  destruct (Ascii.eqb c "/"); [by rewrite IH|].
  rewrite IH. pose proof (components_nonempty a). by destruct (components a).
Qed.

Lemma components_no_slash s : no_slash s = true -> components s = [s].
Proof.
  induction s as [|c s IH]; [done|]. simpl.
  intros [Hc Hs]%andb_true_iff. apply negb_true_iff in Hc. rewrite Hc, (IH Hs). done.
Qed.

Lemma components_slashes k : components (slashes k) = repeat "" (S k).
Proof. induction k as [|k IH]; [done|]. simpl. by rewrite IH. Qed.

Lemma components_snoc_slashes X k :
  components (X +:+ slashes k) = components X ++ repeat "" k.
Proof.
  destruct k as [|k]; simpl.
  - by rewrite ParserMore.append_nil_r, app_nil_r.
  - rewrite components_app_slash, components_slashes. done.
Qed.

(** A text without a slash, put after a path, lengthens its last
    component. *)
Lemma components_extend X name :
  no_slash name = true ->
  exists R l, components X = R ++ [l] /\ components (X +:+ name) = R ++ [l +:+ name].
Proof.
  intros Hname. induction X as [|c X (R & l & HX & HXn)].
  { exists [], "". split; [done|]. simpl. by apply components_no_slash. }
  rewrite ParserMore.append_String. simpl.
  destruct (Ascii.eqb c "/").
  - exists ("" :: R), l. by rewrite HX, HXn.
  - rewrite HX, HXn. destruct R as [|r R]; simpl.
    + exists [], (String c l). done.
    + exists (String c r :: R), l. done.
Qed.

Lemma append_slashes_comm k : slashes k +:+ "/" = String "/" (slashes k).
Proof.
  induction k as [|k IH]; [done|]. cbn [slashes].
  by rewrite ParserMore.append_String, IH.
Qed.

(** A path is the text up to its last slash followed by a text without a
    slash. *)
Lemma head_of_split p :
  exists name,
    no_slash name = true
    /\ p = head_of p +:+ name
    /\ (head_of p = "" \/ exists h, head_of p = h +:+ "/").
Proof.
  induction p as [|c p (name & Hns & Hp & Hh)]; [by exists ""; eauto|].
  simpl. destruct (head_of p) as [|h0 h] eqn:Hhead.
  - simpl in Hp. subst p. destruct (Ascii.eqb c "/") eqn:Hc.
    + apply Ascii.eqb_eq in Hc as ->. exists name. split; [done|].
      split; [done|]. right. by exists "".
    + exists (String c name). split; [by simpl; rewrite Hc|]. split; [done|]. by left.
  - exists name. split; [done|].
    split; [by rewrite ParserMore.append_String, <- Hp|].
    right. destruct Hh as [Hh|[h' Hh']]; [done|]. exists (String c h').
    by rewrite ParserMore.append_String, <- Hh'.
Qed.

Lemma last_snoc {A} (l : list A) x d : List.last (l ++ [x]) d = x.
Proof. induction l as [|y l IH]; [done|]. simpl. rewrite IH. by destruct (l ++ [x]) eqn:E; [destruct l|]. Qed.

(** That text is the last component. *)
Lemma head_of_shape p :
  no_slash (last_component p) = true
  /\ p = head_of p +:+ last_component p
  /\ (head_of p = "" \/ exists h, head_of p = h +:+ "/").
Proof.
  destruct (head_of_split p) as (name & Hns & Hp & Hh).
  assert (last_component p = name) as ->; [|done].
  unfold last_component. rewrite Hp at 1.
  destruct Hh as [->|[h ->]].
  - change ("" +:+ name) with name. by rewrite (components_no_slash _ Hns).
  - rewrite ParserMore.append_assoc.
    change ("/" +:+ name) with (String "/" name).
    rewrite components_app_slash, (components_no_slash _ Hns). apply last_snoc.
Qed.

Lemma rstrip_slash_split s : exists k, s = rstrip_slash s +:+ slashes k.
Proof.
  induction s as [|c s [k IH]]; [by exists 0%nat|]. simpl.
  destruct (rstrip_slash s) as [|r0 r] eqn:Hr.
  - change ("" +:+ slashes k) with (slashes k) in IH. subst s.
    destruct (Ascii.eqb c "/") eqn:Hc.
    + apply Ascii.eqb_eq in Hc as ->. by exists (S k).
    + by exists k.
  - exists k. by rewrite ParserMore.append_String, <- IH.
Qed.

Lemma rstrip_slash_no_trailing s h : rstrip_slash s <> h +:+ "/".
Proof.
  revert h. induction s as [|c s IH]; intros h; simpl.
  { by destruct h. }
  destruct (rstrip_slash s) as [|r0 r] eqn:Hr.
  - destruct (Ascii.eqb c "/") eqn:Hc; [by destruct h|].
    destruct h as [|h0 h]; [|by destruct h].
    intros [= ->]. by rewrite Ascii.eqb_refl in Hc.
  - destruct h as [|h0 h]; [done|].
    rewrite ParserMore.append_String. intros [= <- Hrest]. by apply (IH h).
Qed.

(** [dirname] takes the last component off, with the slashes before it. *)
Lemma dirname_shape d :
  exists k,
    d = dirname d +:+ slashes k +:+ last_component d
    /\ ((1 <= k)%nat \/ (k = 0%nat /\ exists m, dirname d = slashes m)).
Proof.
  destruct (head_of_shape d) as (_ & Hd & Hh).
  destruct (rstrip_slash_split (head_of d)) as [k Hk].
  unfold dirname. destruct (rstrip_slash (head_of d)) as [|r0 r] eqn:Hr.
  - exists 0%nat. split; [done|]. right. split; [done|]. by exists k.
  - exists k. split; [by rewrite <- ParserMore.append_assoc, <- Hk|].
    left. destruct k as [|k]; [|lia]. exfalso.
    rewrite ParserMore.append_nil_r in Hk.
    destruct Hh as [Hh|[h Hh]]; [by rewrite Hh in Hk|].
    apply (rstrip_slash_no_trailing (head_of d) h). by rewrite Hr, <- Hk.
Qed.

Lemma endswith_slash_split s : endswith_slash s = true -> exists c, s = c +:+ "/".
Proof.
  induction s as [|a s IH]; [done|]. simpl.
  destruct s as [|b s].
  - intros ->%Ascii.eqb_eq. by exists "".
  - intros [c Hc]%IH. exists (String a c). by rewrite ParserMore.append_String, <- Hc.
Qed.

Lemma isabs_append a r : a <> "" -> isabs (a +:+ r) = isabs a.
Proof. by destruct a. Qed.

Lemma dirname_absolute p : isabs p = true -> isabs (dirname p) = true.
Proof.
  destruct p as [|c p]; [done|]. intros Habs.
  assert (c = "/"%char) as ->.
  { simpl in Habs. destruct c as [[] [] [] [] [] [] [] []]; try done. }
  unfold dirname.
  assert (Hhead : exists h, head_of (String "/" p) = String "/" h).
  { simpl. destruct (head_of p); by eexists. }
  destruct Hhead as [h Hh]. rewrite Hh.
  simpl. destruct (rstrip_slash h); done.
Qed.

Lemma components_slashes_name j name :
  no_slash name = true -> components (slashes j +:+ name) = repeat "" j ++ [name].
Proof.
  intros Hns. induction j as [|j IH]; [by apply components_no_slash|].
  cbn [slashes]. rewrite ParserMore.append_String. simpl. by rewrite IH.
Qed.

(** The same for the absolute paths of a path and of its directory. *)
Lemma abspath_shape fs d :
  exists X k,
    Runner.abspath fs (dirname d) = X
    /\ Runner.abspath fs d = X +:+ slashes k +:+ last_component d
    /\ ((1 <= k)%nat \/ (k = 0%nat /\ exists R, components X = R ++ [""])).
Proof.
  destruct (dirname_shape d) as (k & Hd & Hk).
  unfold Runner.abspath, path_join. destruct (isabs d) eqn:Habs.
  - rewrite (dirname_absolute d Habs). exists (dirname d), k.
    split; [done|]. split; [done|].
    destruct Hk as [Hk|[-> [m Hm]]]; [by left|]. right. split; [done|].
    exists (repeat "" m). rewrite Hm, components_slashes. apply repeat_cons.
  - assert (isabs (dirname d) = false) as ->.
    { destruct (dirname d) as [|c t] eqn:Htd; [done|].
      rewrite Hd in Habs. by rewrite isabs_append in Habs. }
    set (cwd := Runner.fs_cwd fs).
    assert (Hpre : exists pre,
               (forall b, (if String.eqb cwd "" || endswith_slash cwd
                           then cwd +:+ b else cwd +:+ "/" +:+ b) = pre +:+ b)
               /\ exists R, components pre = R ++ [""]).
    { destruct (String.eqb cwd "") eqn:Hempty; simpl.
      { apply String.eqb_eq in Hempty. rewrite Hempty. exists "". split; [done|]. by exists []. }
      destruct (endswith_slash cwd) eqn:Hslash.
      - exists cwd. split; [done|]. destruct (endswith_slash_split _ Hslash) as [c ->].
        exists (components c). by rewrite components_app_slash.
      - exists (cwd +:+ "/"). split; [intros b; by rewrite ParserMore.append_assoc|].
        exists (components cwd). by rewrite components_app_slash. }
    destruct Hpre as (pre & Hjoin & R & HR). rewrite !Hjoin.
    exists (pre +:+ dirname d), k. split; [done|].
    split; [by rewrite Hd at 1; rewrite ParserMore.append_assoc|].
    destruct Hk as [Hk|[-> [m Hm]]]; [by left|]. right. split; [done|].
    destruct m as [|m].
    + rewrite Hm. simpl. rewrite ParserMore.append_nil_r. by exists R.
    + exfalso. rewrite Hd, Hm in Habs. done.
Qed.

(** *** Walking a path *)

Lemma walk_app fs a b : forall names,
  walk fs (a ++ b) names = walk fs a names ≫= walk fs b.
Proof.
  induction a as [|c a IH]; intros names; simpl; [done|].
  destruct (dir_exists fs names); [|done].
  destruct (String.eqb c "" || String.eqb c "."); [apply IH|].
  destruct (String.eqb c ".."); apply IH.
Qed.

Lemma walk_single fs c names r :
  walk fs [c] names = Some r <-> dir_exists fs names = true /\ r = step names c.
Proof.
  simpl. unfold step. destruct (dir_exists fs names); [|by split; [|intros []]].
  destruct (String.eqb c "" || String.eqb c "."); [naive_solver|].
  destruct (String.eqb c ".."); naive_solver.
Qed.

Lemma walk_empties fs j : forall names r,
  walk fs (repeat "" j) names = Some r -> r = names.
Proof.
  induction j as [|j IH]; intros names r; simpl; [by intros [= <-]|].
  destruct (dir_exists fs names); [apply IH|done].
Qed.

Lemma step_plain names c :
  c <> ".." -> step names c = names \/ step names c = names ++ [c].
Proof.
  intros Hc. unfold step. destruct (String.eqb c "" || String.eqb c "."); [by left|].
  apply String.eqb_neq in Hc as ->. by right.
Qed.

(** What a path resolves to lies in what its directory resolves to, or is
    that very place, unless its last component is [..]. *)
Lemma resolve_dirname fs d names :
  last_component d <> ".." ->
  resolve fs d = Some names ->
  exists tn, resolve fs (dirname d) = Some tn
             /\ (names = tn \/ exists c, names = tn ++ [c]).
Proof.
  intros Hlast. destruct (head_of_shape d) as (Hns & _ & _).
  destruct (abspath_shape fs d) as (X & k & HX & Hd & Hk).
  unfold resolve. rewrite Hd, HX. set (name := last_component d) in *.
  assert (Hend : forall R tn,
            walk fs R [] = Some tn -> walk fs [name] tn = Some names ->
            dir_exists fs tn = true /\ (names = tn \/ exists c, names = tn ++ [c])).
  { intros R tn _ [Hdir ->]%walk_single. split; [done|].
    destruct (step_plain tn name Hlast) as [->| ->]; [by left|right; by eexists]. }
  destruct k as [|j].
  - destruct Hk as [Hk|[_ [R HR]]]; [lia|].
    change (X +:+ slashes 0 +:+ name) with (X +:+ ("" +:+ name)).
    change ("" +:+ name) with name.
    destruct (components_extend X name Hns) as (R' & l & HX' & HXn).
    rewrite HR in HX'. apply app_inj_tail in HX' as [<- <-].
    rewrite HXn, HR. change ("" +:+ name) with name. rewrite !walk_app.
    destruct (walk fs R []) as [tn|] eqn:HwR; [|done]. cbn [mbind option_bind].
    intros Hname. destruct (Hend R tn HwR Hname) as [Hdir Hnames].
    exists tn. split; [|done]. apply walk_single. split; [done|]. done.
  - cbn [slashes]. rewrite ParserMore.append_String.
    rewrite components_app_slash, (components_slashes_name j name Hns), !walk_app.
    destruct (walk fs (components X) []) as [tn|] eqn:HwX; [|done]. cbn [mbind option_bind].
    rewrite walk_app.
    destruct (walk fs (repeat "" j) tn) as [tn'|] eqn:Hwj; [|done]. cbn [mbind option_bind].
    apply walk_empties in Hwj as ->. intros Hname.
    destruct (Hend (components X) tn HwX Hname) as [_ Hnames]. by exists tn.
Qed.

(** With fewer files, what still resolves resolves to the same place. *)
Lemma dir_exists_mono (fs fs' : Runner.FS) names :
  Runner.fs_files fs' ⊆ Runner.fs_files fs ->
  dir_exists fs' names = true -> dir_exists fs names = true.
Proof.
  intros Hsub. unfold dir_exists. destruct names as [|c names]; [done|].
  intros (p & Hp & Hunder)%existsb_exists. apply existsb_exists. exists p.
  split; [|done]. apply list_elem_of_In, elem_of_elements, Hsub.
  by apply elem_of_elements, list_elem_of_In.
Qed.

Lemma walk_mono (fs fs' : Runner.FS) comps :
  Runner.fs_files fs' ⊆ Runner.fs_files fs ->
  forall names r, walk fs' comps names = Some r -> walk fs comps names = Some r.
Proof.
  intros Hsub. induction comps as [|c comps IH]; intros names r; simpl; [done|].
  destruct (dir_exists fs' names) eqn:Hdir; [|done].
  rewrite (dir_exists_mono fs fs' names Hsub Hdir).
  destruct (String.eqb c "" || String.eqb c "."); [apply IH|].
  destruct (String.eqb c ".."); apply IH.
Qed.

Lemma resolve_mono (fs fs' : Runner.FS) p r :
  Runner.fs_files fs' ⊆ Runner.fs_files fs -> Runner.fs_cwd fs' = Runner.fs_cwd fs ->
  resolve fs' p = Some r -> resolve fs p = Some r.
Proof.
  intros Hsub Hcwd. unfold resolve, Runner.abspath. rewrite Hcwd. by apply walk_mono.
Qed.

(** *** Clean-up *)

Lemma below_app a b : below (a ++ b) = below a +:+ below b.
Proof.
  induction a as [|c a IH]; [done|]. simpl.
  by rewrite IH, !ParserMore.append_String, !ParserMore.append_assoc.
Qed.

Lemma path_of_under tn : exists r, under tn = path_of tn +:+ r.
Proof.
  unfold under, path_of. destruct tn as [|c tn]; [by exists ""|]. by exists "/".
Qed.

(** What lies below a place, or is that place, starts with the path of the
    directory it is in. *)
Lemma starts_with_directory tn names p :
  names = tn \/ (exists c, names = tn ++ [c]) ->
  startswith (under names) p = true \/ p = path_of names ->
  startswith (path_of tn) p = true.
Proof.
  intros Hnames Hp. apply startswith_iff.
  destruct (path_of_under tn) as [u Hu].
  assert (Hsnoc : forall c, exists r, path_of (tn ++ [c]) = path_of tn +:+ r).
  { intros c. unfold path_of at 1.
    destruct (tn ++ [c]) as [|x l] eqn:E; [by destruct tn|]. rewrite <- E, below_app.
    simpl. change (below tn +:+ String "/" (c +:+ ""))
             with (below tn +:+ ("/" +:+ (c +:+ ""))).
    rewrite <- ParserMore.append_assoc. fold (under tn). rewrite Hu.
    eexists. by rewrite ParserMore.append_assoc. }
  destruct Hnames as [->|[c ->]].
  - destruct Hp as [[r ->]%startswith_iff| ->].
    + rewrite Hu. eexists. by rewrite ParserMore.append_assoc.
    + exists "". by rewrite ParserMore.append_nil_r.
  - destruct (Hsnoc c) as [r Hr].
    destruct Hp as [[r' ->]%startswith_iff| ->].
    + unfold under. assert (below (tn ++ [c]) = path_of (tn ++ [c])) as ->.
      { unfold path_of. by destruct (tn ++ [c]) eqn:E; [destruct tn|]. }
      rewrite Hr. eexists. by rewrite !ParserMore.append_assoc.
    + by exists r.
Qed.

Lemma delete_cwd fs d : Runner.fs_cwd (delete fs d) = Runner.fs_cwd fs.
Proof.
  unfold delete, rmtree, os_remove.
  destruct (isdir fs d); by destruct (resolve fs d).
Qed.

Lemma delete_subseteq fs d : Runner.fs_files (delete fs d) ⊆ Runner.fs_files fs.
Proof.
  unfold delete, rmtree, os_remove.
  destruct (isdir fs d); destruct (resolve fs d); simpl; set_solver.
Qed.

(** A file that [delete] takes away lies below the place that the path
    given resolves to, or is that place. *)
Lemma delete_removed fs d p :
  p ∈ Runner.fs_files fs -> p ∉ Runner.fs_files (delete fs d) ->
  exists names, resolve fs d = Some names
                /\ (startswith (under names) p = true \/ p = path_of names).
Proof.
  intros Hp. unfold delete, rmtree, os_remove.
  destruct (isdir fs d); destruct (resolve fs d) as [names|]; simpl; try done.
  - intros Hgone. exists names. split; [done|]. left.
    destruct (startswith (under names) p) eqn:Hunder; [done|].
    exfalso. apply Hgone. by apply elem_of_filter.
  - intros Hgone. exists names. split; [done|]. right.
    destruct (decide (p = path_of names)) as [|Hne]; [done|].
    exfalso. apply Hgone. set_solver.
Qed.

Section Augment.
Context {Timing : Type} `{IsZero Timing}.
Variable getSlots : Job Timing -> Z.
Variable getMaxTime_int : Job Timing -> Z.
Variable QUEUE_FILES : string -> option (list string).

Lemma cleanup_loop_subseteq test_dir (dirty : list string) : forall fs,
  Runner.fs_files (foldl (fun fs dirty_file =>
                            if String.eqb (dirname dirty_file) test_dir
                            then delete fs dirty_file else fs) fs dirty)
  ⊆ Runner.fs_files fs.
Proof.
  induction dirty as [|d dirty IH]; intros fs; simpl; [done|].
  destruct (String.eqb (dirname d) test_dir); [|apply IH].
  etrans; [apply IH|apply delete_subseteq].
Qed.

Lemma cleanup_loop fs0 test_dir (dirty : list string) :
  Forall (fun d => last_component d <> "..") dirty ->
  forall fs,
    Runner.fs_files fs ⊆ Runner.fs_files fs0 -> Runner.fs_cwd fs = Runner.fs_cwd fs0 ->
    let fs' := foldl (fun fs dirty_file =>
                        if String.eqb (dirname dirty_file) test_dir
                        then delete fs dirty_file else fs) fs dirty in
    Runner.fs_files fs' ⊆ Runner.fs_files fs
    /\ forall p, p ∈ Runner.fs_files fs ->
         starts_in fs0 test_dir p = false -> p ∈ Runner.fs_files fs'.
Proof.
  induction 1 as [|d dirty Hd _ IH]; intros fs Hsub Hcwd; simpl; [done|].
  destruct (String.eqb (dirname d) test_dir) eqn:Hguard; [|by apply IH].
  apply String.eqb_eq in Hguard.
  destruct (IH (delete fs d)) as (Hsub' & Hkeep).
  { etrans; [apply delete_subseteq|done]. }
  { by rewrite delete_cwd. }
  split; [etrans; [apply Hsub'|apply delete_subseteq]|].
  intros p Hp Hout. apply Hkeep; [|done].
  destruct (decide (p ∈ Runner.fs_files (delete fs d))) as [|Hgone]; [done|exfalso].
  destruct (delete_removed fs d p Hp Hgone) as (names & Hres & Hwhere).
  apply (resolve_mono fs0) in Hres; [|done|done].
  destruct (resolve_dirname fs0 d names Hd Hres) as (tn & Htn & Hnames).
  unfold starts_in in Hout. rewrite <- Hguard, Htn in Hout.
  by rewrite (starts_with_directory tn names p Hnames Hwhere) in Hout.
Qed.

(** X26 (QueueManager._cleanupFiles, QueueManager.getDirtyFiles): the
    clean-up leaves every job silent and finished and creates no file; and
    when no recorded file name has [..] for its last component, it keeps
    every file whose path does not start with the path that the test
    directory of the first job resolves to. *)
Theorem cleanupFiles_stays_in_test_directory
    (results_storage : option (gmap string (gmap string Stored)))
    (job_list : list (Job Timing)) (fs : Runner.FS) :
  let after := _cleanupFiles QUEUE_FILES results_storage job_list fs in
  Forall (fun job => tester_status (getTester job) = silent /\ job_status job = finished)
         after.1
  /\ map getTestName after.1 = map getTestName job_list
  /\ Runner.fs_files after.2 ⊆ Runner.fs_files fs
  /\ forall first rest p,
       job_list = first :: rest ->
       Forall (fun d => last_component d <> "..")
              (getDirtyFiles QUEUE_FILES results_storage first) ->
       p ∈ Runner.fs_files fs ->
       starts_in fs (getTestDir first) p = false ->
       p ∈ Runner.fs_files after.2.
Proof.
  unfold _cleanupFiles.
  assert (Hjobs : Forall (fun job : Job Timing =>
                            tester_status (getTester job) = silent
                            /\ job_status job = finished)
            (map (fun job => set_finished (with_tester job (setStatus (getTester job) silent "")))
                 job_list)
          /\ map getTestName
               (map (fun job => set_finished (with_tester job (setStatus (getTester job) silent "")))
                    job_list)
             = map getTestName job_list).
  { split; [apply Forall_forall; by intros ? (j & -> & _)%list_elem_of_fmap|].
    rewrite map_map. by apply map_ext. }
  destruct Hjobs as [Hsilent Hnames].
  destruct job_list as [|first rest]; simpl.
  { split; [done|]. split; [done|]. split; [done|]. by intros. }
  simpl in Hsilent, Hnames.
  split; [done|]. split; [done|].
  set (dirty := getDirtyFiles QUEUE_FILES results_storage
                  (set_finished (with_tester first (setStatus (getTester first) silent "")))).
  assert (dirty = getDirtyFiles QUEUE_FILES results_storage first) as Hdirty by done.
  split; [apply cleanup_loop_subseteq|].
  intros first' rest' p [= <- <-] Hplain Hp Hout. rewrite <- Hdirty in Hplain.
    destruct (cleanup_loop fs (getTestDir first) dirty Hplain fs) as [_ Hkeep]; [done|done|].
  by apply Hkeep.
Qed.
End Augment.

(** *** [augmentJobs] *)

Section Launch.
Context {Timing : Type} `{IsZero Timing}.
Variable getSlots : Job Timing -> Z.
Variable getMaxTime_int : Job Timing -> Z.
Variable QUEUE_FILES : string -> option (list string).

Abbreviation unfinished := (fun job : Job Timing => negb (isFinished job)).

Lemma finished_queued (js : list (Job Timing)) :
  let js' := map (fun job =>
                    let tester := getTester job in
                    let tester := if isNoStatus tester
                                  then setStatus tester no_status "QUEUED" else tester in
                    set_finished (with_tester job tester)) js in
  Forall (fun job => job_status job = finished) js'
  /\ map getTestName js' = map getTestName js.
Proof.
  split; [apply Forall_forall; by intros ? (j & -> & _)%list_elem_of_fmap|].
  rewrite map_map. by apply map_ext.
Qed.

Lemma finished_all (js : list (Job Timing)) :
  Forall (fun job => job_status job = finished) (_finishAllJobs js)
  /\ map getTestName (_finishAllJobs js) = map getTestName js.
Proof.
  unfold _finishAllJobs.
  split; [apply Forall_forall; by intros ? (j & -> & _)%list_elem_of_fmap|].
  rewrite map_map. by apply map_ext.
Qed.

(** Whatever the loop body of [_setJobStatus] raises, it has finished the
    job and kept its name. *)
Lemma set_one_finished (group_results : Json Timing) (job : Job Timing) :
  job_status (set_one group_results job).1 = finished
  /\ getTestName (set_one group_results job).1 = getTestName job.
Proof. unfold set_one. repeat case_match; done. Qed.

Lemma set_all_finished (group_results : Json Timing) (job_list : list (Job Timing)) :
  map getTestName (set_all group_results job_list).1 = map getTestName job_list
  /\ ((set_all group_results job_list).2 = None ->
      Forall (fun job => job_status job = finished) (set_all group_results job_list).1).
Proof.
  induction job_list as [|job rest [IHn IHf]]; simpl; [done|].
  pose proof (set_one_finished group_results job) as [Hf Hn].
  destruct (set_one group_results job) as [job' [e|]]; simpl in *.
  - split; [by rewrite Hn|done].
  - destruct (set_all group_results rest) as [rest' e']. simpl in *.
    split; [by rewrite Hn, IHn|]. intros He. constructor; [done|by apply IHf].
Qed.

Lemma setJobStatus_finished (job_data : JobData Timing) file :
  map getTestName (_setJobStatus job_data file).1 = map getTestName (jobs job_data)
  /\ ((_setJobStatus job_data file).2 = None ->
      Forall (fun job => job_status job = finished) (_setJobStatus job_data file).1).
Proof.
  unfold _setJobStatus. destruct (jobs job_data) as [|first rest]; [done|].
  destruct file as [| |results]; [done|done|].
  destruct (subscript results (job_dir job_data)); [done|].
  destruct (storage_item job_data); [done|].
  apply (set_all_finished _ (addMetaData first _ _ :: rest)).
Qed.

(** The election: the jobs keep their names; a job left unfinished carries
    the stamp; and one job is left unfinished when there was one, none
    otherwise. *)
Lemma elect_spec plugin ncpus maxtime (job_list : list (Job Timing)) :
  let js := elect plugin ncpus maxtime job_list in
  map getTestName js = map getTestName job_list
  /\ Forall (fun job => isFinished job = false ->
               exists m, meta job = m ++ [("QUEUEING", MetaStr plugin);
                                          ("QUEUEING_NCPUS", MetaInt ncpus);
                                          ("QUEUEING_MAXTIME", MetaInt maxtime)]) js
  /\ length (List.filter unfinished js)
     = Nat.min 1 (length (List.filter unfinished job_list)).
Proof.
  induction job_list as [|x rest (IHn & IHm & IHc)]; simpl; [done|].
  destruct (isFinished x) eqn:Hx; simpl.
  - rewrite Hx. simpl. split; [by rewrite IHn|]. split; [|done].
    constructor; [by rewrite Hx|done].
  - assert (isFinished (stamp plugin ncpus maxtime x) = false) as Hstamp by done.
    rewrite Hstamp. simpl.
    assert (Hrest : map getTestName
                      (map (fun y => if isFinished y then y else launching y) rest)
                    = map getTestName rest
                    /\ Forall (fun job : Job Timing => isFinished job = true)
                         (map (fun y => if isFinished y then y else launching y) rest)).
    { split; [rewrite map_map; apply map_ext; intros y; by destruct (isFinished y)|].
      apply Forall_forall. intros ? (y & -> & _)%list_elem_of_fmap.
      by destruct (isFinished y) eqn:Hy. }
    destruct Hrest as [Hn Hf]. split; [by rewrite Hn|]. split.
    + constructor.
      * intros _. exists (meta x). unfold stamp, addMetaData. simpl.
        by rewrite <- !app_assoc.
      * eapply Forall_impl; [exact Hf|]. intros job Hjob. by rewrite Hjob.
    + assert (List.filter unfinished
                (map (fun y => if isFinished y then y else launching y) rest) = []) as ->.
      { clear -Hf. induction Hf as [|y l Hy _ IH]; simpl; [done|]. by rewrite Hy. }
      simpl. by destruct (length (List.filter unfinished rest)).
Qed.

(** X27 (QueueManager.augmentJobs, with _isProcessReady, _isLaunchable,
    _prepareJobs, _setJobStatus and _finishAllJobs): without the clean-up
    option and with a job in the group, the method changes no file and no
    name of a job.  Without stored session data it raises nothing and
    prepares the launch: one job is left unfinished when there was one, none
    otherwise, and a job left unfinished carries the name of the plugin and
    the cores and the time of the group as its last metadata.  With session
    data it does not prepare a launch: when it raises nothing every job
    ends finished, and what it raises, [_setJobStatus] raises, on a results
    file that is there and for a plugin that has stored data. *)
Theorem augmentJobs_launches_or_reaps
    (results_storage : option (gmap string (gmap string Stored))) (plugin : string)
    (file : ResultsFile Timing)
    (first : Job Timing) (rest : list (Job Timing)) (fs : Runner.FS) :
  let job_list := first :: rest in
  let job_data := mkJobData job_list (getTestDir first) results_storage plugin in
  let cleared := map (fun x => if isSkip x then x else clearCaveats x) job_list in
  let '(js, fs', e) :=
    augmentJobs getSlots getMaxTime_int QUEUE_FILES false results_storage plugin file
                job_list fs in
  fs' = fs
  /\ map getTestName js = map getTestName job_list
  /\ (if nonempty results_storage
      then (e = None -> Forall (fun job => job_status job = finished) js)
           /\ (e <> None ->
               file <> NoFile
               /\ nonempty (stored_plugin job_data) = true
               /\ (js, e) = _setJobStatus job_data file)
      else e = None
           /\ js = _prepareJobs getSlots getMaxTime_int job_data
           /\ Forall (fun job => isFinished job = false ->
                        exists m,
                          meta job
                          = m ++ [("QUEUEING", MetaStr plugin);
                                  ("QUEUEING_NCPUS", MetaInt (getCores getSlots cleared));
                                  ("QUEUEING_MAXTIME",
                                   MetaInt (getMaxTime getMaxTime_int cleared))]) js
           /\ length (List.filter unfinished js)
              = Nat.min 1 (length (List.filter unfinished job_list))).
Proof.
  intros job_list job_data cleared. subst job_list. unfold augmentJobs. cbv iota.
  fold job_data.
  set (results_file_exists := match file with NoFile => false | _ => true end).
  pose proof (QueueManagerFacts.isProcessReady_true job_data results_file_exists) as Hready.
  unfold _isLaunchable. change (json_data job_data) with results_storage.
  destruct (nonempty results_storage) eqn:Hsession.
  - destruct (_isProcessReady job_data results_file_exists) as [ready js] eqn:Hrun.
    destruct ready.
    + destruct (Hready eq_refl) as (Hjs & _ & Hplugin & Hexists). simpl in Hjs. subst js.
      fold job_data.
      pose proof (setJobStatus_finished job_data file) as [Hn Hf].
      destruct (_setJobStatus job_data file) as [js e]. simpl in *.
      split; [done|]. split; [done|]. split; [done|].
      intros _. split; [|done]. intros ->. done.
    + clear Hready. cbn [negb]. cbv iota. unfold _isProcessReady in Hrun.
      change (json_data job_data) with results_storage in Hrun.
      change (jobs job_data) with (first :: rest) in Hrun.
      rewrite Hsession in Hrun. cbn [negb] in Hrun. cbv iota in Hrun.
      destruct (nonempty (stored_group job_data) && negb results_file_exists).
      { injection Hrun as <-. split; [done|].
        destruct (finished_queued (first :: rest)) as [Hf Hn]. by repeat split. }
      destruct (negb (nonempty (stored_group job_data))).
      { injection Hrun as <-. split; [done|].
        destruct (finished_all (first :: rest)) as [Hf Hn]. by repeat split. }
      destruct (negb (nonempty (stored_plugin job_data))); [|done].
      injection Hrun as <-. split; [done|].
      destruct (finished_all (first :: rest)) as [Hf Hn]. by repeat split.
  - unfold _isProcessReady. change (json_data job_data) with results_storage.
    rewrite Hsession. cbn [negb]. cbv iota. change (jobs job_data) with (first :: rest).
    fold job_data. unfold _prepareJobs. change (jobs job_data) with (first :: rest).
    fold cleared. change (QueueManager.plugin job_data) with plugin.
    destruct (elect_spec plugin (getCores getSlots cleared)
                (getMaxTime getMaxTime_int cleared) cleared) as (Hn & Hm & Hc).
    split; [done|]. split.
    { rewrite Hn. unfold cleared. rewrite map_map. apply map_ext.
      intros x. by destruct (isSkip x). }
    split; [done|]. split; [done|]. split; [done|].
    rewrite Hc. f_equal. unfold cleared. clear.
    induction (first :: rest) as [|x l IH]; simpl; [done|].
    assert (isFinished (if isSkip x then x else clearCaveats x) = isFinished x) as ->.
    { by destruct (isSkip x). }
    destruct (isFinished x); simpl; by rewrite IH.
Qed.
End Launch.

(** A launch of the group of three jobs, none of them finished: [a] is
    left to run, stamped; the two others end finished, and [n], which has
    no status, is marked LAUNCHING. *)
Example prepareJobs_run :
  let slots := fun job : Job Z => if String.eqb (getTestName job) "n" then 4%Z else 1%Z in
  let js := _prepareJobs slots (fun _ => 10%Z)
              (mkJobData group_jobs "/t" None "QM") in
  map (fun job => (getTestName job, job_status job, status_message (getTester job), meta job))
      js
  = [("a", hold, "", [("QUEUEING", MetaStr "QM"); ("QUEUEING_NCPUS", MetaInt 4);
                      ("QUEUEING_MAXTIME", MetaInt 30)]);
     ("s", finished, "", []);
     ("n", finished, "LAUNCHING", [])].
Proof. by vm_compute. Qed.

(** The guard of [_cleanupFiles] alone does not keep the clean-up in the
    test directory: the recorded name [/t/..] has the directory [/t], is a
    directory, and its tree is everything. *)
Example cleanupFiles_parent_run :
  let fs := Runner.mkFS {[ "/t/job.sh"; "/t/tests"; "/u/job.sh" ]} "/t" in
  let recorded := fun _ : string => Some ["/t/.."] in
  dirname "/t/.." = "/t"
  /\ isdir fs "/t/.." = true
  /\ Runner.fs_files (_cleanupFiles recorded (json_data group_data) group_jobs fs).2 = ∅.
Proof. by vm_compute. Qed.

Example cleanupFiles_run :
  let fs := Runner.mkFS {[ "/t/job.sh"; "/t/out/a.e"; "/t/tests"; "/u/job.sh" ]} "/t" in
  let recorded := fun _ : string => Some ["/t/job.sh"; "/t/out"; "/u/job.sh"; "/t/gone"] in
  Runner.fs_files
    (_cleanupFiles recorded (json_data group_data) group_jobs fs).2
  = {[ "/t/tests"; "/u/job.sh" ]}.
Proof. by vm_compute. Qed.

(** The clean-up of X26 on a group whose recorded names lie inside and
    outside the test directory: the file outside is kept. *)
Lemma cleanupFiles_stays_in_test_directory_witness :
  let fs := Runner.mkFS {[ "/t/job.sh"; "/t/out/a.e"; "/t/tests"; "/u/job.sh" ]} "/t" in
  let recorded := fun _ : string => Some ["/t/job.sh"; "/t/out"; "/u/job.sh"; "/t/gone"] in
  "/u/job.sh" ∈ Runner.fs_files (_cleanupFiles recorded (json_data group_data) group_jobs fs).2.
Proof.
  intros fs recorded.
  destruct (cleanupFiles_stays_in_test_directory recorded (json_data group_data) group_jobs fs)
    as (_ & _ & _ & Hkeep).
  eapply Hkeep.
  - reflexivity.
  - vm_compute. repeat constructor; discriminate.
  - set_solver.
  - by vm_compute.
Defined.

(** The launch of X27 on the group of three jobs, without session data:
    one job is left to run. *)
Lemma augmentJobs_launches_or_reaps_witness :
  let '(js, fs', e) :=
    augmentJobs (fun _ => 1%Z) (fun _ => 60%Z) (fun _ : string => @None (list string))
                false None "RunPBS" NoFile group_jobs (Runner.mkFS ∅ "/t") in
  e = None /\ length (List.filter (fun job => negb (isFinished job)) js) = 1%nat.
Proof.
  pose proof (augmentJobs_launches_or_reaps (fun _ => 1%Z) (fun _ => 60%Z)
                (fun _ : string => @None (list string)) None "RunPBS" NoFile
                (fresh_job "a" no_status) [fresh_job "s" silent; fresh_job "n" no_status]
                (Runner.mkFS ∅ "/t")) as H.
  vm_compute in H |- *.
  destruct H as (_ & _ & He & _ & _ & Hlen).
  exact (conj He Hlen).
Defined.

(** The operations on the arguments of a run and on paths, on examples. *)
Example split_eq_pieces :
  split_eq "--re=a=b" = ["--re"; "a"; "b"] /\ split_eq "-v" = ["-v"] /\ split_eq "k=" = ["k"; ""].
Proof. by vm_compute. Qed.

Example dirname_paths :
  dirname "/t/sub/job.sh" = "/t/sub" /\ dirname "job.sh" = "" /\ dirname "/job.sh" = "/"
  /\ dirname "t//job.sh" = "t" /\ dirname "//job.sh" = "//" /\ dirname "/t/.." = "/t".
Proof. by vm_compute. Qed.

Example components_paths :
  components "/t/sub/job.sh" = [""; "t"; "sub"; "job.sh"]
  /\ components "t//job.sh" = ["t"; ""; "job.sh"]
  /\ components "/t/" = [""; "t"; ""]
  /\ components "" = [""].
Proof. by vm_compute. Qed.

Example resolve_paths :
  let fs := Runner.mkFS {[ "/t/job.sh"; "/t/out/a.e"; "/u/job.sh" ]} "/t" in
  (path_of <$> resolve fs "out/../job.sh") = Some "/t/job.sh"
  /\ (path_of <$> resolve fs "/t/..") = Some "/"
  /\ (path_of <$> resolve fs "/t/./out/") = Some "/t/out"
  /\ (path_of <$> resolve fs "/t/new") = Some "/t/new"
  /\ resolve fs "/t/job.sh/" = None
  /\ resolve fs "/v/../t" = None.
Proof. by vm_compute. Qed.

Example cleanAndModifyArgs_run :
  cleanAndModifyArgs ["--pbs"; "--cli-args=-v"; "-j"; "4"; "--re=a"; "-i"; "tests"; "-i"; "more"]
                     ["--pbs"] ["--queue-project"] (Some "-v") None
  = ["-i"; "more"; "--re"; "a"; "--cli-args"; quoted "-v"].
Proof. by vm_compute. Qed.

End QueueMore.
